(** * Client-side Replicants: a shallow embedding of the repository

    The development follows the source files:
    - [shared.ts]: the path codec ([pathStrToPathArr], [pathArrToPathStr],
      [joinPathParts]), the traps of the child proxy handlers,
      [proxyRecursive], [assertSingleOwner], [applyOperation] and
      [readReplicant];
    - the file of the class [Replicant]: its constructor, [validate],
      [_declare], [_assignValue], [_handleOperations], the other handlers
      and the root proxy handler;
    - [Manager.ts]: the factory.

    JavaScript objects live in an explicit heap, so that object identity, the
    three module-level weak collections of [shared.ts] and in-place mutation
    are visible.  Code runs as a state transformer that returns, throws,
    runs out of the recursion budget that stands for a call stack, or leaves
    what the model can follow.  Library
    code that is not part of the repository ([clone], [deep-equal],
    [object-path], [is-my-json-valid], [Array.prototype], [JSON.stringify])
    is taken as an interface, the class [External]. *)

From Stdlib Require Import ZArith String Ascii List Bool Lia DecimalString.
From stdpp Require Import base option list gmap sets strings.

Set Warnings "-register-all".

Open Scope string_scope.
Open Scope Z_scope.

(** ** JavaScript strings *)

Module JS.

(** [s.substr(1)] *)
Definition substr1 (s : string) : string :=
  match s with
  | EmptyString => EmptyString
  | String _ t => t
  end.

(** [s.charAt(0)]: the empty string when [s] is empty. *)
Definition charAt0 (s : string) : string :=
  match s with
  | EmptyString => EmptyString
  | String a _ => String a EmptyString
  end.

(** [s.split('/')] *)
Fixpoint split (s : string) : list string :=
  match s with
  | EmptyString => [EmptyString]
  | String a t =>
      if Ascii.eqb a "/" then EmptyString :: split t
      else match split t with
           | [] => [String a EmptyString]
           | h :: r => String a h :: r
           end
  end.

(** [arr.join('/')] *)
Definition join (arr : list string) : string := String.concat "/" arr.

(** [s.endsWith('/')] *)
Fixpoint endsWithSlash (s : string) : bool :=
  match s with
  | EmptyString => false
  | String a EmptyString => Ascii.eqb a "/"
  | String _ t => endsWithSlash t
  end.

(** [part.replace(/~1/g, '/')]: every non-overlapping occurrence, left to right. *)
Fixpoint replace_tilde1 (s : string) : string :=
  match s with
  | EmptyString => EmptyString
  | String a t =>
      match t with
      | String b t' =>
          if Ascii.eqb a "~" && Ascii.eqb b "1"
          then String "/" (replace_tilde1 t')
          else String a (replace_tilde1 t)
      | EmptyString => String a EmptyString
      end
  end.

(** [key.replace(/\//g, '~1')] *)
Fixpoint replace_slash (s : string) : string :=
  match s with
  | EmptyString => EmptyString
  | String a t =>
      if Ascii.eqb a "/" then String "~" (String "1" (replace_slash t))
      else String a (replace_slash t)
  end.

(** [s.replace(/^data\./, '')] *)
Definition strip_data_prefix (s : string) : string :=
  match s with
  | String "d" (String "a" (String "t" (String "a" (String "." t)))) => t
  | _ => s
  end.

End JS.

(** ** The path codec of [shared.ts] *)

(** Converts a string path (/a/b/c) to an array path ['a', 'b', 'c']. *)
Definition pathStrToPathArr (path : string) : list string :=
  let pathArr := map JS.replace_tilde1 (JS.split (JS.substr1 path)) in
  match pathArr with
  | [EmptyString] => []
  | _ => pathArr
  end.

(** Converts an array path ['a', 'b', 'c'] to a string path /a/b/c. *)
Definition pathArrToPathStr (pathArr : list string) : string :=
  let path := JS.join pathArr in
  if negb (String.eqb (JS.charAt0 path) "/") then "/" ++ path else path.

Definition joinPathParts (part1 part2 : string) : string :=
  if JS.endsWithSlash part1 then part1 ++ part2 else part1 ++ "/" ++ part2.


(** ** Values and objects *)

(** Object identity, Replicant identity and socket identity. *)
Abbreviation loc := nat (only parsing).
Abbreviation rid := nat (only parsing).
Abbreviation sid := nat (only parsing).

(** A JavaScript value: a primitive or a reference to an object of the heap.
    Numbers are the integers (revisions, counters); functions are not values
    of replicated data. *)
Inductive val :=
| VUndefined
| VNull
| VBool (b : bool)
| VNumber (n : Z)
| VString (s : string)
| VRef (l : loc).

#[global] Instance val_eq_dec : EqDecision val.
Proof. solve_decision. Defined.

(** [a === b] *)
Definition strict_equal (a b : val) : bool := bool_decide (a = b).

(** [!!v] *)
Definition truthy (v : val) : bool :=
  match v with
  | VUndefined | VNull => false
  | VBool b => b
  | VNumber n => negb (n =? 0)
  | VString s => negb (String.eqb s EmptyString)
  | VRef _ => true
  end.

(** The nearest number to an integer: JavaScript numbers are IEEE 754
    doubles, which hold 53 significant bits.  An integer below 2^53 in
    magnitude is a number; a larger one is rounded to 53 bits, to the nearest
    and, halfway, to the even one. *)
Definition round_to_double (m : Z) : Z :=
  let a := Z.abs m in
  if a <? 2 ^ 53 then m
  else
    let e := Z.log2 a - 52 in
    let q := Z.shiftr a e in
    let rest := Z.land a (Z.ones e) in
    let half := Z.shiftl 1 (e - 1) in
    let q' :=
      if rest <? half then q
      else if half <? rest then q + 1
      else if Z.even q then q else q + 1 in
    Z.sgn m * Z.shiftl q' e.

(** [a + b] on numbers that are integers. *)
Definition number_add (a b : Z) : Z := round_to_double (a + b).

(** [typeof v] *)
Definition typeof (v : val) : string :=
  match v with
  | VUndefined => "undefined"
  | VNull => "object"
  | VBool _ => "boolean"
  | VNumber _ => "number"
  | VString _ => "string"
  | VRef _ => "object"
  end.

(** An ordinary object or array: its own enumerable properties in the order
    [for ... in] visits them. *)
Record object := { isArray : bool; props : list (string * val) }.

(** A heap cell: an ordinary object, or a [Proxy] created by [proxyRecursive]
    over the object at [target] (with the array or the object child handler,
    as [Array.isArray(target)] says). *)
Inductive cell :=
| Raw (o : object)
| ProxyOf (target : loc).

Fixpoint get_prop (ps : list (string * val)) (key : string) : option val :=
  match ps with
  | [] => None
  | (k, v) :: r => if String.eqb k key then Some v else get_prop r key
  end.

(** [o[key] = v] on an ordinary object: an existing property keeps its place. *)
Fixpoint set_prop (ps : list (string * val)) (key : string) (v : val)
  : list (string * val) :=
  match ps with
  | [] => [(key, v)]
  | (k, w) :: r =>
      if String.eqb k key then (k, v) :: r else (k, w) :: set_prop r key v
  end.

(** [delete o[key]] on an ordinary object. *)
Fixpoint delete_prop (ps : list (string * val)) (key : string)
  : list (string * val) :=
  match ps with
  | [] => []
  | (k, w) :: r =>
      if String.eqb k key then r else (k, w) :: delete_prop r key
  end.

(** Plain data carried by a validation error ([error.value]). *)
Inductive tree :=
| TUndefined
| TNull
| TBool (b : bool)
| TNumber (n : Z)
| TString (s : string)
| TArray (items : list tree)
| TObject (members : list (string * tree)).

(** [`${t}`]: the string conversion a template literal applies. *)
Fixpoint toString (t : tree) : string :=
  match t with
  | TUndefined => "undefined"
  | TNull => "null"
  | TBool true => "true"
  | TBool false => "false"
  | TNumber n => NilZero.string_of_int (Z.to_int n)
  | TString s => s
  | TArray items =>
      String.concat ","
        (map (fun i => match i with
                       | TUndefined | TNull => EmptyString
                       | _ => toString i
                       end) items)
  | TObject _ => "[object Object]"
  end.

(** [typeof t] *)
Definition typeof_tree (t : tree) : string :=
  match t with
  | TUndefined => "undefined"
  | TBool _ => "boolean"
  | TNumber _ => "number"
  | TString _ => "string"
  | TNull | TArray _ | TObject _ => "object"
  end.

(** ** Errors and outcomes *)

Inductive Error :=
| Err (message : string)         (* [throw new Error(message)] *)
| TypeError (message : string).  (* raised by the language *)

#[global] Instance Error_eq_dec : EqDecision Error.
Proof. solve_decision. Defined.

(** The result of running a piece of code: it returns; it throws; the
    recursion budget of the model ran out (the code does not terminate: the
    call stack overflows); or the code goes on in a way the data model has
    no state for (an assignment that reaches the [set] trap of a root proxy
    through a prototype chain writes to the Replicant object behind it):
    there the model stops and says nothing of what the code does next. *)
Inductive outcome (A : Type) :=
| Return (a : A)
| Throw (e : Error)
| OutOfFuel
| Unmodelled.
Arguments Return {A} a.
Arguments Throw {A} e.
Arguments OutOfFuel {A}.
Arguments Unmodelled {A}.

(** ** The data model of [Replicant.ts] *)

Inductive Status := undeclared | declaring | declared.

#[global] Instance Status_eq_dec : EqDecision Status.
Proof. solve_decision. Defined.

(** [ReplicantOptions]: the two options the client code touches. *)
Record ReplicantOptions := {
  persistent : option bool;
  persistenceInterval : option Z
}.

Definition DEFAULT_PERSISTENCE_INTERVAL : Z := 100.

(** One entry of [validator.errors] (is-my-json-valid). *)
Record ValidationError := {
  error_field : string;
  error_message : string;
  error_value : tree;
  error_type : string
}.

(** What a compiled validator answers: its boolean result and the [errors]
    it leaves behind. *)
Record ValidatorResult := {
  result : bool;
  errors : list ValidationError
}.

Definition Validator : Type := list cell -> val -> ValidatorResult.

(** [operation.args]: the argument array of an array mutator, or the object
    [{prop, newValue}] of add/update ([{prop}] for delete). *)
Inductive Args :=
| ArgList (args : list val)
| ArgObject (prop : string) (newValue : val).

(** [Function.prototype.apply] reads its argument list off an array. *)
Definition args_list (a : Args) : list val :=
  match a with
  | ArgList l => l
  | ArgObject _ _ => []
  end.

(** [operation.args.prop], as a property key. *)
Definition args_prop (a : Args) : string :=
  match a with
  | ArgList _ => "undefined"
  | ArgObject p _ => p
  end.

(** [operation.args.newValue] *)
Definition args_newValue (a : Args) : val :=
  match a with
  | ArgList _ => VUndefined
  | ArgObject _ v => v
  end.

Record Operation := {
  op_path : string;
  op_method : string;
  op_args : Args;
  op_result : option val
}.

Definition ARRAY_MUTATOR_METHODS : list string :=
  ["copyWithin"; "fill"; "pop"; "push"; "reverse"; "shift"; "sort"; "splice";
   "unshift"].

(** [ARRAY_MUTATOR_METHODS.indexOf(m) >= 0] *)
Definition is_array_mutator (m : string) : bool :=
  existsb (String.eqb m) ARRAY_MUTATOR_METHODS.

(** A deferred call [{fn, args}]; the only function the source ever queues is
    [_proposeAssignment]. *)
Inductive ActionFn := fn_proposeAssignment.

Record Action := { fn : ActionFn; args : list val }.

Record Replicant := {
  name : string;
  namespace : string;
  value : val;
  opts : ReplicantOptions;
  revision : Z;
  status : Status;
  _operationQueue : list Operation;
  _actionQueue : list Action;
  _socket : sid;
  schema : val;
  schemaSum : string;
  validationErrors : list ValidationError;
  _validator : option Validator;
  _ignoreProxy : bool;
  listenerCount : gmap string nat
}.

(** Node metadata of [shared.ts]. *)
Record Metadata := {
  replicant : rid;
  path : string;
  proxy : loc
}.

(** Acknowledgement callbacks passed to [socket.emit]. *)
Inductive Callback :=
| cb_joinRoom (r : rid)       (* _declare: the joinRoom acknowledgement *)
| cb_declare (r : rid)        (* _declare: the replicant:declare acknowledgement *)
| cb_proposeAssignment (r : rid)
| cb_fullUpdate (r : rid)
| cb_caller (k : nat).        (* a function of the caller of readReplicant *)

Inductive Payload :=
| room (roomName : string)
| declare_payload (name namespace : string) (opts : ReplicantOptions)
| proposeAssignment_payload
    (name namespace : string) (value : val) (schemaSum : string)
    (opts : ReplicantOptions)
| read_payload (name namespace : val).

(** One [socket.emit(event, payload, ack)]. *)
Record Emit := {
  emit_socket : sid;
  emit_event : string;
  emit_payload : Payload;
  emit_ack : option Callback
}.

(** Acknowledgement and push payloads received from the server. *)
Record DeclareAck := {
  declare_value : val;
  declare_revision : Z;
  declare_schema : val;
  declare_schemaSum : string;
  declare_rejectReason : option string
}.

Record ProposeAck := {
  propose_schema : val;
  propose_schemaSum : string;
  propose_rejectReason : option string
}.

Record ReadAck := { read_value : val; read_revision : Z }.

Record AssignmentData := {
  assignment_name : string;
  assignment_namespace : string;
  assignment_newValue : val;
  assignment_revision : option Z
}.

Record OperationsData := {
  operations_name : string;
  operations_namespace : string;
  operations_revision : Z;
  operations : list Operation
}.

(** Arguments of an event a Replicant emits to its listeners. *)
Inductive Arg :=
| arg_val (v : val)
| arg_operations (ops : list Operation)
| arg_declared (d : DeclareAck)
| arg_read (d : ReadAck)
| arg_reason (reason : string).

(** [this.emit(event, ...args)], or a direct call of one listener by [on]. *)
Inductive Notification :=
| emitted (r : rid) (event : string) (args : list Arg)
| called (r : rid) (event : string) (args : list Arg).

(** One [socket.on(event, handler)] of [registerSocketOperations]. *)
Record Subscription := {
  sub_socket : sid;
  sub_event : string;
  sub_replicant : rid
}.

(** The state of the process. *)
Record state := {
  heap : list cell;
  (* shared.ts: the Metadata objects and the three weak collections *)
  metadata : list Metadata;
  metadataMap : gmap loc nat;
  proxyMetadataMap : gmap loc nat;
  proxySet : gset loc;
  (* Replicant.ts: the Replicant objects and the registry *)
  replicants : list Replicant;
  declaredReplicants : gmap string (gmap string rid);
  (* the outside world: messages sent, handlers registered, events emitted *)
  sent : list Emit;
  subscriptions : list Subscription;
  notifications : list Notification
}.

(** *** Field updates *)

Definition with_heap (h : list cell) (σ : state) : state :=
  {| heap := h; metadata := metadata σ; metadataMap := metadataMap σ;
     proxyMetadataMap := proxyMetadataMap σ; proxySet := proxySet σ;
     replicants := replicants σ; declaredReplicants := declaredReplicants σ;
     sent := sent σ; subscriptions := subscriptions σ;
     notifications := notifications σ |}.

Definition with_metadata (m : list Metadata) (σ : state) : state :=
  {| heap := heap σ; metadata := m; metadataMap := metadataMap σ;
     proxyMetadataMap := proxyMetadataMap σ; proxySet := proxySet σ;
     replicants := replicants σ; declaredReplicants := declaredReplicants σ;
     sent := sent σ; subscriptions := subscriptions σ;
     notifications := notifications σ |}.

(** The three registrations of a fresh proxy: [proxySet.add(p)],
    [metadataMap.set(value, metadata)], [proxyMetadataMap.set(p, metadata)]. *)
Definition with_registration (value p : loc) (i : nat) (σ : state) : state :=
  {| heap := heap σ; metadata := metadata σ;
     metadataMap := <[value := i]> (metadataMap σ);
     proxyMetadataMap := <[p := i]> (proxyMetadataMap σ);
     proxySet := {[p]} ∪ proxySet σ;
     replicants := replicants σ; declaredReplicants := declaredReplicants σ;
     sent := sent σ; subscriptions := subscriptions σ;
     notifications := notifications σ |}.

Definition with_replicants (rs : list Replicant) (σ : state) : state :=
  {| heap := heap σ; metadata := metadata σ; metadataMap := metadataMap σ;
     proxyMetadataMap := proxyMetadataMap σ; proxySet := proxySet σ;
     replicants := rs; declaredReplicants := declaredReplicants σ;
     sent := sent σ; subscriptions := subscriptions σ;
     notifications := notifications σ |}.

Definition with_declaredReplicants
  (d : gmap string (gmap string rid)) (σ : state) : state :=
  {| heap := heap σ; metadata := metadata σ; metadataMap := metadataMap σ;
     proxyMetadataMap := proxyMetadataMap σ; proxySet := proxySet σ;
     replicants := replicants σ; declaredReplicants := d;
     sent := sent σ; subscriptions := subscriptions σ;
     notifications := notifications σ |}.

Definition with_sent (s : list Emit) (σ : state) : state :=
  {| heap := heap σ; metadata := metadata σ; metadataMap := metadataMap σ;
     proxyMetadataMap := proxyMetadataMap σ; proxySet := proxySet σ;
     replicants := replicants σ; declaredReplicants := declaredReplicants σ;
     sent := s; subscriptions := subscriptions σ;
     notifications := notifications σ |}.

Definition with_subscriptions (s : list Subscription) (σ : state) : state :=
  {| heap := heap σ; metadata := metadata σ; metadataMap := metadataMap σ;
     proxyMetadataMap := proxyMetadataMap σ; proxySet := proxySet σ;
     replicants := replicants σ; declaredReplicants := declaredReplicants σ;
     sent := sent σ; subscriptions := s;
     notifications := notifications σ |}.

Definition with_notifications (n : list Notification) (σ : state) : state :=
  {| heap := heap σ; metadata := metadata σ; metadataMap := metadataMap σ;
     proxyMetadataMap := proxyMetadataMap σ; proxySet := proxySet σ;
     replicants := replicants σ; declaredReplicants := declaredReplicants σ;
     sent := sent σ; subscriptions := subscriptions σ;
     notifications := n |}.

Definition with_value (v : val) (R : Replicant) : Replicant :=
  {| name := name R; namespace := namespace R; value := v; opts := opts R;
     revision := revision R; status := status R;
     _operationQueue := _operationQueue R; _actionQueue := _actionQueue R;
     _socket := _socket R; schema := schema R; schemaSum := schemaSum R;
     validationErrors := validationErrors R; _validator := _validator R;
     _ignoreProxy := _ignoreProxy R; listenerCount := listenerCount R |}.

Definition with_opts (o : ReplicantOptions) (R : Replicant) : Replicant :=
  {| name := name R; namespace := namespace R; value := value R; opts := o;
     revision := revision R; status := status R;
     _operationQueue := _operationQueue R; _actionQueue := _actionQueue R;
     _socket := _socket R; schema := schema R; schemaSum := schemaSum R;
     validationErrors := validationErrors R; _validator := _validator R;
     _ignoreProxy := _ignoreProxy R; listenerCount := listenerCount R |}.

Definition with_revision (n : Z) (R : Replicant) : Replicant :=
  {| name := name R; namespace := namespace R; value := value R;
     opts := opts R; revision := n; status := status R;
     _operationQueue := _operationQueue R; _actionQueue := _actionQueue R;
     _socket := _socket R; schema := schema R; schemaSum := schemaSum R;
     validationErrors := validationErrors R; _validator := _validator R;
     _ignoreProxy := _ignoreProxy R; listenerCount := listenerCount R |}.

Definition with_status (s : Status) (R : Replicant) : Replicant :=
  {| name := name R; namespace := namespace R; value := value R;
     opts := opts R; revision := revision R; status := s;
     _operationQueue := _operationQueue R; _actionQueue := _actionQueue R;
     _socket := _socket R; schema := schema R; schemaSum := schemaSum R;
     validationErrors := validationErrors R; _validator := _validator R;
     _ignoreProxy := _ignoreProxy R; listenerCount := listenerCount R |}.

Definition with_queues
  (ops : list Operation) (acts : list Action) (R : Replicant) : Replicant :=
  {| name := name R; namespace := namespace R; value := value R;
     opts := opts R; revision := revision R; status := status R;
     _operationQueue := ops; _actionQueue := acts;
     _socket := _socket R; schema := schema R; schemaSum := schemaSum R;
     validationErrors := validationErrors R; _validator := _validator R;
     _ignoreProxy := _ignoreProxy R; listenerCount := listenerCount R |}.

Definition with_schema (s : val) (sum : string) (R : Replicant) : Replicant :=
  {| name := name R; namespace := namespace R; value := value R;
     opts := opts R; revision := revision R; status := status R;
     _operationQueue := _operationQueue R; _actionQueue := _actionQueue R;
     _socket := _socket R; schema := s; schemaSum := sum;
     validationErrors := validationErrors R; _validator := _validator R;
     _ignoreProxy := _ignoreProxy R; listenerCount := listenerCount R |}.

Definition with_validationErrors
  (e : list ValidationError) (R : Replicant) : Replicant :=
  {| name := name R; namespace := namespace R; value := value R;
     opts := opts R; revision := revision R; status := status R;
     _operationQueue := _operationQueue R; _actionQueue := _actionQueue R;
     _socket := _socket R; schema := schema R; schemaSum := schemaSum R;
     validationErrors := e; _validator := _validator R;
     _ignoreProxy := _ignoreProxy R; listenerCount := listenerCount R |}.

Definition with_validator (v : option Validator) (R : Replicant) : Replicant :=
  {| name := name R; namespace := namespace R; value := value R;
     opts := opts R; revision := revision R; status := status R;
     _operationQueue := _operationQueue R; _actionQueue := _actionQueue R;
     _socket := _socket R; schema := schema R; schemaSum := schemaSum R;
     validationErrors := validationErrors R; _validator := v;
     _ignoreProxy := _ignoreProxy R; listenerCount := listenerCount R |}.

Definition with_ignoreProxy (b : bool) (R : Replicant) : Replicant :=
  {| name := name R; namespace := namespace R; value := value R;
     opts := opts R; revision := revision R; status := status R;
     _operationQueue := _operationQueue R; _actionQueue := _actionQueue R;
     _socket := _socket R; schema := schema R; schemaSum := schemaSum R;
     validationErrors := validationErrors R; _validator := _validator R;
     _ignoreProxy := b; listenerCount := listenerCount R |}.

Definition with_listenerCount
  (c : gmap string nat) (R : Replicant) : Replicant :=
  {| name := name R; namespace := namespace R; value := value R;
     opts := opts R; revision := revision R; status := status R;
     _operationQueue := _operationQueue R; _actionQueue := _actionQueue R;
     _socket := _socket R; schema := schema R; schemaSum := schemaSum R;
     validationErrors := validationErrors R; _validator := _validator R;
     _ignoreProxy := _ignoreProxy R; listenerCount := c |}.

(** [this.f = ...] on the Replicant object [r]. *)
Definition update_replicant
  (r : rid) (f : Replicant -> Replicant) (σ : state) : state :=
  with_replicants (alter f r (replicants σ)) σ.

(** ** Code as state transformers that may throw *)

Definition M (A : Type) : Type := state -> state * outcome A.

Definition ret {A} (a : A) : M A := fun σ => (σ, Return a).

Definition throw {A} (e : Error) : M A := fun σ => (σ, Throw e).

(** The model stops. *)
Definition unmodelled {A} : M A := fun σ => (σ, Unmodelled).

(** Sequencing: a throw (or divergence, or a stop of the model) ends the
    rest, and keeps the mutations made so far. *)
Definition bind {A B} (m : M A) (k : A -> M B) : M B :=
  fun σ =>
    match m σ with
    | (σ', Return a) => k a σ'
    | (σ', Throw e) => (σ', Throw e)
    | (σ', OutOfFuel) => (σ', OutOfFuel)
    | (σ', Unmodelled) => (σ', Unmodelled)
    end.

Declare Scope js_scope.
Delimit Scope js_scope with js.
Notation "x <- m ;; k" := (bind m (fun x => k))
  (at level 100, m at next level, right associativity) : js_scope.
Notation "m ;;; k" := (bind m (fun _ => k))
  (at level 100, right associativity) : js_scope.

(** [arr.forEach(f)] and [for (... of ...)]: in order, until one call throws. *)
Fixpoint forEach {A} (f : A -> M unit) (l : list A) : M unit :=
  match l with
  | [] => ret tt
  | a :: rest => bind (f a) (fun _ => forEach f rest)
  end.

Definition get_state : M state := fun σ => (σ, Return σ).

Definition modify (f : state -> state) : M unit := fun σ => (f σ, Return tt).

(** [this], as the Replicant object [r]. *)
Definition this_replicant (r : rid) : M Replicant :=
  fun σ =>
    match replicants σ !! r with
    | Some R => (σ, Return R)
    | None => (σ, Throw (TypeError "Cannot read properties of undefined"))
    end.

(** ** Library code outside the repository *)

Class External := {
  (** [clone(v)]: a deep copy, made of new ordinary objects. *)
  clone : list cell -> val -> list cell * val;
  (** [equal(a, b)] of deep-equal. *)
  equal : list cell -> val -> val -> bool;
  (** [validator(schema)] of is-my-json-valid. *)
  validator : list cell -> val -> Validator;
  (** [JSON.stringify(v, null, 2)]: the text, or the [TypeError] thrown on a
      value that holds itself. *)
  JSON_stringify : list cell -> val -> Error + string;
  (** [objectPath.get(obj, path)] *)
  objectPath_get : list cell -> val -> list string -> val;
  (** [objectPath.set(obj, path, v)]: the value that was there before, or
      the [TypeError] of an assignment to a member of a value that is no
      object. *)
  objectPath_set :
    list cell -> val -> list string -> val -> list cell * (Error + val);
  (** [objectPath.has(obj, path)] *)
  objectPath_has : list cell -> val -> list string -> bool;
  (** [Array.prototype[method].apply(arr, args)] on the array [arr]. *)
  array_apply :
    string -> list val -> list cell -> loc -> list cell * (Error + val)
}.

Section Model.
Context {ext : External}.
Open Scope js_scope.

(** ** Sockets and listeners *)

(** [socket.emit(event, payload, ack)] *)
Definition socket_emit
  (socket : sid) (event : string) (payload : Payload) (ack : option Callback)
  : M unit :=
  modify (fun σ =>
    with_sent (sent σ ++ [{| emit_socket := socket; emit_event := event;
                             emit_payload := payload; emit_ack := ack |}]) σ).

(** [this.emit(event, ...args)]; listeners are code of the caller. *)
Definition emit (r : rid) (event : string) (args : list Arg) : M unit :=
  modify (fun σ => with_notifications (notifications σ ++ [emitted r event args]) σ).

(** ** [Replicant.validate] *)

Definition nl : string := String "010"%char EmptyString.
Definition tab : string := String "009"%char EmptyString.
Definition quote : string := String "034"%char EmptyString.

(** The text one error adds to [errorMessage]. *)
Definition error_text (error : ValidationError) : string :=
  let field := JS.strip_data_prefix (error_field error) in
  if String.eqb (error_message error) "is the wrong type" then
    tab ++ "Field " ++ quote ++ field ++ quote ++ " " ++ error_message error
    ++ ". Value " ++ quote ++ toString (error_value error) ++ quote
    ++ " (type: " ++ typeof_tree (error_value error)
    ++ ") was provided, expected type " ++ quote ++ error_type error ++ quote
    ++ nl ++ " "
  else if String.eqb (error_message error) "has additional properties" then
    tab ++ "Field " ++ quote ++ field ++ quote ++ " " ++ error_message error
    ++ ": " ++ quote ++ toString (error_value error) ++ quote ++ nl
  else
    tab ++ "Field " ++ quote ++ field ++ quote ++ " " ++ error_message error
    ++ nl.

(** [this._validator.errors.forEach((error) => { errorMessage += ...; throw
    new Error(errorMessage) })]: the callback throws at the end of its first
    run, so the iteration never reaches a second error. *)
Definition errors_forEach
  (errs : list ValidationError) (errorMessage : string) : outcome unit :=
  match errs with
  | [] => Return tt
  | error :: _ => Throw (Err (errorMessage ++ error_text error))
  end.

Definition validate (r : rid) (v : val) (throwOnInvalid : bool) : M bool :=
  R <- this_replicant r ;;
  match _validator R with
  | None => ret true
  | Some check =>
      σ <- get_state ;;
      let answer := check (heap σ) v in
      if negb (result answer) then
        modify (update_replicant r (with_validationErrors (errors answer))) ;;;
        (if throwOnInvalid then
           let errorMessage :=
             "Invalid value rejected for replicant " ++ quote ++ name R
             ++ quote ++ " in namespace " ++ quote ++ namespace R ++ quote
             ++ ":" ++ nl in
           fun σ' => (σ', errors_forEach (errors answer) errorMessage)
         else ret tt) ;;;
        ret (result answer)
      else ret true
  end.

(** ** Objects of the heap *)

Definition raw_get (σ : state) (target : loc) (prop : string) : val :=
  match heap σ !! target with
  | Some (Raw o) => default VUndefined (get_prop (props o) prop)
  | _ => VUndefined
  end.

(** [{}.hasOwnProperty.call(target, prop)] *)
Definition raw_hasOwn (σ : state) (target : loc) (prop : string) : bool :=
  match heap σ !! target with
  | Some (Raw o) => bool_decide (is_Some (get_prop (props o) prop))
  | _ => false
  end.

(** [target[prop] = v] on an ordinary object. *)
Definition raw_set (target : loc) (prop : string) (v : val) (σ : state)
  : state :=
  match heap σ !! target with
  | Some (Raw o) =>
      with_heap (<[target := Raw {| isArray := isArray o;
                                    props := set_prop (props o) prop v |}]>
                   (heap σ)) σ
  | _ => σ
  end.

(** [delete target[prop]] on an ordinary object. *)
Definition raw_delete (target : loc) (prop : string) (σ : state) : state :=
  match heap σ !! target with
  | Some (Raw o) =>
      with_heap (<[target := Raw {| isArray := isArray o;
                                    props := delete_prop (props o) prop |}]>
                   (heap σ)) σ
  | _ => σ
  end.

(** [Array.isArray(v)] for an ordinary object. *)
Definition raw_isArray (σ : state) (l : loc) : bool :=
  match heap σ !! l with
  | Some (Raw o) => isArray o
  | _ => false
  end.

(** [map.get(key)] of one of the two metadata maps: the Metadata object. *)
Definition metadata_at (σ : state) (i : option nat) : option Metadata :=
  match i with
  | Some k => metadata σ !! k
  | None => None
  end.

(** ** The traps of the child handlers ([shared.ts]) *)

(** The class [Replicant] of this repository has no method [_addOperation]:
    calling it throws a [TypeError] whose message starts with the text of
    the callee, [replicant._addOperation] in the [set] and [deleteProperty]
    traps and [metadata.replicant._addOperation] in the function the [get]
    trap of the array handler returns. *)
Definition _addOperation {A} (callee : string) : M A :=
  throw (TypeError (callee ++ " is not a function")).

(** [const valueClone = clone(replicant.value)] and
    [const targetClone = objectPath.get(valueClone, pathStrToPathArr(metadata.path))] *)
Definition clone_target (R : Replicant) (md : Metadata) : M (val * val) :=
  fun σ =>
    let '(h, valueClone) := clone (heap σ) (value R) in
    (with_heap h σ,
     Return (valueClone,
             objectPath_get h valueClone (pathStrToPathArr (path md)))).

(** [targetClone[prop] = newValue] *)
Definition clone_assign (targetClone : val) (prop : string) (newValue : val)
  : M unit :=
  match targetClone with
  | VRef l => modify (raw_set l prop newValue)
  | _ => throw (TypeError "Cannot set properties")
  end.

(** [delete targetClone[prop]] *)
Definition clone_delete (targetClone : val) (prop : string) : M unit :=
  match targetClone with
  | VRef l => modify (raw_delete l prop)
  | VUndefined | VNull => throw (TypeError "Cannot convert undefined or null to object")
  | _ => ret tt
  end.

(** [a[method].apply(a, args)] where [a] is an ordinary object: the method of
    [Array.prototype] when [a] is an array that does not shadow it. *)
Definition raw_apply (l : loc) (method : string) (args : list val) : M val :=
  fun σ =>
    if raw_isArray σ l && negb (raw_hasOwn σ l method) then
      match array_apply method args (heap σ) l with
      | (h, inr v) => (with_heap h σ, Return v)
      | (h, inl e) => (with_heap h σ, Throw e)
      end
    else (σ, Throw (TypeError "apply of a value that is not a function")).

(** [targetClone[prop].apply(targetClone, args)] *)
Definition clone_apply (targetClone : val) (prop : string) (args : list val)
  : M unit :=
  match targetClone with
  | VRef l => raw_apply l prop args ;;; ret tt
  | _ => throw (TypeError "Cannot read properties")
  end.

(** The [set] trap, the same text in [getChildArrayHandler] and
    [getChildObjectHandler]. *)
Definition childHandler_set (target : loc) (prop : string) (newValue : val)
  : M bool :=
  σ <- get_state ;;
  if strict_equal (raw_get σ target prop) newValue then ret true
  else
    match metadata_at σ (metadataMap σ !! target) with
    | None => ret false
    | Some md =>
        R <- this_replicant (replicant md) ;;
        if _ignoreProxy R then
          modify (raw_set target prop newValue) ;;; ret true
        else
          (if truthy (schema R) then
             c <- clone_target R md ;;
             clone_assign (snd c) prop newValue ;;;
             validate (replicant md) (fst c) true ;;; ret tt
           else ret tt) ;;;
          (* both branches of the hasOwnProperty test call _addOperation *)
          _addOperation "replicant._addOperation"
    end.

(** [getDeleteTrap] *)
Definition deleteTrap (target : loc) (prop : string) : M bool :=
  σ <- get_state ;;
  match metadata_at σ (metadataMap σ !! target) with
  | None => ret false
  | Some md =>
      R <- this_replicant (replicant md) ;;
      if _ignoreProxy R then
        modify (raw_delete target prop) ;;; ret true
      else if raw_hasOwn σ target prop then ret true
      else
        (if truthy (schema R) then
           c <- clone_target R md ;;
           clone_delete (snd c) prop ;;;
           validate (replicant md) (fst c) true ;;; ret tt
         else ret tt) ;;;
        _addOperation "replicant._addOperation"
  end.

(** The [get] trap of [getChildArrayHandler], for a data property; that of
    [getChildObjectHandler] returns [target[prop]] (data holds no function to
    bind). *)
Definition childArrayHandler_get (σ : state) (target : loc) (prop : string)
  : val :=
  match metadata_at σ (metadataMap σ !! target) with
  | None => VUndefined
  | Some _ => raw_get σ target prop
  end.

(** [arr[method].apply(arr, args)] where [arr] is a proxy over the array
    [target] and [method] is one of [ARRAY_MUTATOR_METHODS]: the [get] trap
    hands out the method itself while the owner ignores its proxies, and the
    recording function otherwise. *)
Definition childArrayHandler_call
  (target : loc) (method : string) (args : list val) : M val :=
  σ <- get_state ;;
  match metadata_at σ (metadataMap σ !! target) with
  | None => throw (TypeError "Cannot read properties of undefined")
  | Some md =>
      R <- this_replicant (replicant md) ;;
      if _ignoreProxy R then raw_apply target method args
      else if raw_hasOwn σ target method then
        throw (TypeError "apply of a value that is not a function")
      else
        (if truthy (schema R) then
           c <- clone_target R md ;;
           clone_apply (snd c) method args ;;;
           validate (replicant md) (fst c) true ;;; ret tt
         else ret tt) ;;;
        _addOperation "metadata.replicant._addOperation"
  end.

(** *** Member access on a value that may be a proxy *)

(** The ordinary object behind [l]. *)
Definition target_of (σ : state) (l : loc) : loc :=
  match heap σ !! l with
  | Some (ProxyOf target) => target
  | _ => l
  end.

(** The keys [for (const key in value)] visits. *)
Definition own_keys (σ : state) (l : loc) : list string :=
  match heap σ !! target_of σ l with
  | Some (Raw o) => map fst (props o)
  | _ => []
  end.

(** [{}.hasOwnProperty.call(value, key)] *)
Definition hasOwn (σ : state) (l : loc) (key : string) : bool :=
  raw_hasOwn σ (target_of σ l) key.

(** [value[key]] *)
Definition get_member (σ : state) (l : loc) (key : string) : val :=
  match heap σ !! l with
  | Some (ProxyOf target) =>
      if raw_isArray σ target then childArrayHandler_get σ target key
      else raw_get σ target key
  | _ => raw_get σ l key
  end.

(** [value[key] = v]; the module is strict code, where a [set] trap that
    answers false makes the assignment throw. *)
Definition set_member (l : loc) (key : string) (v : val) : M unit :=
  σ <- get_state ;;
  match heap σ !! l with
  | Some (ProxyOf target) =>
      ok <- childHandler_set target key v ;;
      if (ok : bool) then ret tt
      else throw (TypeError "'set' on proxy: trap returned falsish")
  | _ => modify (raw_set l key v)
  end.

(** [delete target[prop]], the value of the expression. *)
Definition delete_member (target : val) (prop : string) : M val :=
  match target with
  | VRef l =>
      σ <- get_state ;;
      match heap σ !! l with
      | Some (ProxyOf t) =>
          ok <- deleteTrap t prop ;;
          if (ok : bool) then ret (VBool true)
          else throw (TypeError "'deleteProperty' on proxy: trap returned falsish")
      | _ => modify (raw_delete l prop) ;;; ret (VBool true)
      end
  | VUndefined | VNull =>
      throw (TypeError "Cannot convert undefined or null to object")
  | _ => ret (VBool true)
  end.

(** [arr[method].apply(arr, args)] *)
Definition call_method (arr : val) (method : string) (args : list val)
  : M val :=
  match arr with
  | VRef l =>
      σ <- get_state ;;
      match heap σ !! l with
      | Some (ProxyOf target) =>
          if raw_isArray σ target then childArrayHandler_call target method args
          else throw (TypeError "apply of a value that is not a function")
      | _ => raw_apply l method args
      end
  | _ => throw (TypeError "Cannot read properties")
  end.

(** ** [assertSingleOwner] and [proxyRecursive] *)

(** The message of the ownership error. *)
Definition ownership_message (owner : Replicant) (json : string) : string :=
  "This object belongs to another Replicant, " ++ namespace owner ++ "::"
  ++ name owner ++ "." ++ nl
  ++ "A given object cannot belong to multiple Replicants. Object value:"
  ++ nl ++ json.

(** Throws an exception if an object belongs to more than one Replicant. *)
Definition assertSingleOwner (r : rid) (v : loc) : M unit :=
  σ <- get_state ;;
  let found :=
    if decide (v ∈ proxySet σ) then Some (metadata_at σ (proxyMetadataMap σ !! v))
    else if decide (is_Some (metadataMap σ !! v))
         then Some (metadata_at σ (metadataMap σ !! v))
         else None in
  match found with
  | None =>
      (* no metadata for this value: it belongs to no Replicant yet *)
      ret tt
  | Some None => ret tt
  | Some (Some md) =>
      if decide (replicant md ≠ r) then
        owner <- this_replicant (replicant md) ;;
        match JSON_stringify (heap σ) (VRef v) with
        | inr json => throw (Err (ownership_message owner json))
        | inl e => throw e
        end
      else ret tt
  end.

(** [metadata.path = path] on the Metadata object [i]. *)
Definition set_path (i : option nat) (pth : string) : M unit :=
  match i with
  | Some k =>
      modify (fun σ =>
        with_metadata
          (alter (fun md => {| replicant := replicant md; path := pth;
                               proxy := proxy md |}) k (metadata σ)) σ)
  | None => ret tt
  end.

(** [p = new Proxy(value, handler); proxySet.add(p);
    metadataMap.set(value, metadata); proxyMetadataMap.set(p, metadata)] *)
Definition new_proxy (r : rid) (v : loc) (pth : string) : M val :=
  fun σ =>
    let p := length (heap σ) in
    let i := length (metadata σ) in
    (with_registration v p i
       (with_metadata
          (metadata σ ++ [{| replicant := r; path := pth; proxy := p |}])
          (with_heap (heap σ ++ [ProxyOf v]) σ)),
     Return (VRef p)).

(** Recursively Proxies an Array or Object. Does nothing to primitive values.
    [fuel] bounds the depth of the recursion. *)
Fixpoint proxyRecursive (fuel : nat) (r : rid) (v : val) (pth : string)
  : M val :=
  match fuel with
  | O => fun σ => (σ, OutOfFuel)
  | S fuel' =>
      match v with
      | VRef l =>
          assertSingleOwner r l ;;;
          σ <- get_state ;;
          p <- (if decide (l ∈ proxySet σ) then
                  (* already a Proxy: don't re-proxy it *)
                  set_path (proxyMetadataMap σ !! l) pth ;;;
                  ret v
                else if decide (is_Some (metadataMap σ !! l)) then
                  match metadata_at σ (metadataMap σ !! l) with
                  | Some md => set_path (metadataMap σ !! l) pth ;;;
                               ret (VRef (proxy md))
                  | None => ret VUndefined
                  end
                else new_proxy r l pth) ;;
          σ1 <- get_state ;;
          forEach
            (fun key =>
               σ2 <- get_state ;;
               if negb (hasOwn σ2 l key) then ret tt
               else
                 let escapedKey := JS.replace_slash key in
                 let childPath :=
                   if negb (String.eqb pth EmptyString)
                   then joinPathParts pth escapedKey
                   else escapedKey in
                 child <- proxyRecursive fuel' r (get_member σ2 l key) childPath ;;
                 set_member l key child)
            (own_keys σ1 l) ;;;
          ret p
      | _ => ret v
      end
  end.

(** ** [applyOperation] *)

Definition applyOperation (fuel : nat) (r : rid) (operation : Operation)
  : M val :=
  R <- this_replicant r ;;
  if negb (truthy (value R)) then
    throw (Err "applyOperation called with Replicant with undefined value")
  else
    modify (update_replicant r (with_ignoreProxy true)) ;;;
    let pathArr := pathStrToPathArr (op_path operation) in
    res <- (if is_array_mutator (op_method operation) then
              σ <- get_state ;;
              let arr := objectPath_get (heap σ) (value R) pathArr in
              res <- call_method arr (op_method operation)
                       (args_list (op_args operation)) ;;
              (* objects added by the method may need to be Proxied *)
              proxyRecursive fuel r arr (op_path operation) ;;;
              ret res
            else if String.eqb (op_method operation) "add"
                    || String.eqb (op_method operation) "update" then
              let pathArr := (pathArr ++ [args_prop (op_args operation)])%list in
              let newValue := args_newValue (op_args operation) in
              newValue <- (if String.eqb (typeof newValue) "object"
                           then proxyRecursive fuel r newValue
                                  (pathArrToPathStr pathArr)
                           else ret newValue) ;;
              fun σ =>
                match objectPath_set (heap σ) (value R) pathArr newValue with
                | (h, inr old) => (with_heap h σ, Return old)
                | (h, inl e) => (with_heap h σ, Throw e)
                end
            else if String.eqb (op_method operation) "delete" then
              σ <- get_state ;;
              if bool_decide (pathArr = [])
                 || objectPath_has (heap σ) (value R) pathArr then
                delete_member (objectPath_get (heap σ) (value R) pathArr)
                  (args_prop (op_args operation))
              else ret VUndefined
            else
              throw (Err ("Unexpected operation method " ++ quote
                          ++ op_method operation ++ quote))) ;;
    modify (update_replicant r (with_ignoreProxy false)) ;;;
    ret res.

(** ** [readReplicant] *)

Definition readReplicant
  (socket : sid) (name namespace : val) (cb : Callback) : M unit :=
  if negb (truthy name) || negb (String.eqb (typeof name) "string") then
    throw (Err "Must supply a name when reading a Replicant")
  else if negb (truthy namespace)
          || negb (String.eqb (typeof namespace) "string") then
    throw (Err "Must supply a namespace when reading a Replicant")
  else socket_emit socket "replicant:read" (read_payload name namespace) (Some cb).

(** ** The class [Replicant] *)

(** [var = clone(this.value)] *)
Definition clone_value (v : val) : M val :=
  fun σ =>
    let '(h, c) := clone (heap σ) v in
    (with_heap h σ, Return c).

(** [if (data.rejectReason)]: a reason that is present and not empty. *)
Definition rejected (reason : option string) : option string :=
  match reason with
  | Some s => if String.eqb s EmptyString then None else Some s
  | None => None
  end.

(** [this.listenerCount(event)] *)
Definition count_listeners (R : Replicant) (event : string) : nat :=
  default 0%nat (listenerCount R !! event).

Definition _queueAction (r : rid) (f : ActionFn) (a : list val) : M unit :=
  modify (update_replicant r (fun R =>
    with_queues (_operationQueue R)
      (_actionQueue R ++ [{| fn := f; args := a |}]) R)).

Definition _proposeAssignment (r : rid) (newValue : val) : M unit :=
  R <- this_replicant r ;;
  socket_emit (_socket R) "replicant:proposeAssignment"
    (proposeAssignment_payload (name R) (namespace R) newValue (schemaSum R)
       (opts R))
    (Some (cb_proposeAssignment r)).

(** The acknowledgement callback of [_proposeAssignment]. *)
Definition proposeAssignment_ack (r : rid) (data : ProposeAck) : M unit :=
  (if truthy (propose_schema data) then
     modify (update_replicant r
               (with_schema (propose_schema data) (propose_schemaSum data)))
   else ret tt) ;;;
  match rejected (propose_rejectReason data) with
  | Some reason =>
      R <- this_replicant r ;;
      if (0 <? count_listeners R "assignmentRejected")%nat
      then emit r "assignmentRejected" [arg_reason reason]
      else throw (Err reason)
  | None => ret tt
  end.

Definition _assignValue
  (fuel : nat) (r : rid) (newValue : val) (rev : option Z) : M unit :=
  R <- this_replicant r ;;
  oldValue <- clone_value (value R) ;;
  v <- proxyRecursive fuel r newValue "/" ;;
  modify (update_replicant r (with_value v)) ;;;
  match rev with
  | Some n => modify (update_replicant r (with_revision n))
  | None => ret tt
  end ;;;
  R' <- this_replicant r ;;
  emit r "change" [arg_val (value R'); arg_val oldValue].

(** [item.fn.apply(this, item.args)] *)
Definition run_action (r : rid) (item : Action) : M unit :=
  match fn item with
  | fn_proposeAssignment =>
      _proposeAssignment r (default VUndefined (head (args item)))
  end.

Definition _declare (r : rid) : M unit :=
  R <- this_replicant r ;;
  if bool_decide (status R = declared) || bool_decide (status R = declaring)
  then ret tt
  else
    modify (update_replicant r (with_status declaring)) ;;;
    socket_emit (_socket R) "joinRoom" (room ("replicant:" ++ namespace R))
      (Some (cb_joinRoom r)).

(** The acknowledgement callback of the joinRoom message of [_declare]. *)
Definition joinRoom_ack (r : rid) : M unit :=
  R <- this_replicant r ;;
  socket_emit (_socket R) "replicant:declare"
    (declare_payload (name R) (namespace R) (opts R))
    (Some (cb_declare r)).

(** The acknowledgement callback of the replicant:declare message. *)
Definition declare_ack (fuel : nat) (r : rid) (data : DeclareAck) : M unit :=
  match rejected (declare_rejectReason data) with
  | Some reason =>
      R <- this_replicant r ;;
      if (0 <? count_listeners R "declarationRejected")%nat
      then emit r "declarationRejected" [arg_reason reason]
      else throw (Err reason)
  | None => ret tt
  end ;;;
  modify (update_replicant r (with_status declared)) ;;;
  R <- this_replicant r ;;
  σ <- get_state ;;
  (if negb (revision R =? declare_revision data)
      || negb (equal (heap σ) (value R) (declare_value data))
   then _assignValue fuel r (declare_value data) (Some (declare_revision data))
   else ret tt) ;;;
  (if truthy (declare_schema data) then
     modify (fun σ =>
       update_replicant r (fun R =>
         with_validator (Some (validator (heap σ) (declare_schema data)))
           (with_schema (declare_schema data) (declare_schemaSum data) R)) σ)
   else ret tt) ;;;
  emit r "declared" [arg_declared data] ;;;
  R <- this_replicant r ;;
  (if strict_equal (value R) VUndefined && (revision R =? 0)
   then emit r "change" []
   else ret tt) ;;;
  R <- this_replicant r ;;
  match _actionQueue R with
  | [] => ret tt
  | queue =>
      forEach (run_action r) queue ;;;
      modify (update_replicant r (fun R => with_queues (_operationQueue R) [] R))
  end.

Definition _handleAssignment (fuel : nat) (r : rid) (data : AssignmentData)
  : M unit :=
  R <- this_replicant r ;;
  if negb (String.eqb (assignment_name data) (name R))
     || negb (String.eqb (assignment_namespace data) (namespace R))
  then ret tt
  else _assignValue fuel r (assignment_newValue data) (assignment_revision data).

Definition _fullUpdate (r : rid) : M unit :=
  R <- this_replicant r ;;
  readReplicant (_socket R) (VString (name R)) (VString (namespace R))
    (cb_fullUpdate r).

(** The acknowledgement callback of [_fullUpdate]. *)
Definition fullUpdate_ack (fuel : nat) (r : rid) (data : ReadAck) : M unit :=
  emit r "fullUpdate" [arg_read data] ;;;
  _assignValue fuel r (read_value data) (Some (read_revision data)).

(** What an acknowledgement callback is called with. *)
Definition Answer (cb : Callback) : Type :=
  match cb with
  | cb_joinRoom _ => unit
  | cb_declare _ => DeclareAck
  | cb_proposeAssignment _ => ProposeAck
  | cb_fullUpdate _ => ReadAck
  | cb_caller _ => ReadAck
  end.

(** The call the socket makes of an acknowledgement callback when the answer
    of the server arrives: the callbacks of this repository are the arrow
    functions above; a callback of the caller of [readReplicant] is code
    outside the repository, of which the model has nothing to run. *)
Definition acknowledge (fuel : nat) (cb : Callback)
  : Answer cb -> option (M unit) :=
  match cb with
  | cb_joinRoom r => fun _ => Some (joinRoom_ack r)
  | cb_declare r => fun data => Some (declare_ack fuel r data)
  | cb_proposeAssignment r => fun data => Some (proposeAssignment_ack r data)
  | cb_fullUpdate r => fun data => Some (fullUpdate_ack fuel r data)
  | cb_caller _ => fun _ => None
  end.

(** [operation.result = ...] *)
Definition with_result (res : val) (operation : Operation) : Operation :=
  {| op_path := op_path operation; op_method := op_method operation;
     op_args := op_args operation; op_result := Some res |}.

(** [data.operations.forEach((operation) => { operation.result =
    applyOperation(this, operation) })]: the operations, with their results. *)
Fixpoint operations_forEach (fuel : nat) (r : rid) (ops : list Operation)
  : M (list Operation) :=
  match ops with
  | [] => ret []
  | operation :: rest =>
      res <- applyOperation fuel r operation ;;
      rest' <- operations_forEach fuel r rest ;;
      ret (with_result res operation :: rest')
  end.

Definition _handleOperations (fuel : nat) (r : rid) (data : OperationsData)
  : M unit :=
  R <- this_replicant r ;;
  if negb (bool_decide (status R = declared)) then ret tt
  else
    let expectedRevision := number_add (revision R) 1 in
    if negb (String.eqb (operations_name data) (name R))
       || negb (String.eqb (operations_namespace data) (namespace R))
    then ret tt
    else if negb (operations_revision data =? expectedRevision) then
      _fullUpdate r
    else
      oldValue <- clone_value (value R) ;;
      ops <- operations_forEach fuel r (operations data) ;;
      modify (update_replicant r (with_revision (operations_revision data))) ;;;
      R' <- this_replicant r ;;
      emit r "change"
        [arg_val (value R'); arg_val oldValue; arg_operations ops].

Definition _handleDisconnect (r : rid) : M unit :=
  modify (update_replicant r (fun R => with_queues [] [] (with_status undeclared R))).

(** [on(event, listener)]: a [change] listener added to a declared Replicant
    that has a value is called at once, by [on] itself and again by the
    [newListener] handler the constructor installed. *)
Definition on (r : rid) (event : string) : M unit :=
  R <- this_replicant r ;;
  let replay :=
    if String.eqb event "change" && bool_decide (status R = declared)
       && truthy (value R)
    then modify (fun σ =>
           with_notifications
             (notifications σ
              ++ [called r "change"
                    [arg_val (value R); arg_val (value R); arg_operations []]])
             σ)
    else ret tt in
  replay ;;;
  (if (0 <? count_listeners R "newListener")%nat then replay else ret tt) ;;;
  modify (update_replicant r (fun R =>
    with_listenerCount
      (<[event := S (count_listeners R event)]> (listenerCount R)) R)).

Definition registerSocketOperations (r : rid) (socket : sid) : M unit :=
  modify (fun σ =>
    with_subscriptions
      (subscriptions σ
       ++ map (fun e => {| sub_socket := socket; sub_event := e;
                           sub_replicant := r |})
            ["replicant:assignment"; "replicant:operations"; "disconnect";
             "reconnect"]) σ).

(** The [set] trap of [getReplicantHandler], for [prop === 'value']. *)
Definition replicantHandler_set_value (r : rid) (newValue : val) : M bool :=
  R <- this_replicant r ;;
  if _ignoreProxy R then
    modify (update_replicant r (with_value newValue)) ;;; ret true
  else if strict_equal newValue (value R) then
    (* value unchanged, no action will be taken *)
    ret true
  else
    validate r newValue true ;;;
    R <- this_replicant r ;;
    if negb (bool_decide (status R = declared)) then
      _queueAction r fn_proposeAssignment [newValue] ;;; ret true
    else
      _proposeAssignment r newValue ;;; ret true.

(** The [get] trap of [getReplicantHandler], for [prop === 'value']: it
    warns when the Replicant is not declared, and returns [target[prop]]. *)
Definition replicantHandler_get_value (r : rid) : M val :=
  R <- this_replicant r ;;
  ret (value R).

(** The fields the constructor assigns before it looks at the registry. *)
Definition new_object
  (nm ns : string) (o : ReplicantOptions) (socket : sid) : Replicant :=
  {| name := nm; namespace := ns; value := VUndefined; opts := o;
     revision := 0; status := undeclared; _operationQueue := [];
     _actionQueue := []; _socket := socket; schema := VUndefined;
     schemaSum := EmptyString; validationErrors := []; _validator := None;
     _ignoreProxy := false; listenerCount := ∅ |}.

(** [if (typeof opts.persistent === 'undefined') opts.persistent = true] and
    the same for [persistenceInterval]; [this.opts] is the object of the
    caller, here the copy the Replicant holds. *)
Definition option_defaults (R : Replicant) : Replicant :=
  with_opts
    {| persistent :=
         match persistent (opts R) with
         | None => Some true
         | Some b => Some b
         end;
       persistenceInterval :=
         match persistenceInterval (opts R) with
         | None => Some DEFAULT_PERSISTENCE_INTERVAL
         | Some i => Some i
         end |} R.

(** *** The registry, plain objects used as maps

    [declaredReplicants] and the objects it holds are plain objects
    ([{}]).  A plain object has no own property ['__proto__']: reading that
    key gives its prototype and assigning an object to it replaces the
    prototype.  A finite map stands for such an object: under every other
    key, the own property of that key; under ['__proto__'], the object an
    assignment has made its prototype (no entry: [Object.prototype]
    still). *)

(** [{}.hasOwnProperty.call(o, key)], and [o[key]] when it holds. *)
Definition own_property {A} (o : gmap string A) (key : string) : option A :=
  if String.eqb key "__proto__" then None else o !! key.

(** The prototype an assignment to [o.__proto__] has given [o]. *)
Definition prototype_of {A} (o : gmap string A) : option A :=
  o !! "__proto__".

(** [inner[key] = proxy] on an object of [declaredReplicants], [proxy] being
    the root proxy of a Replicant.  An own property is written; a key that
    is no own property is looked up along the prototypes: when the prototype
    is a root proxy (a Replicant registered under the name ['__proto__']),
    the assignment runs the [set] trap of that proxy, which writes to the
    Replicant object behind it, and that the model does not follow;
    otherwise the lookup ends at [Object.prototype], where ['__proto__'] is
    the accessor that replaces the prototype and any other key makes a new
    own property. *)
Definition assign_instance
  (inner : gmap string rid) (key : string) (proxy : rid)
  : option (gmap string rid) :=
  match own_property inner key, prototype_of inner with
  | None, Some _ => None
  | _, _ => Some (<[key := proxy]> inner)
  end.

(** [declaredReplicants[key] = {}].  The same, one object further: the
    prototype of [declaredReplicants], when an assignment has replaced it,
    is a plain object whose own properties are data properties (they lead
    to a new own property of [declaredReplicants]) and whose prototype may
    be a root proxy. *)
Definition assign_namespace
  (d : gmap string (gmap string rid)) (key : string)
  : option (gmap string (gmap string rid)) :=
  match own_property d key, prototype_of d with
  | None, Some inherited =>
      match own_property inherited key, prototype_of inherited with
      | None, Some _ => None
      | _, _ => Some (<[key := ∅]> d)
      end
  | _, _ => Some (<[key := ∅]> d)
  end.

(** [new Replicant(name, namespace, opts, socket)].  A Replicant object and
    the root proxy the constructor wraps it in go by the same identity. *)
Definition Replicant_constructor
  (nm ns : string) (o : ReplicantOptions) (socket : sid) : M rid :=
  σ <- get_state ;;
  let this := length (replicants σ) in
  modify (with_replicants (replicants σ ++ [new_object nm ns o socket])) ;;;
  let construct : M rid :=
    modify (update_replicant this option_defaults) ;;;
    on this "newListener" ;;;
    _declare this ;;;
    registerSocketOperations this socket ;;;
    (* declaredReplicants[namespace][name] = proxy *)
    σ' <- get_state ;;
    match declaredReplicants σ' !! ns with
    | Some inner =>
        match assign_instance inner nm this with
        | Some inner' =>
            modify (with_declaredReplicants
                      (<[ns := inner']> (declaredReplicants σ'))) ;;;
            ret this
        | None => unmodelled
        end
    | None =>
        (* not reached: the namespace was found or has just been assigned *)
        throw (TypeError "Cannot set properties of undefined")
    end in
  match own_property (declaredReplicants σ) ns with
  | Some inner =>
      match own_property inner nm with
      | Some existing => ret existing
      | None => construct
      end
  | None =>
      match assign_namespace (declaredReplicants σ) ns with
      | Some d => modify (with_declaredReplicants d) ;;; construct
      | None => unmodelled
      end
  end.

(** ** [Manager] *)

Record Manager := { socket : sid; bundleName : string }.

Definition Manager_constructor (s : sid) (bundle : string) : M Manager :=
  socket_emit s "joinRoom" (room bundle) None ;;;
  ret {| socket := s; bundleName := bundle |}.

Definition newReplicant (m : Manager) (nm : string) (o : ReplicantOptions)
  : M rid :=
  Replicant_constructor nm (bundleName m) o (socket m).

End Model.

(** ** A sample library

    A small implementation of [External] for plain, acyclic data, to run the
    model on concrete inputs.  It copies and compares structurally, follows
    paths through own properties, accepts every value for every schema, and
    knows [push] only. *)

Module Sample.

(** The ordinary object a reference denotes, through a proxy. *)
Definition object_at (h : list cell) (l : loc) : option object :=
  match h !! l with
  | Some (Raw o) => Some o
  | Some (ProxyOf t) =>
      match h !! t with
      | Some (Raw o) => Some o
      | _ => None
      end
  | None => None
  end.

Fixpoint copy (fuel : nat) (h : list cell) (v : val) : list cell * val :=
  match fuel, v with
  | S n, VRef l =>
      match object_at h l with
      | Some o =>
          let '(h', ps) :=
            fold_left
              (fun acc kv =>
                 let '(h1, c) := copy n (fst acc) (snd kv) in
                 (h1, (snd acc ++ [(fst kv, c)])%list))
              (props o) (h, []) in
          ((h' ++ [Raw {| isArray := isArray o; props := ps |}])%list,
           VRef (length h'))
      | None => (h, VUndefined)
      end
  | _, _ => (h, v)
  end.

Fixpoint same (fuel : nat) (h : list cell) (a b : val) : bool :=
  match fuel, a, b with
  | S n, VRef la, VRef lb =>
      match object_at h la, object_at h lb with
      | Some oa, Some ob =>
          bool_decide (isArray oa = isArray ob)
          && bool_decide (map fst (props oa) = map fst (props ob))
          && forallb (fun kv =>
                        same n h (snd kv)
                          (default VUndefined (get_prop (props ob) (fst kv))))
               (props oa)
      | _, _ => false
      end
  | _, _, _ => strict_equal a b
  end.

Fixpoint get (h : list cell) (v : val) (pth : list string) : val :=
  match pth with
  | [] => v
  | key :: rest =>
      match v with
      | VRef l =>
          match object_at h l with
          | Some o =>
              match get_prop (props o) key with
              | Some c => get h c rest
              | None => VUndefined
              end
          | None => VUndefined
          end
      | _ => VUndefined
      end
  end.

Definition has (h : list cell) (v : val) (pth : list string) : bool :=
  negb (strict_equal (get h v pth) VUndefined).

(** Writes the member named by the last segment of [pth]; the write throws
    when what the path before it leads to is a value that is no object. *)
Definition set (h : list cell) (v : val) (pth : list string) (x : val)
  : list cell * (Error + val) :=
  match reverse pth with
  | [] => (h, inr v)
  | key :: parent =>
      match get h v (reverse parent) with
      | VRef l =>
          let t := match h !! l with Some (ProxyOf t) => t | _ => l end in
          match h !! t with
          | Some (Raw o) =>
              (<[t := Raw {| isArray := isArray o;
                             props := set_prop (props o) key x |}]> h,
               inr (default VUndefined (get_prop (props o) key)))
          | _ => (h, inr VUndefined)
          end
      | VUndefined => (h, inr VUndefined)
      | _ => (h, inl (TypeError "Cannot create property"))
      end
  end.

Definition index_key (n : nat) : string :=
  NilZero.string_of_uint (Nat.to_uint n).

Definition apply (method : string) (args : list val) (h : list cell) (l : loc)
  : list cell * (Error + val) :=
  match h !! l with
  | Some (Raw o) =>
      if String.eqb method "push" then
        let ps :=
          fold_left
            (fun ps x => (ps ++ [(index_key (length ps), x)])%list)
            args (props o) in
        (<[l := Raw {| isArray := isArray o; props := ps |}]> h,
         inr (VNumber (Z.of_nat (length ps))))
      else (h, inl (TypeError "method outside the sample library"))
  | _ => (h, inl (TypeError "not an array"))
  end.

Definition library : External :=
  {| clone := fun h v => copy (length h) h v;
     equal := fun h a b => same (length h) h a b;
     validator := fun _ _ _ _ => {| result := true; errors := [] |};
     JSON_stringify := fun _ _ => inr "{}";
     objectPath_get := get;
     objectPath_set := set;
     objectPath_has := has;
     array_apply := apply |}.

End Sample.

(** ** States to start from *)

Definition empty_state : state :=
  {| heap := []; metadata := []; metadataMap := ∅; proxyMetadataMap := ∅;
     proxySet := ∅; replicants := []; declaredReplicants := ∅; sent := [];
     subscriptions := []; notifications := [] |}.

(** A Replicant object as the constructor leaves it, in the given status and
    holding the given value and revision. *)
Definition replicant_with
  (nm ns : string) (v : val) (rev : Z) (s : Status) : Replicant :=
  {| name := nm; namespace := ns; value := v;
     opts := {| persistent := Some true;
                persistenceInterval := Some DEFAULT_PERSISTENCE_INTERVAL |};
     revision := rev; status := s; _operationQueue := []; _actionQueue := [];
     _socket := 0%nat; schema := VUndefined; schemaSum := EmptyString;
     validationErrors := []; _validator := None; _ignoreProxy := false;
     listenerCount := {[ "newListener" := 1%nat ]} |}.

(** * The vocabulary of the properties *)

(** ** What a piece of code leaves alone *)

(** Two versions of a Replicant object that differ at most in the
    suppression flag and the recorded validation errors. *)
Definition stable (R R' : Replicant) : Prop :=
  with_validationErrors [] (with_ignoreProxy false R)
  = with_validationErrors [] (with_ignoreProxy false R').

(** The code sent nothing, emitted nothing, registered nothing, and every
    Replicant object is [stable]. *)
Record quiet (σ σ' : state) : Prop := {
  quiet_replicants : Forall2 stable (replicants σ) (replicants σ');
  quiet_declaredReplicants : declaredReplicants σ' = declaredReplicants σ;
  quiet_sent : sent σ' = sent σ;
  quiet_subscriptions : subscriptions σ' = subscriptions σ;
  quiet_notifications : notifications σ' = notifications σ
}.

(** [quiet], and the node metadata is what it was. *)
Record untouched (σ σ' : state) : Prop := {
  untouched_quiet : quiet σ σ';
  untouched_metadata : metadata σ' = metadata σ;
  untouched_metadataMap : metadataMap σ' = metadataMap σ;
  untouched_proxyMetadataMap : proxyMetadataMap σ' = proxyMetadataMap σ;
  untouched_proxySet : proxySet σ' = proxySet σ
}.

(** What wrapping a value for the Replicant [r] may do: it is [quiet], the
    Metadata objects of other Replicants are what they were, and every object
    that had a Metadata object still has that one. *)
Record wraps (r : rid) (σ σ' : state) : Prop := {
  wraps_quiet : quiet σ σ';
  wraps_foreign :
    forall i md, metadata σ !! i = Some md -> replicant md <> r ->
                 metadata σ' !! i = Some md;
  wraps_metadataMap : metadataMap σ ⊆ metadataMap σ'
}.

(** ** Messages, steps and conditions *)

(** A value that is no string: a missing argument ([undefined]) or a value of
    another type. *)
Definition not_a_string (v : val) : Prop := forall s, v <> VString s.

(** A name or namespace [readReplicant] refuses
    ([!name || typeof name !== 'string']): a value that is no string, or the
    empty string. *)
Definition refused (v : val) : Prop :=
  not_a_string v \/ v = VString EmptyString.

(** The one message [readReplicant] sends. *)
Definition read_message (socket : sid) (nm ns : string) (cb : Callback) : Emit :=
  {| emit_socket := socket; emit_event := "replicant:read";
     emit_payload := read_payload (VString nm) (VString ns);
     emit_ack := Some cb |}.

(** The message of [_proposeAssignment]. *)
Definition propose_message (r : rid) (R : Replicant) (newValue : val) : Emit :=
  {| emit_socket := _socket R; emit_event := "replicant:proposeAssignment";
     emit_payload :=
       proposeAssignment_payload (name R) (namespace R) newValue (schemaSum R)
         (opts R);
     emit_ack := Some (cb_proposeAssignment r) |}.

(** [this._actionQueue.push({fn: this._proposeAssignment, args: [newValue]})] *)
Definition queue_assignment (newValue : val) (R : Replicant) : Replicant :=
  with_queues (_operationQueue R)
    (_actionQueue R ++ [{| fn := fn_proposeAssignment; args := [newValue] |}]) R.

(** [if (typeof revision !== 'undefined') this.revision = revision] *)
Definition assign_revision (r : rid) (rev : option Z) (σ : state) : state :=
  match rev with
  | Some n => update_replicant r (with_revision n) σ
  | None => σ
  end.

(** The first line of the message of a validation error. *)
Definition rejection_header (R : Replicant) : string :=
  "Invalid value rejected for replicant " ++ quote ++ name R ++ quote
  ++ " in namespace " ++ quote ++ namespace R ++ quote ++ ":" ++ nl.

(** [declaredReplicants[namespace][name]], when both are own properties. *)
Definition registered (σ : state) (ns nm : string) : option rid :=
  match own_property (declaredReplicants σ) ns with
  | Some inner => own_property inner nm
  | None => None
  end.

(** A name or namespace that a plain object holds as an own property: any
    string but ['__proto__']. *)
Definition ordinary (key : string) : Prop := key <> "__proto__".

(** No object of the registry, and no object [declaredReplicants] inherits
    from, has a root proxy as its prototype: no Replicant was ever
    constructed under the name ['__proto__']. *)
Definition trap_free (σ : state) : Prop :=
  forall key inner,
    declaredReplicants σ !! key = Some inner -> prototype_of inner = None.

(** The Metadata object of an object of the heap, as [assertSingleOwner]
    looks it up: by [proxyMetadataMap] for a proxy, by [metadataMap] for an
    ordinary object. *)
Definition owner_metadata (σ : state) (l : loc) : option Metadata :=
  if decide (l ∈ proxySet σ) then metadata_at σ (proxyMetadataMap σ !! l)
  else metadata_at σ (metadataMap σ !! l).


(** A value that is no object. *)
Definition primitive (v : val) : Prop :=
  match v with
  | VRef _ => False
  | _ => True
  end.

(** The body of the [for ... in] loop of [proxyRecursive]. *)
Definition wrap_member {ext : External} (fuel : nat) (r : rid) (l : loc) (pth : string)
  (key : string) : M unit :=
  bind get_state (fun σ2 =>
    if negb (hasOwn σ2 l key) then ret tt
    else
      bind (proxyRecursive fuel r (get_member σ2 l key)
              (if negb (String.eqb pth EmptyString)
               then joinPathParts pth (JS.replace_slash key)
               else JS.replace_slash key))
        (fun child => set_member l key child)).

(** The operations of a batch applied one after the other, in array order,
    none of them throwing; each operation comes out with its result. *)
Inductive applied_in_order {ext : External} (fuel : nat) (r : rid)
  : list Operation -> state -> state -> list Operation -> Prop :=
| applied_none (σ : state) : applied_in_order fuel r [] σ σ []
| applied_next operation rest σ σ1 σ2 res rest' :
    applyOperation fuel r operation σ = (σ1, Return res) ->
    applied_in_order fuel r rest σ1 σ2 rest' ->
    applied_in_order fuel r (operation :: rest) σ σ2
      (with_result res operation :: rest').

(** A string that holds no escape ['~1']. *)
Fixpoint plain (s : string) : bool :=
  match s with
  | EmptyString => true
  | String a t =>
      match t with
      | String b _ => negb (Ascii.eqb a "~" && Ascii.eqb b "1") && plain t
      | EmptyString => true
      end
  end.

(** ** Sample states and inputs *)

(** A declared Replicant that holds no value yet, alone in the process. *)
Definition undefined_replicant_state : state :=
  with_replicants [replicant_with "score" "bundle" VUndefined 0 declared]
    empty_state.

(** [push(4)] on the root. *)
Definition push_operation : Operation :=
  {| op_path := "/"; op_method := "push"; op_args := ArgList [VNumber 4];
     op_result := None |}.

(** The value [{items: [1, 2, 3]}], wrapped for the Replicant object 0 at
    revision 5: the objects at 0 and 1, their proxies at 2 and 3. *)
Definition items_state : state :=
  {| heap :=
       [Raw {| isArray := false; props := [("items", VRef 3%nat)] |};
        Raw {| isArray := true;
               props := [("0", VNumber 1); ("1", VNumber 2); ("2", VNumber 3)] |};
        ProxyOf 0%nat; ProxyOf 1%nat];
     metadata :=
       [{| replicant := 0%nat; path := "/"; proxy := 2%nat |};
        {| replicant := 0%nat; path := "/items"; proxy := 3%nat |}];
     metadataMap := {[ 0%nat := 0%nat; 1%nat := 1%nat ]};
     proxyMetadataMap := {[ 2%nat := 0%nat; 3%nat := 1%nat ]};
     proxySet := {[ 2%nat; 3%nat ]};
     replicants := [replicant_with "score" "bundle" (VRef 2%nat) 5 declared];
     declaredReplicants := ∅; sent := []; subscriptions := [];
     notifications := [] |}.

(** A [replicant:operations] message for the Replicant [score] of [bundle]. *)
Definition batch (rev : Z) (ops : list Operation) : OperationsData :=
  {| operations_name := "score"; operations_namespace := "bundle";
     operations_revision := rev; operations := ops |}.

(** [push(4)] on the array at [/items]. *)
Definition push_items : Operation :=
  {| op_path := "/items"; op_method := "push"; op_args := ArgList [VNumber 4];
     op_result := None |}.

(** [push(5)] on the array at [/items]. *)
Definition push_five : Operation :=
  {| op_path := "/items"; op_method := "push"; op_args := ArgList [VNumber 5];
     op_result := None |}.

(** An operation whose method is none of the protocol. *)
Definition bogus_operation : Operation :=
  {| op_path := "/items"; op_method := "bogus"; op_args := ArgList [];
     op_result := None |}.

(** A declared Replicant whose name is the empty string. *)
Definition unnamed_replicant_state : state :=
  with_replicants [replicant_with EmptyString "bundle" VUndefined 0 declared]
    empty_state.

(** The wrapped [{items: [1, 2, 3]}] of the Replicant object 0, and a second
    declared Replicant, object 1, that holds no value yet. *)
Definition two_replicants_state : state :=
  with_replicants
    [replicant_with "score" "bundle" (VRef 2%nat) 5 declared;
     replicant_with "other" "bundle" VUndefined 0 declared]
    items_state.

(** [items_state] at revision 2^53, the first integer whose successor is no
    JavaScript number. *)
Definition saturated_state : state :=
  update_replicant 0%nat (with_revision (2 ^ 53)) items_state.

(** A schema that wants [count] to be a number and [label] to be present,
    as is-my-json-valid reports a value [{count: 'x'}]: two errors. *)
Definition count_error : ValidationError :=
  {| error_field := "data.count"; error_message := "is the wrong type";
     error_value := TString "x"; error_type := "number" |}.

(** The second error of that report. *)
Definition label_error : ValidationError :=
  {| error_field := "data.label"; error_message := "is required";
     error_value := TUndefined; error_type := "string" |}.

(** The compiled validator of that schema, on that value. *)
Definition rejecting : Validator :=
  fun _ _ => {| result := false; errors := [count_error; label_error] |}.

(** [items_state] with that validator compiled. *)
Definition validated_state : state :=
  update_replicant 0%nat (with_validator (Some rejecting)) items_state.

(** The state [validated_state] is left in by a batch at the next revision
    whose operation has an unknown method: [applyOperation] throws after
    it set the suppression flag, which stays set. *)
Definition suppressed_state : state :=
  fst (@_handleOperations Sample.library 2 0%nat (batch 6 [bogus_operation])
         validated_state).

(** The process after its first [new Replicant('score', 'bundle', {}, 0)]. *)
Definition one_replicant_state : state :=
  fst (Replicant_constructor "score" "bundle"
         {| persistent := None; persistenceInterval := None |} 0%nat
         empty_state).


(** The acknowledgement of a declaration when the server holds no value. *)
Definition empty_declare_ack : DeclareAck :=
  {| declare_value := VUndefined; declare_revision := 0;
     declare_schema := VUndefined; declare_schemaSum := EmptyString;
     declare_rejectReason := None |}.

(** ** More conditions, messages and sample inputs *)

(** A string that holds no ['/']: one segment of a path. *)
Fixpoint slashless (s : string) : bool :=
  match s with
  | EmptyString => true
  | String a t => negb (Ascii.eqb a "/") && slashless t
  end.

(** A property key that can stand as one segment of a path array and come
    back: it holds no ['/'] and no escape ['~1']. *)
Definition segment (s : string) : Prop := slashless s = true /\ plain s = true.

(** An object whose members are all primitive values. *)
Definition flat (o : object) : Prop :=
  Forall (fun kv => primitive (snd kv)) (props o).

(** [metadata.path = pth] on the Metadata object [i], as a change of state. *)
Definition with_path (i : nat) (pth : string) (σ : state) : state :=
  with_metadata
    (alter (fun md => {| replicant := replicant md; path := pth;
                         proxy := proxy md |}) i (metadata σ)) σ.

(** A declared Replicant without a value, and an object [{home: 1, away: 2}]
    that nothing has wrapped yet. *)
Definition flat_object_state : state :=
  with_heap
    [Raw {| isArray := false;
            props := [("home", VNumber 1); ("away", VNumber 2)] |}]
    undefined_replicant_state.

(** Two versions of a Replicant object that differ at most in the recorded
    validation errors. *)
Definition settled (R R' : Replicant) : Prop :=
  with_validationErrors [] R = with_validationErrors [] R'.

(** Every Replicant object is what it was, but for its recorded validation
    errors. *)
Definition replicants_kept (σ σ' : state) : Prop :=
  Forall2 settled (replicants σ) (replicants σ').

(** The methods [applyOperation] knows. *)
Definition known_method (m : string) : bool :=
  is_array_mutator m || String.eqb m "add" || String.eqb m "update"
  || String.eqb m "delete".

(** [update] of the member [0] of the array at [/items] to 9. *)
Definition update_first : Operation :=
  {| op_path := "/items"; op_method := "update";
     op_args := ArgObject "0" (VNumber 9); op_result := None |}.

(** [update] of the member [count] of the root to 9. *)
Definition update_count : Operation :=
  {| op_path := "/"; op_method := "update";
     op_args := ArgObject "count" (VNumber 9); op_result := None |}.

(** A declared Replicant whose value is the number 7, at revision 5. *)
Definition number_state : state :=
  with_replicants [replicant_with "score" "bundle" (VNumber 7) 5 declared]
    empty_state.

(** [delete] of a member of an object that is not there. *)
Definition delete_absent : Operation :=
  {| op_path := "/teams"; op_method := "delete";
     op_args := ArgObject "home" VUndefined; op_result := None |}.

(** What the compiled validator of a Replicant says of a value; a Replicant
    without a validator accepts every value. *)
Definition verdict (R : Replicant) (h : list cell) (v : val) : bool :=
  match _validator R with
  | Some check => result (check h v)
  | None => true
  end.

(** The message that flushes one queued action. *)
Definition flush_message (r : rid) (R : Replicant) (item : Action) : Emit :=
  propose_message r R (default VUndefined (head (args item))).

(** The acknowledgement of a declaration the server refuses. *)
Definition refusing_declare_ack : DeclareAck :=
  {| declare_value := VUndefined; declare_revision := 0;
     declare_schema := VUndefined; declare_schemaSum := EmptyString;
     declare_rejectReason := Some "no such bundle" |}.

(** The acknowledgement of a declaration when the server holds the value 7
    at revision 3. *)
Definition seven_declare_ack : DeclareAck :=
  {| declare_value := VNumber 7; declare_revision := 3;
     declare_schema := VUndefined; declare_schemaSum := EmptyString;
     declare_rejectReason := None |}.

(** [one_replicant_state] after two assignments to [.value], made before
    the declaration is acknowledged. *)
Definition two_queued_state : state :=
  fst (replicantHandler_set_value 0%nat (VNumber 2)
         (fst (replicantHandler_set_value 0%nat (VNumber 1)
                 one_replicant_state))).

(** [this.schema = data.schema; this.schemaSum = data.schemaSum], when the
    acknowledgement carries a schema. *)
Definition with_proposed_schema (r : rid) (data : ProposeAck) (σ : state)
  : state :=
  if truthy (propose_schema data)
  then update_replicant r
         (with_schema (propose_schema data) (propose_schemaSum data)) σ
  else σ.

(** The message of [_declare]. *)
Definition joinRoom_message (r : rid) (R : Replicant) : Emit :=
  {| emit_socket := _socket R; emit_event := "joinRoom";
     emit_payload := room ("replicant:" ++ namespace R);
     emit_ack := Some (cb_joinRoom r) |}.

(** One more listener of [event]. *)
Definition listening (event : string) (R : Replicant) : Replicant :=
  with_listenerCount
    (<[event := S (count_listeners R event)]> (listenerCount R)) R.

(** The call [on] makes of a [change] listener it replays. *)
Definition replayed (r : rid) (R : Replicant) : Notification :=
  called r "change" [arg_val (value R); arg_val (value R); arg_operations []].

(** An acknowledgement that refuses an assignment and carries a schema. *)
Definition refusing_propose_ack : ProposeAck :=
  {| propose_schema := VString "schema"; propose_schemaSum := "abc";
     propose_rejectReason := Some "not a number" |}.

(** A [replicant:assignment] message for the Replicant [score] of [bundle]
    that carries no revision. *)
Definition assignment_of (v : val) : AssignmentData :=
  {| assignment_name := "score"; assignment_namespace := "bundle";
     assignment_newValue := v; assignment_revision := None |}.

(** The Replicant object a completed construction leaves: the options
    defaulted, one [newListener] handler installed, the declaration under
    way. *)
Definition constructed_object
  (nm ns : string) (o : ReplicantOptions) (socket : sid) : Replicant :=
  with_status declaring
    (listening "newListener" (option_defaults (new_object nm ns o socket))).

(** The four handlers [registerSocketOperations] installs. *)
Definition socket_handlers (r : rid) (socket : sid) : list Subscription :=
  map (fun e => {| sub_socket := socket; sub_event := e; sub_replicant := r |})
    ["replicant:assignment"; "replicant:operations"; "disconnect"; "reconnect"].

(** The state a construction for a pair that is not registered leaves. *)
Definition constructed
  (nm ns : string) (o : ReplicantOptions) (socket : sid) (σ : state) : state :=
  let this := length (replicants σ) in
  with_declaredReplicants
    (<[ns := <[nm := this]> (default ∅ (declaredReplicants σ !! ns))]>
       (declaredReplicants σ))
    (with_subscriptions (subscriptions σ ++ socket_handlers this socket)
       (with_sent
          (sent σ ++ [joinRoom_message this (new_object nm ns o socket)])
          (with_replicants
             (replicants σ ++ [constructed_object nm ns o socket]) σ))).


(** ** Plain data and what wrapping makes of it *)

(** The path [proxyRecursive] gives the member [key] of a node at [pth]. *)
Definition child_path (pth key : string) : string :=
  if negb (String.eqb pth EmptyString)
  then joinPathParts pth (JS.replace_slash key)
  else JS.replace_slash key.

(** Nothing has wrapped the object at [l] yet. *)
Definition unwrapped (σ : state) (l : loc) : Prop :=
  (l ∉ proxySet σ) /\ metadataMap σ !! l = None.

(** A declared Replicant without a value, and the objects
    [{name: 'x', 'home/away': {goals: 1}}] at 1 and [{goals: 1}] at 0, which
    nothing has wrapped yet. *)
Definition nested_object_state : state :=
  with_heap
    [Raw {| isArray := false; props := [("goals", VNumber 1)] |};
     Raw {| isArray := false;
            props := [("name", VString "x"); ("home/away", VRef 0%nat)] |}]
    undefined_replicant_state.

(** Plain data nothing has wrapped yet: a primitive, or an unwrapped
    ordinary object whose members are such data, no object being reached
    twice.  The number bounds the depth of nesting, the list holds the
    objects of the data. *)
Inductive fresh_tree (σ : state) : nat -> val -> list loc -> Prop :=
| fresh_leaf (n : nat) (v : val) :
    primitive v -> fresh_tree σ n v []
| fresh_node (n : nat) (l : loc) (o : object) (Fs : list (list loc)) :
    heap σ !! l = Some (Raw o) ->
    unwrapped σ l ->
    NoDup (map fst (props o)) ->
    Forall2 (fun kv F => fresh_tree σ n (snd kv) F) (props o) Fs ->
    NoDup (l :: concat Fs) ->
    fresh_tree σ (S n) (VRef l) (l :: concat Fs).

(** What wrapping makes of a value of [σ], seen in [σ']: a primitive is
    itself; an object has a proxy that did not exist in [σ], registered in
    the three collections with a Metadata object that names the Replicant
    and the path, and each of its members is what wrapping makes of the
    member it had, under the path of the member. *)
Inductive wrapped_tree (r : rid) (σ σ' : state) : val -> val -> string -> Prop :=
| wrapped_leaf (v : val) (pth : string) :
    primitive v -> wrapped_tree r σ σ' v v pth
| wrapped_node (l : loc) (o o' : object) (q : loc) (i : nat) (pth : string) :
    heap σ !! l = Some (Raw o) ->
    heap σ' !! l = Some (Raw o') ->
    isArray o' = isArray o ->
    (length (heap σ) <= q)%nat ->
    heap σ' !! q = Some (ProxyOf l) ->
    q ∈ proxySet σ' ->
    metadataMap σ' !! l = Some i ->
    proxyMetadataMap σ' !! q = Some i ->
    metadata σ' !! i = Some {| replicant := r; path := pth; proxy := q |} ->
    Forall2 (fun kv kv' =>
               fst kv' = fst kv
               /\ wrapped_tree r σ σ' (snd kv) (snd kv')
                    (child_path pth (fst kv)))
      (props o) (props o') ->
    wrapped_tree r σ σ' (VRef l) (VRef q) pth.

(** What wrapping the objects [H] may change: the heap grows, and of the
    objects that were there only those of [H] change; Metadata objects are
    added; only the objects of [H] get an entry in [metadataMap]; the
    entries of the objects that were there in [proxyMetadataMap] and
    [proxySet] stay; no Replicant object changes. *)
Record grown (H : list loc) (σ σ' : state) : Prop := {
  grown_length : (length (heap σ) <= length (heap σ'))%nat;
  grown_heap :
    forall k, (k < length (heap σ))%nat -> k ∉ H -> heap σ' !! k = heap σ !! k;
  grown_metadata :
    forall i md, metadata σ !! i = Some md -> metadata σ' !! i = Some md;
  grown_metadataMap :
    forall k, k ∉ H -> metadataMap σ' !! k = metadataMap σ !! k;
  grown_proxyMetadataMap :
    forall k, (k < length (heap σ))%nat ->
              proxyMetadataMap σ' !! k = proxyMetadataMap σ !! k;
  grown_proxySet :
    forall k, (k < length (heap σ))%nat -> k ∈ proxySet σ' <-> k ∈ proxySet σ;
  grown_replicants : replicants σ' = replicants σ
}.





(** * Properties *)

(** ** Reading a Replicant ([readReplicant]) *)

Lemma readReplicant_bad_name socket nm ns cb σ :
  refused nm ->
  readReplicant socket nm ns cb σ
  = (σ, Throw (Err "Must supply a name when reading a Replicant")).
Proof.
  intros [Hnm | ->]; unfold readReplicant; [| reflexivity].
  destruct nm as [| | b | n | s | l]; try reflexivity.
  - destruct b; reflexivity.
  - simpl. destruct (n =? 0); reflexivity.
  - exfalso. exact (Hnm s eq_refl).
Qed.

Lemma nonempty_truthy (s : string) : s <> EmptyString -> truthy (VString s) = true.
Proof.
  intros Hs. simpl. destruct (String.eqb_spec s EmptyString); [contradiction | reflexivity].
Qed.

Lemma readReplicant_bad_namespace socket nm ns cb σ :
  nm <> EmptyString ->
  refused ns ->
  readReplicant socket (VString nm) ns cb σ
  = (σ, Throw (Err "Must supply a namespace when reading a Replicant")).
Proof.
  intros Hnm Hns. unfold readReplicant.
  rewrite (nonempty_truthy nm Hnm). cbn [typeof String.eqb negb orb].
  replace (String.eqb "string" "string") with true by reflexivity.
  cbn [negb orb].
  destruct Hns as [Hns | ->]; [| reflexivity].
  destruct ns as [| | b | n | s | l]; try reflexivity.
  - destruct b; reflexivity.
  - simpl. destruct (n =? 0); reflexivity.
  - exfalso. exact (Hns s eq_refl).
Qed.

Lemma refused_or_named (v : val) :
  refused v \/ exists s, v = VString s /\ s <> EmptyString.
Proof.
  destruct v as [| | b | n | s | l];
    try (left; left; intros s'; discriminate).
  destruct (decide (s = EmptyString)) as [-> | Hs].
  - left. right. reflexivity.
  - right. exists s. split; [reflexivity | exact Hs].
Qed.

Lemma readReplicant_sends socket nm ns cb σ :
  nm <> EmptyString -> ns <> EmptyString ->
  readReplicant socket (VString nm) (VString ns) cb σ
  = (with_sent (sent σ ++ [read_message socket nm ns cb]) σ, Return tt).
Proof.
  intros Hnm Hns. unfold readReplicant.
  rewrite (nonempty_truthy nm Hnm), (nonempty_truthy ns Hns). reflexivity.
Qed.

(** C9.  A call of [readReplicant] whose name or namespace is missing
    ([undefined]), is not a string, or is the empty string throws, and the
    state, with the list of messages sent, is what it was: nothing went to
    the network.  The error is that of the name when the name is refused,
    whatever the namespace is, and that of the namespace otherwise.  When
    both are non-empty strings the call returns and has sent exactly one
    [replicant:read] message, carrying the name, the namespace and the
    callback. *)
Theorem readReplicant_validates_before_sending
  (socket : sid) (nm ns : val) (cb : Callback) (σ : state) :
  (refused nm \/ refused ns ->
   exists message,
     readReplicant socket nm ns cb σ = (σ, Throw (Err message)))
  /\ (refused nm ->
      readReplicant socket nm ns cb σ
      = (σ, Throw (Err "Must supply a name when reading a Replicant")))
  /\ (forall n,
        nm = VString n -> n <> EmptyString -> refused ns ->
        readReplicant socket nm ns cb σ
        = (σ, Throw (Err "Must supply a namespace when reading a Replicant")))
  /\ (forall n m,
        nm = VString n -> ns = VString m ->
        n <> EmptyString -> m <> EmptyString ->
        readReplicant socket nm ns cb σ
        = (with_sent (sent σ ++ [read_message socket n m cb]) σ, Return tt)).
Proof.
  split; [| split; [| split]].
  - intros [Hnm | Hns].
    + eexists. apply readReplicant_bad_name. exact Hnm.
    + destruct (refused_or_named nm) as [Hnm | (n & -> & Hn)].
      * eexists. apply readReplicant_bad_name. exact Hnm.
      * eexists. apply readReplicant_bad_namespace; assumption.
  - apply readReplicant_bad_name.
  - intros n -> Hn Hns. apply readReplicant_bad_namespace; assumption.
  - intros n m -> -> Hn Hm. apply readReplicant_sends; assumption.
Qed.

Lemma readReplicant_validates_before_sending_witness :
  (exists message,
     readReplicant 0%nat VUndefined (VString "bundle") (cb_caller 0) empty_state
     = (empty_state, Throw (Err message)))
  /\ readReplicant 0%nat (VString EmptyString) (VString "bundle") (cb_caller 0)
       empty_state
     = (empty_state, Throw (Err "Must supply a name when reading a Replicant"))
  /\ readReplicant 0%nat (VString "score") (VString EmptyString) (cb_caller 0)
       empty_state
     = (empty_state,
        Throw (Err "Must supply a namespace when reading a Replicant"))
  /\ readReplicant 0%nat (VString "score") (VString "bundle") (cb_caller 0)
       empty_state
     = (with_sent [read_message 0%nat "score" "bundle" (cb_caller 0)]
          empty_state, Return tt).
Proof.
  split; [| split; [| split]].
  - apply (proj1 (readReplicant_validates_before_sending
                    0%nat VUndefined (VString "bundle") (cb_caller 0)
                    empty_state)).
    left. left. intros s. discriminate.
  - apply (proj1 (proj2 (readReplicant_validates_before_sending
                           0%nat (VString EmptyString) (VString "bundle")
                           (cb_caller 0) empty_state))).
    right. reflexivity.
  - apply (proj1 (proj2 (proj2 (readReplicant_validates_before_sending
                                  0%nat (VString "score") (VString EmptyString)
                                  (cb_caller 0) empty_state))) "score");
      [reflexivity | discriminate | right; reflexivity].
  - apply (proj2 (proj2 (proj2 (readReplicant_validates_before_sending
                                  0%nat (VString "score") (VString "bundle")
                                  (cb_caller 0) empty_state))) "score" "bundle");
      [reflexivity | reflexivity | discriminate | discriminate].
Defined.

(** ** The guard of [applyOperation] *)

Section ApplyOperationGuard.
Context {ext : External}.

(** C10.  When the value of the Replicant is falsy ([undefined], [null],
    [false], [0] or the empty string), [applyOperation] throws its error
    ('applyOperation called with Replicant with undefined value') and the
    state after the call is the state before it: the suppression flag was
    not set, no mutation was applied, value and revision are untouched. *)
Theorem applyOperation_undefined_value
  (fuel : nat) (r : rid) (operation : Operation) (σ : state) (R : Replicant) :
  replicants σ !! r = Some R ->
  truthy (value R) = false ->
  applyOperation fuel r operation σ
  = (σ, Throw (Err "applyOperation called with Replicant with undefined value")).
Proof.
  intros HR Hfalsy.
  unfold applyOperation, bind, this_replicant.
  rewrite HR, Hfalsy. reflexivity.
Qed.

End ApplyOperationGuard.

Lemma applyOperation_undefined_value_witness :
  @applyOperation Sample.library 1 0%nat push_operation undefined_replicant_state
  = (undefined_replicant_state,
     Throw (Err "applyOperation called with Replicant with undefined value")).
Proof.
  apply (@applyOperation_undefined_value Sample.library 1 0%nat push_operation
           undefined_replicant_state
           (replicant_with "score" "bundle" VUndefined 0 declared));
    reflexivity.
Defined.

(** ** Declaring ([_declare]) *)

(** C7.  [_declare] on a Replicant whose status is [declaring] or [declared]
    returns at once: the state is unchanged, so no message is sent and no
    field of the Replicant changes. *)
Theorem _declare_idempotent (r : rid) (σ : state) (R : Replicant) :
  replicants σ !! r = Some R ->
  status R = declaring \/ status R = declared ->
  _declare r σ = (σ, Return tt).
Proof.
  intros HR Hstatus.
  unfold _declare, bind, this_replicant. rewrite HR.
  destruct Hstatus as [-> | ->]; reflexivity.
Qed.

Lemma _declare_idempotent_witness :
  _declare 0%nat undefined_replicant_state
  = (undefined_replicant_state, Return tt).
Proof.
  apply (_declare_idempotent 0%nat undefined_replicant_state
           (replicant_with "score" "bundle" VUndefined 0 declared)).
  - reflexivity.
  - right. reflexivity.
Defined.

(** From [undeclared], [_declare] moves to [declaring] and asks to join the
    room of the namespace. *)
Lemma _declare_undeclared (r : rid) (σ : state) (R : Replicant) :
  replicants σ !! r = Some R ->
  status R = undeclared ->
  _declare r σ
  = (with_sent
       (sent σ ++ [{| emit_socket := _socket R; emit_event := "joinRoom";
                      emit_payload := room ("replicant:" ++ namespace R);
                      emit_ack := Some (cb_joinRoom r) |}])
       (update_replicant r (with_status declaring) σ),
     Return tt).
Proof.
  intros HR Hstatus.
  unfold _declare, bind, this_replicant. rewrite HR, Hstatus. reflexivity.
Qed.

(** ** What a piece of code leaves alone *)

#[global] Instance stable_equivalence : Equivalence stable.
Proof.
  unfold stable. split.
  - intros R. reflexivity.
  - intros R R' H. symmetry. exact H.
  - intros R R' R'' H H'. etransitivity; eassumption.
Qed.

Lemma stable_with_ignoreProxy (b : bool) (R : Replicant) :
  stable R (with_ignoreProxy b R).
Proof. reflexivity. Qed.

Lemma stable_with_validationErrors (e : list ValidationError) (R : Replicant) :
  stable R (with_validationErrors e R).
Proof. reflexivity. Qed.

Lemma stable_fields (R R' : Replicant) :
  stable R R' ->
  name R' = name R /\ namespace R' = namespace R /\ value R' = value R
  /\ revision R' = revision R /\ status R' = status R
  /\ _actionQueue R' = _actionQueue R /\ _socket R' = _socket R
  /\ opts R' = opts R /\ schemaSum R' = schemaSum R.
Proof.
  unfold stable. intros H.
  repeat split.
  - exact (eq_sym (f_equal name H)).
  - exact (eq_sym (f_equal namespace H)).
  - exact (eq_sym (f_equal value H)).
  - exact (eq_sym (f_equal revision H)).
  - exact (eq_sym (f_equal status H)).
  - exact (eq_sym (f_equal _actionQueue H)).
  - exact (eq_sym (f_equal _socket H)).
  - exact (eq_sym (f_equal opts H)).
  - exact (eq_sym (f_equal schemaSum H)).
Qed.

#[global] Instance quiet_preorder : PreOrder quiet.
Proof.
  split.
  - intros σ. split; reflexivity.
  - intros σ1 σ2 σ3 [] []. split; try congruence.
    etransitivity; eassumption.
Qed.

#[global] Instance untouched_preorder : PreOrder untouched.
Proof.
  split.
  - intros σ. split; reflexivity.
  - intros σ1 σ2 σ3 [] []. split; try congruence.
    etransitivity; eassumption.
Qed.

#[global] Instance wraps_preorder (r : rid) : PreOrder (wraps r).
Proof.
  split.
  - intros σ. split; [reflexivity | auto | reflexivity].
  - intros σ1 σ2 σ3 [] []. split.
    + etransitivity; eassumption.
    + auto.
    + etransitivity; eassumption.
Qed.

Lemma untouched_wraps (r : rid) (σ σ' : state) : untouched σ σ' -> wraps r σ σ'.
Proof.
  intros [Hq Hm Hmm _ _]. split.
  - assumption.
  - intros i md Hi _. rewrite Hm. exact Hi.
  - rewrite Hmm. reflexivity.
Qed.

Lemma untouched_with_heap (h : list cell) (σ : state) :
  untouched σ (with_heap h σ).
Proof. repeat split; reflexivity. Qed.

Lemma untouched_update_replicant (r : rid) (f : Replicant -> Replicant) (σ : state) :
  (forall R, stable R (f R)) -> untouched σ (update_replicant r f σ).
Proof.
  intros Hf. repeat split; try reflexivity. simpl.
  apply Forall2_alter_r; [reflexivity |].
  intros R R' _ _ HR. etransitivity; [exact HR | apply Hf].
Qed.

Lemma raw_set_untouched (l : loc) (prop : string) (v : val) (σ : state) :
  untouched σ (raw_set l prop v σ).
Proof.
  unfold raw_set. destruct (heap σ !! l) as [[o | t] |];
    try reflexivity. apply untouched_with_heap.
Qed.

Lemma raw_delete_untouched (l : loc) (prop : string) (σ : state) :
  untouched σ (raw_delete l prop σ).
Proof.
  unfold raw_delete. destruct (heap σ !! l) as [[o | t] |];
    try reflexivity. apply untouched_with_heap.
Qed.

(** *** Relations along a computation *)

Section Along.
Context (P : state -> state -> Prop) `{!PreOrder P}.

Lemma along_bind {A B} (m : M A) (k : A -> M B) (σ : state) :
  P σ (fst (m σ)) ->
  (forall σ1 a, m σ = (σ1, Return a) -> P σ1 (fst (k a σ1))) ->
  P σ (fst (bind m k σ)).
Proof.
  intros Hm Hk. unfold bind.
  destruct (m σ) as [σ1 [a | e | |]] eqn:E; simpl in *.
  - etransitivity; [exact Hm | apply Hk; reflexivity].
  - exact Hm.
  - exact Hm.
  - exact Hm.
Qed.

Lemma along_forEach {A} (f : A -> M unit) (l : list A) :
  (forall a σ, P σ (fst (f a σ))) ->
  forall σ, P σ (fst (forEach f l σ)).
Proof.
  intros Hf. induction l as [| a l IH]; intros σ; simpl.
  - reflexivity.
  - apply along_bind; [apply Hf | intros; apply IH].
Qed.

End Along.

Create HintDb frames.

Ltac along_step P :=
  lazymatch goal with
  | |- _ _ (fst (bind get_state _ _)) =>
      apply (along_bind P);
      [reflexivity
      | let H := fresh in
        intros ? ? H; unfold get_state in H; injection H as <- <-]
  | |- _ _ (fst (bind _ _ _)) => apply (along_bind P); [| intros ? ? ?]
  | |- _ _ (fst (ret _ _)) => reflexivity
  | |- _ _ (fst (throw _ _)) => reflexivity
  | |- _ _ (fst (_addOperation _ _)) => reflexivity
  | |- _ _ (fst (modify _ _)) => unfold modify; cbn [fst]
  | |- _ _ (fst (_, _)) => cbn [fst]
  | |- _ _ (fst ((if ?c then _ else _) _)) => destruct c
  | |- _ _ (fst ((match ?c with _ => _ end) _)) => destruct c
  end.

(** Follows the code, closing each call with a lemma of the [frames] base. *)
Ltac along P :=
  repeat first [ solve [auto with frames] | progress along_step P ].

Section Frames.
Context {ext : External}.

Lemma this_replicant_untouched (r : rid) (σ : state) :
  untouched σ (fst (this_replicant r σ)).
Proof. unfold this_replicant. destruct (replicants σ !! r); reflexivity. Qed.

Lemma this_replicant_inv (r : rid) (σ σ1 : state) (R : Replicant) :
  this_replicant r σ = (σ1, Return R) -> σ1 = σ /\ replicants σ !! r = Some R.
Proof.
  unfold this_replicant. destruct (replicants σ !! r); intros [= <- <-].
  auto.
Qed.

Lemma update_flags_untouched (r : rid) (σ : state) :
  (forall b, untouched σ (update_replicant r (with_ignoreProxy b) σ))
  /\ (forall e, untouched σ (update_replicant r (with_validationErrors e) σ)).
Proof.
  split; intros; apply untouched_update_replicant; intros R; reflexivity.
Qed.

Hint Resolve this_replicant_untouched untouched_with_heap raw_set_untouched
  raw_delete_untouched : frames.
Hint Extern 1 (untouched _ (update_replicant _ (with_ignoreProxy _) _)) =>
  apply update_flags_untouched : frames.
Hint Extern 1 (untouched _ (update_replicant _ (with_validationErrors _) _)) =>
  apply update_flags_untouched : frames.
Hint Extern 1 (untouched ?σ ?σ) => reflexivity : frames.

Lemma validate_untouched (r : rid) (v : val) (t : bool) (σ : state) :
  untouched σ (fst (validate r v t σ)).
Proof. unfold validate. along untouched. Qed.

Lemma clone_target_untouched (R : Replicant) (md : Metadata) (σ : state) :
  untouched σ (fst (clone_target R md σ)).
Proof.
  unfold clone_target. destruct (clone (heap σ) (value R)).
  apply untouched_with_heap.
Qed.

Lemma clone_value_untouched (v : val) (σ : state) :
  untouched σ (fst (clone_value v σ)).
Proof.
  unfold clone_value. destruct (clone (heap σ) v). apply untouched_with_heap.
Qed.

Hint Resolve validate_untouched clone_target_untouched clone_value_untouched
  : frames.

Lemma clone_assign_untouched (c : val) (prop : string) (v : val) (σ : state) :
  untouched σ (fst (clone_assign c prop v σ)).
Proof. unfold clone_assign. along untouched. Qed.

Lemma clone_delete_untouched (c : val) (prop : string) (σ : state) :
  untouched σ (fst (clone_delete c prop σ)).
Proof. unfold clone_delete. along untouched. Qed.

Lemma raw_apply_untouched (l : loc) (m : string) (a : list val) (σ : state) :
  untouched σ (fst (raw_apply l m a σ)).
Proof.
  unfold raw_apply.
  destruct (raw_isArray σ l && negb (raw_hasOwn σ l m)); [| reflexivity].
  destruct (array_apply m a (heap σ) l) as [h [e | v]];
    apply untouched_with_heap.
Qed.

Hint Resolve clone_assign_untouched clone_delete_untouched raw_apply_untouched
  : frames.

Lemma clone_apply_untouched (c : val) (m : string) (a : list val) (σ : state) :
  untouched σ (fst (clone_apply c m a σ)).
Proof. unfold clone_apply. along untouched. Qed.

Hint Resolve clone_apply_untouched : frames.

Lemma childHandler_set_untouched (t : loc) (prop : string) (v : val) (σ : state) :
  untouched σ (fst (childHandler_set t prop v σ)).
Proof. unfold childHandler_set. along untouched. Qed.

Lemma deleteTrap_untouched (t : loc) (prop : string) (σ : state) :
  untouched σ (fst (deleteTrap t prop σ)).
Proof. unfold deleteTrap. along untouched. Qed.

Lemma childArrayHandler_call_untouched
  (t : loc) (m : string) (a : list val) (σ : state) :
  untouched σ (fst (childArrayHandler_call t m a σ)).
Proof. unfold childArrayHandler_call. along untouched. Qed.

Hint Resolve childHandler_set_untouched deleteTrap_untouched
  childArrayHandler_call_untouched : frames.

Lemma set_member_untouched (l : loc) (key : string) (v : val) (σ : state) :
  untouched σ (fst (set_member l key v σ)).
Proof. unfold set_member. along untouched. Qed.

Lemma delete_member_untouched (t : val) (prop : string) (σ : state) :
  untouched σ (fst (delete_member t prop σ)).
Proof. unfold delete_member. along untouched. Qed.

Lemma call_method_untouched (arr : val) (m : string) (a : list val) (σ : state) :
  untouched σ (fst (call_method arr m a σ)).
Proof. unfold call_method. along untouched. Qed.

End Frames.

#[global] Hint Resolve this_replicant_untouched untouched_with_heap
  raw_set_untouched raw_delete_untouched validate_untouched
  clone_target_untouched clone_value_untouched clone_assign_untouched
  clone_delete_untouched raw_apply_untouched clone_apply_untouched
  childHandler_set_untouched deleteTrap_untouched
  childArrayHandler_call_untouched set_member_untouched
  delete_member_untouched call_method_untouched : frames.
#[global] Hint Extern 1 (untouched _ (update_replicant _ (with_ignoreProxy _) _)) =>
  apply update_flags_untouched : frames.
#[global] Hint Extern 1 (untouched ?σ ?σ) => reflexivity : frames.
#[global] Hint Extern 1 (wraps _ ?σ ?σ) => reflexivity : frames.
#[global] Hint Extern 5 (wraps _ _ _) =>
  apply untouched_wraps; solve [auto with frames] : frames.

Section Wrapping.
Context {ext : External}.

(** [assertSingleOwner] only reads. *)
Lemma assertSingleOwner_state (r : rid) (l : loc) (σ : state) :
  fst (assertSingleOwner r l σ) = σ.
Proof.
  unfold assertSingleOwner, bind, get_state, this_replicant, ret, throw.
  repeat (case_match; simpl; try reflexivity); congruence.
Qed.

(** When [assertSingleOwner] returns, the Metadata object the three
    branches of [proxyRecursive] would update names [r]. *)
Lemma assertSingleOwner_returns (r : rid) (l : loc) (σ σ1 : state) (u : unit) :
  assertSingleOwner r l σ = (σ1, Return u) ->
  σ1 = σ
  /\ (l ∈ proxySet σ ->
      forall md, metadata_at σ (proxyMetadataMap σ !! l) = Some md ->
                 replicant md = r)
  /\ (l ∉ proxySet σ ->
      forall md, metadata_at σ (metadataMap σ !! l) = Some md ->
                 replicant md = r).
Proof.
  intros H.
  split; [| split].
  - rewrite <- (assertSingleOwner_state r l σ), H. reflexivity.
  - intros Hin md Hmd. revert H.
    unfold assertSingleOwner, bind, get_state, this_replicant, ret, throw.
    destruct (decide (l ∈ proxySet σ)); [| contradiction].
    rewrite Hmd.
    destruct (decide (replicant md ≠ r)) as [Hne | Heq].
    + destruct (replicants σ !! replicant md);
        [destruct (JSON_stringify _ _) |]; discriminate.
    + intros _. destruct (decide (replicant md = r)); [assumption | contradiction].
  - intros Hnin md Hmd. revert H.
    unfold assertSingleOwner, bind, get_state, this_replicant, ret, throw.
    destruct (decide (l ∈ proxySet σ)); [contradiction |].
    destruct (decide (is_Some (metadataMap σ !! l))) as [Hs | Hn].
    + rewrite Hmd.
      destruct (decide (replicant md ≠ r)) as [Hne | Heq].
      * destruct (replicants σ !! replicant md);
        [destruct (JSON_stringify _ _) |]; discriminate.
      * intros _.
        destruct (decide (replicant md = r)); [assumption | contradiction].
    + exfalso. apply Hn. unfold metadata_at in Hmd.
      destruct (metadataMap σ !! l); [eauto | discriminate].
Qed.

Lemma set_path_wraps (r : rid) (i : option nat) (pth : string) (σ : state) :
  (forall md, metadata_at σ i = Some md -> replicant md = r) ->
  wraps r σ (fst (set_path i pth σ)).
Proof.
  intros Howner. unfold set_path.
  destruct i as [k |]; [| reflexivity].
  unfold modify; cbn [fst]. split.
  - split; reflexivity.
  - intros j md Hj Hne. simpl.
    destruct (decide (k = j)) as [-> | Hkj].
    + exfalso. apply Hne. apply Howner. exact Hj.
    + rewrite list_lookup_alter_ne by exact Hkj. exact Hj.
  - reflexivity.
Qed.

Lemma new_proxy_wraps (r : rid) (l : loc) (pth : string) (σ : state) :
  metadataMap σ !! l = None ->
  wraps r σ (fst (new_proxy r l pth σ)).
Proof.
  intros Hfresh. unfold new_proxy; cbn [fst]. split.
  - split; reflexivity.
  - intros j md Hj _. simpl. apply lookup_app_l_Some. exact Hj.
  - simpl. apply insert_subseteq. exact Hfresh.
Qed.

Lemma proxyRecursive_wraps (fuel : nat) :
  forall (r : rid) (v : val) (pth : string) (σ : state),
    wraps r σ (fst (proxyRecursive fuel r v pth σ)).
Proof.
  induction fuel as [| fuel IH]; intros r v pth σ.
  - reflexivity.
  - destruct v as [| | b | n | s | l]; try reflexivity.
    cbn [proxyRecursive].
    apply (along_bind (wraps r)).
    { rewrite assertSingleOwner_state. reflexivity. }
    intros σ1 u Hassert.
    destruct (assertSingleOwner_returns _ _ _ _ _ Hassert)
      as (-> & Hproxy & Hraw).
    along_step (wraps r).
    apply (along_bind (wraps r)).
    { destruct (decide (l ∈ proxySet σ)) as [Hin | Hnin].
      - along_step (wraps r); [| reflexivity].
        apply set_path_wraps. auto.
      - destruct (decide (is_Some (metadataMap σ !! l))) as [Hs | Hn].
        + destruct (metadata_at σ (metadataMap σ !! l)) as [md |] eqn:Hmd;
            [| reflexivity].
          along_step (wraps r); [| reflexivity].
          apply set_path_wraps. intros md' Hmd'. rewrite Hmd in Hmd'.
          apply Hraw; assumption.
        + apply new_proxy_wraps.
          destruct (metadataMap σ !! l) eqn:E; [| reflexivity].
          exfalso. apply Hn. eauto. }
    intros σ2 p _.
    along_step (wraps r).
    along_step (wraps r); [| reflexivity].
    apply (along_forEach (wraps r)).
    intros key σ3.
    along_step (wraps r).
    along_step (wraps r); [reflexivity |].
    along_step (wraps r); [apply IH |].
    apply untouched_wraps. apply set_member_untouched.
Qed.

Lemma applyOperation_wraps (fuel : nat) (r : rid) (operation : Operation) (σ : state) :
  wraps r σ (fst (applyOperation fuel r operation σ)).
Proof.
  unfold applyOperation.
  repeat first
    [ solve [auto with frames]
    | apply proxyRecursive_wraps
    | destruct (objectPath_set _ _ _ _) as [? [? | ?]]
    | progress along_step (wraps r) ].
Qed.

Lemma operations_forEach_wraps (fuel : nat) (r : rid) (ops : list Operation) :
  forall σ, wraps r σ (fst (operations_forEach fuel r ops σ)).
Proof.
  induction ops as [| operation rest IH]; intros σ; simpl.
  - reflexivity.
  - along_step (wraps r); [apply applyOperation_wraps |].
    along_step (wraps r); [apply IH | reflexivity].
Qed.

End Wrapping.

(** ** Remote operations ([_handleOperations]) *)

Section HandleOperations.
Context {ext : External}.

Lemma operations_forEach_applied (fuel : nat) (r : rid) (ops : list Operation) :
  forall σ σ' ops',
    operations_forEach fuel r ops σ = (σ', Return ops')
    <-> applied_in_order fuel r ops σ σ' ops'.
Proof.
  induction ops as [| operation rest IH]; intros σ σ' ops'; simpl.
  - split.
    + intros [= <- <-]. constructor.
    + intros H. inversion H; subst. reflexivity.
  - unfold bind at 1.
    destruct (applyOperation fuel r operation σ) as [σ1 [res | e | |]] eqn:Eop.
    + unfold bind at 1.
      destruct (operations_forEach fuel r rest σ1) as [σ2 [rest' | e | |]] eqn:Erest.
      * split.
        -- intros [= <- <-]. econstructor; [exact Eop |].
           apply IH. exact Erest.
        -- intros H. inversion H as [| ? ? ? σa σb resa resta Ha Hb]; subst.
           rewrite Eop in Ha. injection Ha as <- <-.
           apply IH in Hb. rewrite Erest in Hb. injection Hb as <- <-.
           reflexivity.
      * split; [discriminate |].
        intros H. inversion H as [| ? ? ? σa σb resa resta Ha Hb]; subst.
        rewrite Eop in Ha. injection Ha as <- <-.
        apply IH in Hb. rewrite Erest in Hb. discriminate.
      * split; [discriminate |].
        intros H. inversion H as [| ? ? ? σa σb resa resta Ha Hb]; subst.
        rewrite Eop in Ha. injection Ha as <- <-.
        apply IH in Hb. rewrite Erest in Hb. discriminate.
      * split; [discriminate |].
        intros H. inversion H as [| ? ? ? σa σb resa resta Ha Hb]; subst.
        rewrite Eop in Ha. injection Ha as <- <-.
        apply IH in Hb. rewrite Erest in Hb. discriminate.
    + split; [discriminate |].
      intros H. inversion H as [| ? ? ? σa σb resa resta Ha Hb]; subst.
      rewrite Eop in Ha. discriminate.
    + split; [discriminate |].
      intros H. inversion H as [| ? ? ? σa σb resa resta Ha Hb]; subst.
      rewrite Eop in Ha. discriminate.
    + split; [discriminate |].
      intros H. inversion H as [| ? ? ? σa σb resa resta Ha Hb]; subst.
      rewrite Eop in Ha. discriminate.
Qed.

(** A batch that throws does so at its first operation that throws, after
    the operations before it were applied. *)
Lemma operations_forEach_throws (fuel : nat) (r : rid) (ops : list Operation) :
  forall σ σ' e,
    operations_forEach fuel r ops σ = (σ', Throw e) ->
    exists before operation after σ1 before',
      ops = (before ++ operation :: after)%list
      /\ applied_in_order fuel r before σ σ1 before'
      /\ applyOperation fuel r operation σ1 = (σ', Throw e).
Proof.
  induction ops as [| operation rest IH]; intros σ σ' e; simpl.
  - discriminate.
  - unfold bind at 1.
    destruct (applyOperation fuel r operation σ) as [σ1 [res | e1 | |]] eqn:Eop.
    + unfold bind at 1.
      destruct (operations_forEach fuel r rest σ1) as [σ2 [rest' | e2 | |]] eqn:Erest;
        try discriminate.
      intros [= <- <-].
      destruct (IH _ _ _ Erest) as (before & op & after & σa & before' & -> & Hb & Hop).
      exists (operation :: before), op, after, σa, (with_result res operation :: before').
      repeat split; [| exact Hop].
      econstructor; eassumption.
    + intros [= <- <-].
      exists [], operation, rest, σ, []. repeat split; [constructor | exact Eop].
    + discriminate.
    + discriminate.
Qed.

(** The Replicant object [r] after a piece of quiet code. *)
Lemma quiet_replicant (σ σ' : state) (r : rid) (R : Replicant) :
  quiet σ σ' -> replicants σ !! r = Some R ->
  exists R', replicants σ' !! r = Some R' /\ stable R R'.
Proof.
  intros Hq HR.
  destruct (Forall2_lookup_l _ _ _ _ _ (quiet_replicants _ _ Hq) HR)
    as (R' & HR' & Hs).
  eauto.
Qed.

End HandleOperations.

Section HandleOperationsSpec.
Context {ext : External}.

Lemma _handleOperations_ignored
  (fuel : nat) (r : rid) (data : OperationsData) (σ : state) (R : Replicant) :
  replicants σ !! r = Some R ->
  status R <> declared \/ operations_name data <> name R
  \/ operations_namespace data <> namespace R ->
  _handleOperations fuel r data σ = (σ, Return tt).
Proof.
  intros HR Hignored.
  unfold _handleOperations, bind, this_replicant. rewrite HR.
  destruct (decide (status R = declared)) as [Hs | Hs].
  - rewrite bool_decide_eq_true_2 by exact Hs. cbn [negb].
    destruct Hignored as [Hn | [Hn | Hn]]; [contradiction | |].
    + apply String.eqb_neq in Hn. rewrite Hn. reflexivity.
    + apply String.eqb_neq in Hn. rewrite Hn, orb_true_r. reflexivity.
  - rewrite bool_decide_eq_false_2 by exact Hs. reflexivity.
Qed.

Lemma _handleOperations_addressed
  (fuel : nat) (r : rid) (data : OperationsData) (σ : state) (R : Replicant) :
  replicants σ !! r = Some R ->
  status R = declared -> operations_name data = name R ->
  operations_namespace data = namespace R ->
  _handleOperations fuel r data σ
  = (if negb (operations_revision data =? number_add (revision R) 1)
     then _fullUpdate r
     else
       bind (clone_value (value R)) (fun oldValue =>
       bind (operations_forEach fuel r (operations data)) (fun ops =>
       bind (modify (update_replicant r
                       (with_revision (operations_revision data)))) (fun _ =>
       bind (this_replicant r) (fun R' =>
       emit r "change"
         [arg_val (value R'); arg_val oldValue; arg_operations ops]))))) σ.
Proof.
  intros HR Hs Hn Hns.
  unfold _handleOperations. unfold bind at 1. unfold this_replicant at 1.
  rewrite HR, Hs, Hn, Hns, !String.eqb_refl. reflexivity.
Qed.

Lemma _handleOperations_gap
  (fuel : nat) (r : rid) (data : OperationsData) (σ : state) (R : Replicant) :
  replicants σ !! r = Some R ->
  status R = declared -> operations_name data = name R ->
  operations_namespace data = namespace R ->
  operations_revision data <> number_add (revision R) 1 ->
  name R <> EmptyString -> namespace R <> EmptyString ->
  _handleOperations fuel r data σ
  = (with_sent
       (sent σ ++ [read_message (_socket R) (name R) (namespace R)
                     (cb_fullUpdate r)]) σ,
     Return tt).
Proof.
  intros HR Hs Hn Hns Hrev Hname Hnamespace.
  rewrite (_handleOperations_addressed fuel r data σ R) by assumption.
  apply Z.eqb_neq in Hrev. rewrite Hrev. cbn [negb].
  unfold _fullUpdate, bind, this_replicant. rewrite HR.
  apply readReplicant_sends; assumption.
Qed.

Lemma _handleOperations_applied
  (fuel : nat) (r : rid) (data : OperationsData) (σ : state) (R : Replicant)
  (h : list cell) (oldValue : val) (σ2 : state) (ops : list Operation) :
  replicants σ !! r = Some R ->
  status R = declared -> operations_name data = name R ->
  operations_namespace data = namespace R ->
  operations_revision data = number_add (revision R) 1 ->
  clone (heap σ) (value R) = (h, oldValue) ->
  applied_in_order fuel r (operations data) (with_heap h σ) σ2 ops ->
  let σ' :=
    with_notifications
      (notifications σ
       ++ [emitted r "change"
             [arg_val (value R); arg_val oldValue; arg_operations ops]])
      (update_replicant r (with_revision (number_add (revision R) 1)) σ2) in
  _handleOperations fuel r data σ = (σ', Return tt)
  /\ revision <$> replicants σ' !! r = Some (number_add (revision R) 1).
Proof.
  intros HR Hs Hn Hns Hrev Hclone Happlied σ'.
  set (next := number_add (revision R) 1) in *.
  assert (Hq : quiet σ σ2).
  { transitivity (with_heap h σ).
    - apply untouched_quiet, untouched_with_heap.
    - apply operations_forEach_applied in Happlied.
      pose proof (operations_forEach_wraps fuel r (operations data)
                    (with_heap h σ)) as Hw.
      rewrite Happlied in Hw. exact (wraps_quiet _ _ _ Hw). }
  destruct (quiet_replicant _ _ _ _ Hq HR) as (R2 & HR2 & Hstable).
  destruct (stable_fields _ _ Hstable) as (_ & _ & Hvalue & _).
  assert (Hlookup :
            replicants (update_replicant r (with_revision next) σ2)
              !! r = Some (with_revision next R2)).
  { unfold update_replicant. cbn [replicants with_replicants].
    rewrite list_lookup_alter_eq, HR2. reflexivity. }
  split.
  - rewrite (_handleOperations_addressed fuel r data σ R) by assumption.
    fold next. rewrite Hrev, Z.eqb_refl. cbn [negb].
    unfold bind at 1. unfold clone_value. rewrite Hclone.
    apply operations_forEach_applied in Happlied.
    unfold bind at 1. rewrite Happlied.
    unfold bind, modify, this_replicant. cbn [fst snd].
    rewrite Hlookup. unfold emit, modify. subst σ'.
    cbn [value with_revision]. rewrite Hvalue.
    change (notifications (update_replicant r (with_revision next) σ2))
      with (notifications σ2).
    rewrite (quiet_notifications _ _ Hq). reflexivity.
  - subst σ'. cbn [replicants with_notifications].
    rewrite Hlookup. reflexivity.
Qed.

Lemma _handleOperations_thrown
  (fuel : nat) (r : rid) (data : OperationsData) (σ : state) (R : Replicant)
  (h : list cell) (oldValue : val) (σ2 : state) (e : Error) :
  replicants σ !! r = Some R ->
  status R = declared -> operations_name data = name R ->
  operations_namespace data = namespace R ->
  operations_revision data = number_add (revision R) 1 ->
  clone (heap σ) (value R) = (h, oldValue) ->
  operations_forEach fuel r (operations data) (with_heap h σ) = (σ2, Throw e) ->
  _handleOperations fuel r data σ = (σ2, Throw e)
  /\ notifications σ2 = notifications σ
  /\ revision <$> replicants σ2 !! r = Some (revision R)
  /\ exists before operation after σ1 before',
       operations data = (before ++ operation :: after)%list
       /\ applied_in_order fuel r before (with_heap h σ) σ1 before'
       /\ applyOperation fuel r operation σ1 = (σ2, Throw e).
Proof.
  intros HR Hs Hn Hns Hrev Hclone Hthrow.
  assert (Hq : quiet σ σ2).
  { transitivity (with_heap h σ).
    - apply untouched_quiet, untouched_with_heap.
    - pose proof (operations_forEach_wraps fuel r (operations data)
                    (with_heap h σ)) as Hw.
      rewrite Hthrow in Hw. exact (wraps_quiet _ _ _ Hw). }
  destruct (quiet_replicant _ _ _ _ Hq HR) as (R2 & HR2 & Hstable).
  destruct (stable_fields _ _ Hstable) as (_ & _ & _ & Hrevision & _).
  split; [| split; [| split]].
  - rewrite (_handleOperations_addressed fuel r data σ R) by assumption.
    rewrite Hrev, Z.eqb_refl. cbn [negb].
    unfold bind at 1. unfold clone_value. rewrite Hclone.
    unfold bind at 1. rewrite Hthrow. reflexivity.
  - exact (quiet_notifications _ _ Hq).
  - rewrite HR2. simpl. rewrite Hrevision. reflexivity.
  - apply operations_forEach_throws. exact Hthrow.
Qed.

(** Below 2^53 in magnitude, adding one to a number is exact. *)
Lemma number_add_one_exact (n : Z) :
  - 2 ^ 53 <= n < 2 ^ 53 -> number_add n 1 = n + 1.
Proof.
  intros Hn. unfold number_add.
  destruct (decide (n = 2 ^ 53 - 1)) as [-> | Hne]; [reflexivity |].
  unfold round_to_double.
  replace (Z.abs (n + 1) <? 2 ^ 53) with true; [reflexivity |].
  symmetry. apply Z.ltb_lt. lia.
Qed.

(** C1, as the code has it.  A [replicant:operations] message for a
    Replicant object [r] at revision [revision R], where the next revision
    is [revision R + 1] as JavaScript computes it, [number_add (revision R)
    1], which is [revision R + 1] while the revision is below 2^53 in
    magnitude:
    - changes nothing when the status is not [declared] or when it names
      another (namespace, name);
    - otherwise, at a revision other than the next, applies nothing and
      sends one [replicant:read], provided name and namespace are not empty
      ([readReplicant] refuses them otherwise); the acknowledgement of that
      message is the callback that emits [fullUpdate] and assigns the value
      read, at the revision read, through [_assignValue];
    - otherwise, at the next revision, applies the operations in array
      order; when none of them throws, the revision becomes the next
      revision and one [change] is emitted with the value, the copy of the
      old value and the operations applied; when one throws, the error
      propagates, the revision stays and no [change] is emitted. *)
Theorem _handleOperations_next_revision
  (fuel : nat) (r : rid) (data : OperationsData) (σ : state) (R : Replicant) :
  replicants σ !! r = Some R ->
  (- 2 ^ 53 <= revision R < 2 ^ 53 ->
   number_add (revision R) 1 = revision R + 1)
  /\ (status R <> declared \/ operations_name data <> name R
      \/ operations_namespace data <> namespace R ->
      _handleOperations fuel r data σ = (σ, Return tt))
  /\ (status R = declared -> operations_name data = name R ->
      operations_namespace data = namespace R ->
      (operations_revision data <> number_add (revision R) 1 ->
       name R <> EmptyString -> namespace R <> EmptyString ->
       _handleOperations fuel r data σ
       = (with_sent
            (sent σ ++ [read_message (_socket R) (name R) (namespace R)
                          (cb_fullUpdate r)]) σ,
          Return tt)
       /\ forall (fuel' : nat) (answer : ReadAck),
            acknowledge fuel' (cb_fullUpdate r) answer
            = Some (bind (emit r "fullUpdate" [arg_read answer])
                      (fun _ => _assignValue fuel' r (read_value answer)
                                  (Some (read_revision answer)))))
      /\ (operations_revision data = number_add (revision R) 1 ->
          forall h oldValue,
            clone (heap σ) (value R) = (h, oldValue) ->
            (forall σ2 ops,
               applied_in_order fuel r (operations data) (with_heap h σ) σ2 ops ->
               let σ' :=
                 with_notifications
                   (notifications σ
                    ++ [emitted r "change"
                          [arg_val (value R); arg_val oldValue;
                           arg_operations ops]])
                   (update_replicant r
                      (with_revision (number_add (revision R) 1)) σ2) in
               _handleOperations fuel r data σ = (σ', Return tt)
               /\ revision <$> replicants σ' !! r
                  = Some (number_add (revision R) 1))
            /\ (forall σ2 e,
                  operations_forEach fuel r (operations data) (with_heap h σ)
                  = (σ2, Throw e) ->
                  _handleOperations fuel r data σ = (σ2, Throw e)
                  /\ notifications σ2 = notifications σ
                  /\ revision <$> replicants σ2 !! r = Some (revision R)
                  /\ exists before operation after σ1 before',
                       operations data = (before ++ operation :: after)%list
                       /\ applied_in_order fuel r before (with_heap h σ) σ1
                            before'
                       /\ applyOperation fuel r operation σ1
                          = (σ2, Throw e)))).
Proof.
  intros HR. split; [| split].
  - apply number_add_one_exact.
  - apply _handleOperations_ignored. exact HR.
  - intros Hs Hn Hns. split.
    + intros. split; [apply _handleOperations_gap; assumption |].
      intros fuel' answer. reflexivity.
    + intros Hrev h oldValue Hclone. split.
      * intros σ2 ops Happlied.
        apply (_handleOperations_applied fuel r data σ R h oldValue σ2 ops);
          assumption.
      * intros σ2 e Hthrow.
        apply (_handleOperations_thrown fuel r data σ R h oldValue σ2 e);
          assumption.
Qed.

End HandleOperationsSpec.

(** *** Concrete runs *)

(** The counterexample to C1 as stated.  A declared Replicant at revision 0
    that holds no value receives a batch at revision 1 with one operation:
    the operation is not applied, the revision stays 0 and no [change] is
    emitted, because [applyOperation] throws.  A declared Replicant
    whose name is empty, receiving a batch at a revision that is not the
    next one, sends no [replicant:read]: [readReplicant] throws.  And a
    declared Replicant at revision 2^53 receiving a batch at revision 2^53,
    which is not 2^53 + 1, applies it, emits [change] and sends no
    [replicant:read]: in JavaScript 2^53 + 1 is 2^53. *)
Lemma _handleOperations_counterexample :
  (operations_revision (batch 1 [push_operation]) = 0 + 1
   /\ @_handleOperations Sample.library 1 0%nat (batch 1 [push_operation])
        undefined_replicant_state
      = (undefined_replicant_state,
         Throw (Err "applyOperation called with Replicant with undefined value")))
  /\ @_handleOperations Sample.library 1 0%nat
       {| operations_name := EmptyString; operations_namespace := "bundle";
          operations_revision := 7; operations := [] |}
       unnamed_replicant_state
     = (unnamed_replicant_state,
        Throw (Err "Must supply a name when reading a Replicant"))
  /\ (let run :=
        @_handleOperations Sample.library 2 0%nat
          (batch (2 ^ 53) [push_items]) saturated_state in
      revision <$> replicants saturated_state !! 0%nat = Some (2 ^ 53)
      /\ operations_revision (batch (2 ^ 53) [push_items]) <> 2 ^ 53 + 1
      /\ snd run = Return tt
      /\ sent (fst run) = []
      /\ notifications (fst run)
         = [emitted 0%nat "change"
              [arg_val (VRef 2%nat); arg_val (VRef 5%nat);
               arg_operations [with_result (VNumber 4) push_items]]]
      /\ Sample.get (heap (fst run)) (VRef 2%nat) ["items"; "3"] = VNumber 4
      /\ revision <$> replicants (fst run) !! 0%nat = Some (2 ^ 53)).
Proof.
  split; [split; reflexivity |]. split; [reflexivity |].
  cbv zeta. split; [reflexivity |]. split; [discriminate |].
  repeat split; vm_compute; reflexivity.
Qed.

(** The array scenario: [push(4)] then [push(5)], one batch at the next
    revision, applied in that order. *)
Lemma _handleOperations_next_revision_witness :
  exists σ',
    @_handleOperations Sample.library 2 0%nat
      (batch 6 [push_items; push_five]) items_state
    = (σ', Return tt)
    /\ revision <$> replicants σ' !! 0%nat = Some 6
    /\ notifications σ'
       = [emitted 0%nat "change"
            [arg_val (VRef 2%nat); arg_val (VRef 5%nat);
             arg_operations
               [with_result (VNumber 4) push_items;
                with_result (VNumber 5) push_five]]]
    /\ Sample.get (heap σ') (VRef 2%nat) ["items"; "3"] = VNumber 4
    /\ Sample.get (heap σ') (VRef 2%nat) ["items"; "4"] = VNumber 5.
Proof.
  destruct (@_handleOperations_next_revision Sample.library 2 0%nat
              (batch 6 [push_items; push_five]) items_state
              (replicant_with "score" "bundle" (VRef 2%nat) 5 declared)
              eq_refl) as (_ & _ & Haddressed).
  destruct (Haddressed eq_refl eq_refl eq_refl) as [_ Hnext].
  destruct (Hnext eq_refl
              (fst (Sample.copy 4 (heap items_state) (VRef 2%nat)))
              (VRef 5%nat) eq_refl) as [Happlied _].
  destruct (Happlied
              (fst (@operations_forEach Sample.library 2 0%nat
                      [push_items; push_five]
                      (with_heap
                         (fst (Sample.copy 4 (heap items_state) (VRef 2%nat)))
                         items_state)))
              [with_result (VNumber 4) push_items;
               with_result (VNumber 5) push_five]) as [Hrun Hrevision].
  { apply operations_forEach_applied. vm_compute. reflexivity. }
  eexists. split; [exact Hrun |]. split; [exact Hrevision |].
  repeat split; vm_compute; reflexivity.
Defined.

(** ** Assigning a value ([_assignValue]) *)

Section AssignValue.
Context {ext : External}.

Lemma _assignValue_unfold
  (fuel : nat) (r : rid) (newValue : val) (rev : option Z) (σ : state)
  (R : Replicant) (h : list cell) (oldValue : val) :
  replicants σ !! r = Some R ->
  clone (heap σ) (value R) = (h, oldValue) ->
  _assignValue fuel r newValue rev σ
  = bind (proxyRecursive fuel r newValue "/") (fun v =>
    bind (modify (update_replicant r (with_value v))) (fun _ =>
    bind (modify (assign_revision r rev)) (fun _ =>
    bind (this_replicant r) (fun R' =>
    emit r "change" [arg_val (value R'); arg_val oldValue]))))
      (with_heap h σ).
Proof.
  intros HR Hclone.
  unfold _assignValue. unfold bind at 1. unfold this_replicant at 1.
  rewrite HR. unfold bind at 1. unfold clone_value. rewrite Hclone.
  destruct rev; reflexivity.
Qed.

(** C5, as the code has it.  [_assignValue] copies the old value with
    [clone] and wraps the new one with [proxyRecursive] from the root path
    ['/'].  When the wrap returns, the value becomes the wrapped value, the
    revision changes exactly when one is supplied, and one [change] is
    emitted, with two arguments: the new value and the copy of the old one.
    When the wrap throws, the error propagates: nothing is assigned, the
    revision stays and no [change] is emitted. *)
Theorem _assignValue_wraps_and_notifies
  (fuel : nat) (r : rid) (newValue : val) (rev : option Z) (σ : state)
  (R : Replicant) (h : list cell) (oldValue : val) :
  replicants σ !! r = Some R ->
  clone (heap σ) (value R) = (h, oldValue) ->
  (forall σ1 v,
     proxyRecursive fuel r newValue "/" (with_heap h σ) = (σ1, Return v) ->
     let σ' :=
       with_notifications
         (notifications σ ++ [emitted r "change" [arg_val v; arg_val oldValue]])
         (assign_revision r rev (update_replicant r (with_value v) σ1)) in
     _assignValue fuel r newValue rev σ = (σ', Return tt)
     /\ value <$> replicants σ' !! r = Some v
     /\ revision <$> replicants σ' !! r = Some (default (revision R) rev))
  /\ (forall σ1 e,
        proxyRecursive fuel r newValue "/" (with_heap h σ) = (σ1, Throw e) ->
        _assignValue fuel r newValue rev σ = (σ1, Throw e)
        /\ notifications σ1 = notifications σ
        /\ value <$> replicants σ1 !! r = Some (value R)
        /\ revision <$> replicants σ1 !! r = Some (revision R)).
Proof.
  intros HR Hclone.
  assert (Hq : forall σ1 o,
             proxyRecursive fuel r newValue "/" (with_heap h σ) = (σ1, o) ->
             quiet σ σ1).
  { intros σ1 o Hrun. transitivity (with_heap h σ).
    - apply untouched_quiet, untouched_with_heap.
    - pose proof (proxyRecursive_wraps fuel r newValue "/" (with_heap h σ)) as Hw.
      rewrite Hrun in Hw. exact (wraps_quiet _ _ _ Hw). }
  split.
  - intros σ1 v Hrun σ'.
    destruct (quiet_replicant _ _ _ _ (Hq _ _ Hrun) HR) as (R1 & HR1 & Hstable).
    destruct (stable_fields _ _ Hstable) as (_ & _ & _ & Hrevision & _).
    assert (Hlookup :
              replicants (assign_revision r rev
                            (update_replicant r (with_value v) σ1)) !! r
              = Some (match rev with
                      | Some n => with_revision n (with_value v R1)
                      | None => with_value v R1
                      end)).
    { destruct rev; unfold assign_revision, update_replicant;
        cbn [replicants with_replicants];
        rewrite ?list_lookup_alter_eq, HR1; reflexivity. }
    split; [| split].
    + rewrite (_assignValue_unfold fuel r newValue rev σ R h oldValue)
        by assumption.
      unfold bind at 1. rewrite Hrun.
      unfold bind, modify, this_replicant. cbn [fst snd].
      rewrite Hlookup. unfold emit, modify. subst σ'.
      replace (notifications
                 (assign_revision r rev (update_replicant r (with_value v) σ1)))
        with (notifications σ)
        by (rewrite <- (quiet_notifications _ _ (Hq _ _ Hrun));
            destruct rev; reflexivity).
      destruct rev; reflexivity.
    + subst σ'. cbn [replicants with_notifications]. rewrite Hlookup.
      destruct rev; reflexivity.
    + subst σ'. cbn [replicants with_notifications]. rewrite Hlookup.
      destruct rev; simpl; [reflexivity | rewrite Hrevision; reflexivity].
  - intros σ1 e Hrun.
    destruct (quiet_replicant _ _ _ _ (Hq _ _ Hrun) HR) as (R1 & HR1 & Hstable).
    destruct (stable_fields _ _ Hstable) as (_ & _ & Hvalue & Hrevision & _).
    split; [| split; [| split]].
    + rewrite (_assignValue_unfold fuel r newValue rev σ R h oldValue)
        by assumption.
      unfold bind at 1. rewrite Hrun. reflexivity.
    + exact (quiet_notifications _ _ (Hq _ _ Hrun)).
    + rewrite HR1. simpl. rewrite Hvalue. reflexivity.
    + rewrite HR1. simpl. rewrite Hrevision. reflexivity.
Qed.

End AssignValue.

(** The counterexample to C5 as stated.  An assignment that succeeds emits
    [change] with two arguments, not with an empty list of operations as a
    third; and an assignment of an array another Replicant owns emits
    nothing at all. *)
Lemma _assignValue_counterexample :
  (@_assignValue Sample.library 1 0%nat (VNumber 7) (Some 1)
     undefined_replicant_state
   = (with_notifications
        [emitted 0%nat "change" [arg_val (VNumber 7); arg_val VUndefined]]
        (with_replicants [replicant_with "score" "bundle" (VNumber 7) 1 declared]
           empty_state),
      Return tt)
   /\ [arg_val (VNumber 7); arg_val VUndefined]
      <> [arg_val (VNumber 7); arg_val VUndefined; arg_operations []])
  /\ (snd (@_assignValue Sample.library 2 1%nat (VRef 1%nat) (Some 9)
             two_replicants_state)
      = Throw (Err (ownership_message
                      (replicant_with "score" "bundle" (VRef 2%nat) 5 declared)
                      "{}"))
      /\ notifications
           (fst (@_assignValue Sample.library 2 1%nat (VRef 1%nat) (Some 9)
                   two_replicants_state))
         = []).
Proof.
  split; [split | split].
  - reflexivity.
  - discriminate.
  - vm_compute. reflexivity.
  - vm_compute. reflexivity.
Qed.

Lemma _assignValue_wraps_and_notifies_witness :
  @_assignValue Sample.library 1 0%nat (VNumber 7) (Some 1)
    undefined_replicant_state
  = (with_notifications
       [emitted 0%nat "change" [arg_val (VNumber 7); arg_val VUndefined]]
       (update_replicant 0%nat (with_revision 1)
          (update_replicant 0%nat (with_value (VNumber 7))
             undefined_replicant_state)),
     Return tt).
Proof.
  apply (proj1 (@_assignValue_wraps_and_notifies Sample.library 1 0%nat
                  (VNumber 7) (Some 1) undefined_replicant_state
                  (replicant_with "score" "bundle" VUndefined 0 declared)
                  [] VUndefined eq_refl eq_refl)
           undefined_replicant_state (VNumber 7) eq_refl).
Defined.

(** ** Validation ([validate]) *)

Lemma validate_without_validator (r : rid) (v : val) (t : bool) (σ : state) (R : Replicant) :
  replicants σ !! r = Some R ->
  _validator R = None ->
  validate r v t σ = (σ, Return true).
Proof.
  intros HR Hnone. unfold validate, bind, this_replicant.
  rewrite HR, Hnone. reflexivity.
Qed.

Lemma validate_accepted
  (r : rid) (v : val) (t : bool) (σ : state) (R : Replicant) (check : Validator) :
  replicants σ !! r = Some R ->
  _validator R = Some check ->
  result (check (heap σ) v) = true ->
  validate r v t σ = (σ, Return true).
Proof.
  intros HR Hcheck Hvalid. unfold validate, bind, this_replicant, get_state.
  rewrite HR, Hcheck, Hvalid. reflexivity.
Qed.

(** A rejected value: the error list is recorded, and with [throwOnInvalid]
    the error thrown carries the header and the text of the first error of
    the list, whatever follows it. *)
Lemma validate_rejected
  (r : rid) (v : val) (σ : state) (R : Replicant) (check : Validator)
  (error : ValidationError) (others : list ValidationError) :
  replicants σ !! r = Some R ->
  _validator R = Some check ->
  result (check (heap σ) v) = false ->
  errors (check (heap σ) v) = error :: others ->
  validate r v true σ
  = (update_replicant r (with_validationErrors (error :: others)) σ,
     Throw (Err (rejection_header R ++ error_text error))).
Proof.
  intros HR Hcheck Hinvalid Herrors.
  unfold validate, bind, this_replicant, get_state.
  rewrite HR, Hcheck, Hinvalid. cbn [negb]. unfold modify.
  rewrite Herrors. reflexivity.
Qed.

Lemma validate_rejected_witness :
  validate 0%nat (VNumber 0) true validated_state
  = (update_replicant 0%nat
       (with_validationErrors [count_error; label_error]) validated_state,
     Throw (Err (rejection_header
                   (with_validator (Some rejecting)
                      (replicant_with "score" "bundle" (VRef 2%nat) 5 declared))
                 ++ error_text count_error))).
Proof.
  apply (validate_rejected 0%nat (VNumber 0) validated_state
           (with_validator (Some rejecting)
              (replicant_with "score" "bundle" (VRef 2%nat) 5 declared))
           rejecting count_error [label_error]); reflexivity.
Defined.

Lemma validate_rejected_quietly
  (r : rid) (v : val) (σ : state) (R : Replicant) (check : Validator) :
  replicants σ !! r = Some R ->
  _validator R = Some check ->
  result (check (heap σ) v) = false ->
  validate r v false σ
  = (update_replicant r (with_validationErrors (errors (check (heap σ) v))) σ,
     Return false).
Proof.
  intros HR Hcheck Hinvalid.
  unfold validate, bind, this_replicant, get_state.
  rewrite HR, Hcheck, Hinvalid. reflexivity.
Qed.

(** C8 at a failing input: two violated fields, [count] and [label].  The
    full list is recorded, but the error thrown names [count] only; [label]
    does not occur in its message. *)
Lemma validate_two_errors :
  validate 0%nat (VNumber 0) true validated_state
  = (update_replicant 0%nat
       (with_validationErrors [count_error; label_error]) validated_state,
     Throw (Err ("Invalid value rejected for replicant " ++ quote ++ "score"
                 ++ quote ++ " in namespace " ++ quote ++ "bundle" ++ quote
                 ++ ":" ++ nl ++ tab ++ "Field " ++ quote ++ "count" ++ quote
                 ++ " is the wrong type. Value " ++ quote ++ "x" ++ quote
                 ++ " (type: string) was provided, expected type " ++ quote
                 ++ "number" ++ quote ++ nl ++ " ")))
  /\ index 0 "label"
       (rejection_header (replicant_with "score" "bundle" (VRef 2%nat) 5 declared)
        ++ error_text count_error) = None
  /\ index 0 "label" (error_text label_error) = Some 8%nat.
Proof. repeat split. Qed.

(** ** Assigning [.value] through the root proxy *)

Lemma update_replicant_same (r : rid) (f : Replicant -> Replicant) (σ : state) (R : Replicant) :
  replicants σ !! r = Some R -> f R = R -> update_replicant r f σ = σ.
Proof.
  intros HR Hf. unfold update_replicant.
  replace (alter f r (replicants σ)) with (replicants σ).
  - destruct σ; reflexivity.
  - apply list_eq. intros i. destruct (decide (r = i)) as [<- | Hne].
    + rewrite list_lookup_alter_eq, HR. simpl. rewrite Hf. reflexivity.
    + rewrite list_lookup_alter_ne by exact Hne. reflexivity.
Qed.

Lemma _proposeAssignment_sends (r : rid) (newValue : val) (σ : state) (R : Replicant) :
  replicants σ !! r = Some R ->
  _proposeAssignment r newValue σ
  = (with_sent (sent σ ++ [propose_message r R newValue]) σ, Return tt).
Proof.
  intros HR. unfold _proposeAssignment, bind, this_replicant. rewrite HR.
  reflexivity.
Qed.

(** The actions queued before declaration, run as the acknowledgement of
    the declaration runs them: one proposal each, first in first out. *)
Lemma forEach_run_action (r : rid) (R : Replicant) (queue : list Action) :
  forall σ,
    replicants σ !! r = Some R ->
    forEach (run_action r) queue σ
    = (with_sent
         (sent σ
          ++ map (fun item =>
                    propose_message r R (default VUndefined (head (args item))))
               queue) σ,
       Return tt).
Proof.
  induction queue as [| item queue IH]; intros σ HR; simpl.
  - rewrite app_nil_r. destruct σ; reflexivity.
  - unfold bind. destruct item as [[] a]. unfold run_action. cbn [fn args].
    rewrite (_proposeAssignment_sends r _ σ R HR).
    rewrite IH by exact HR. cbn [sent with_sent].
    rewrite <- app_assoc. reflexivity.
Qed.

Lemma forEach_run_action_witness :
  sent (fst (forEach (run_action 0%nat)
               [{| fn := fn_proposeAssignment; args := [VNumber 1] |};
                {| fn := fn_proposeAssignment; args := [VNumber 2] |}]
               items_state))
  = [propose_message 0%nat
       (replicant_with "score" "bundle" (VRef 2%nat) 5 declared) (VNumber 1);
     propose_message 0%nat
       (replicant_with "score" "bundle" (VRef 2%nat) 5 declared) (VNumber 2)].
Proof.
  rewrite (forEach_run_action 0%nat
             (replicant_with "score" "bundle" (VRef 2%nat) 5 declared)
             _ items_state eq_refl).
  reflexivity.
Defined.

Section RootSet.
Context {ext : External}.

Lemma set_value_identical (r : rid) (σ : state) (R : Replicant) :
  replicants σ !! r = Some R ->
  replicantHandler_set_value r (value R) σ = (σ, Return true).
Proof.
  intros HR. unfold replicantHandler_set_value, bind, this_replicant.
  rewrite HR. destruct (_ignoreProxy R) eqn:Hflag.
  - unfold modify. rewrite (update_replicant_same r _ σ R HR); [reflexivity |].
    destruct R; reflexivity.
  - unfold strict_equal. rewrite bool_decide_eq_true_2 by reflexivity.
    reflexivity.
Qed.

Lemma set_value_suppressed (r : rid) (newValue : val) (σ : state) (R : Replicant) :
  replicants σ !! r = Some R ->
  _ignoreProxy R = true ->
  replicantHandler_set_value r newValue σ
  = (update_replicant r (with_value newValue) σ, Return true).
Proof.
  intros HR Hflag. unfold replicantHandler_set_value, bind, this_replicant.
  rewrite HR, Hflag. reflexivity.
Qed.

Lemma set_value_unfold (r : rid) (newValue : val) (σ : state) (R : Replicant) :
  replicants σ !! r = Some R ->
  _ignoreProxy R = false ->
  newValue <> value R ->
  replicantHandler_set_value r newValue σ
  = bind (validate r newValue true) (fun _ =>
    bind (this_replicant r) (fun R' =>
      if negb (bool_decide (status R' = declared)) then
        bind (_queueAction r fn_proposeAssignment [newValue])
          (fun _ => ret true)
      else bind (_proposeAssignment r newValue) (fun _ => ret true))) σ.
Proof.
  intros HR Hflag Hne. unfold replicantHandler_set_value.
  unfold bind at 1. unfold this_replicant at 1. rewrite HR, Hflag.
  unfold strict_equal. rewrite bool_decide_eq_false_2 by exact Hne.
  reflexivity.
Qed.

(** C6, as the code has it.  Assigning [.value] through the root proxy:
    - the value already held: nothing happens;
    - while the suppression flag is set: the value is written as it is,
      with no validation, no proposal and nothing queued;
    - otherwise, for another value, [validate] runs first, and when it
      throws nothing is sent or queued; when it returns, a declared
      Replicant sends one proposal and any other status queues the
      assignment, which the acknowledgement of the declaration later runs
      as that proposal. *)
Theorem set_value_validates_then_proposes
  (r : rid) (newValue : val) (σ : state) (R : Replicant) :
  replicants σ !! r = Some R ->
  (newValue = value R ->
   replicantHandler_set_value r newValue σ = (σ, Return true))
  /\ (_ignoreProxy R = true ->
      replicantHandler_set_value r newValue σ
      = (update_replicant r (with_value newValue) σ, Return true))
  /\ (_ignoreProxy R = false -> newValue <> value R ->
      (forall σ1 e,
         validate r newValue true σ = (σ1, Throw e) ->
         replicantHandler_set_value r newValue σ = (σ1, Throw e)
         /\ sent σ1 = sent σ
         /\ _actionQueue <$> replicants σ1 !! r = Some (_actionQueue R))
      /\ (forall σ1 valid,
            validate r newValue true σ = (σ1, Return valid) ->
            (status R = declared ->
             replicantHandler_set_value r newValue σ
             = (with_sent (sent σ ++ [propose_message r R newValue]) σ1,
                Return true))
            /\ (status R <> declared ->
                replicantHandler_set_value r newValue σ
                = (update_replicant r (queue_assignment newValue) σ1,
                   Return true)
                /\ run_action r {| fn := fn_proposeAssignment;
                                   args := [newValue] |}
                   = _proposeAssignment r newValue))).
Proof.
  intros HR. split; [| split].
  - intros ->. apply set_value_identical. exact HR.
  - apply set_value_suppressed. exact HR.
  - intros Hflag Hne.
    assert (Hu : forall σ1 o, validate r newValue true σ = (σ1, o) ->
                              untouched σ σ1).
    { intros σ1 o Hv. pose proof (validate_untouched r newValue true σ) as H.
      rewrite Hv in H. exact H. }
    split.
    + intros σ1 e Hv.
      pose proof (untouched_quiet _ _ (Hu _ _ Hv)) as Hq.
      destruct (quiet_replicant _ _ _ _ Hq HR) as (R1 & HR1 & Hstable).
      destruct (stable_fields _ _ Hstable) as (_ & _ & _ & _ & _ & Hqueue & _).
      split; [| split].
      * rewrite (set_value_unfold r newValue σ R) by assumption.
        unfold bind at 1. rewrite Hv. reflexivity.
      * exact (quiet_sent _ _ Hq).
      * rewrite HR1. simpl. rewrite Hqueue. reflexivity.
    + intros σ1 valid Hv.
      pose proof (untouched_quiet _ _ (Hu _ _ Hv)) as Hq.
      destruct (quiet_replicant _ _ _ _ Hq HR) as (R1 & HR1 & Hstable).
      destruct (stable_fields _ _ Hstable)
        as (Hname & Hnamespace & _ & _ & Hstatus & _ & Hsocket & Hopts & Hsum).
      split.
      * intros Hdeclared.
        rewrite (set_value_unfold r newValue σ R) by assumption.
        unfold bind at 1. rewrite Hv.
        unfold bind at 1. unfold this_replicant at 1. rewrite HR1.
        rewrite Hstatus, Hdeclared. cbn [negb bool_decide decide_rel].
        rewrite bool_decide_eq_true_2 by reflexivity. cbn [negb].
        unfold bind. rewrite (_proposeAssignment_sends r newValue σ1 R1 HR1).
        unfold propose_message.
        rewrite Hname, Hnamespace, Hsocket, Hopts, Hsum, (quiet_sent _ _ Hq).
        reflexivity.
      * intros Hundeclared. split; [| reflexivity].
        rewrite (set_value_unfold r newValue σ R) by assumption.
        unfold bind at 1. rewrite Hv.
        unfold bind at 1. unfold this_replicant at 1. rewrite HR1.
        rewrite Hstatus.
        rewrite bool_decide_eq_false_2 by exact Hundeclared. cbn [negb].
        reflexivity.
Qed.

End RootSet.

(** The counterexample to C6 as stated.  The Replicant object 0 of
    [suppressed_state] is declared and its validator rejects every value,
    yet assigning it the new value 2 validates nothing, proposes nothing and
    queues nothing: the value is written as it is. *)
Lemma set_value_counterexample :
  snd (@_handleOperations Sample.library 2 0%nat (batch 6 [bogus_operation])
         validated_state)
  = Throw (Err ("Unexpected operation method " ++ quote ++ "bogus" ++ quote))
  /\ _ignoreProxy <$> replicants suppressed_state !! 0%nat = Some true
  /\ replicantHandler_set_value 0%nat (VNumber 2) suppressed_state
     = (update_replicant 0%nat (with_value (VNumber 2)) suppressed_state,
        Return true)
  /\ sent (update_replicant 0%nat (with_value (VNumber 2)) suppressed_state) = []
  /\ (fun R => (value R, validationErrors R, _actionQueue R))
       <$> replicants
             (update_replicant 0%nat (with_value (VNumber 2)) suppressed_state)
           !! 0%nat
     = Some (VNumber 2, [], []).
Proof. repeat split. Qed.

Lemma set_value_validates_then_proposes_witness :
  replicantHandler_set_value 0%nat (VNumber 2) items_state
  = (with_sent
       [propose_message 0%nat
          (replicant_with "score" "bundle" (VRef 2%nat) 5 declared)
          (VNumber 2)]
       items_state,
     Return true).
Proof.
  destruct (set_value_validates_then_proposes 0%nat (VNumber 2) items_state
              (replicant_with "score" "bundle" (VRef 2%nat) 5 declared)
              eq_refl) as (_ & _ & Hother).
  destruct (Hother eq_refl ltac:(discriminate)) as [_ Hreturned].
  destruct (Hreturned items_state true eq_refl) as [Hdeclared _].
  exact (Hdeclared eq_refl).
Defined.

(** ** The registry of declared Replicants (the constructor) *)

Lemma own_property_ordinary {A} (o : gmap string A) (key : string) :
  ordinary key -> own_property o key = o !! key.
Proof.
  intros Hkey. unfold own_property.
  destruct (String.eqb_spec key "__proto__"); [contradiction | reflexivity].
Qed.

Lemma this_replicant_last (l : list Replicant) (σ : state) (R : Replicant) :
  replicants σ = (l ++ [R])%list ->
  this_replicant (length l) σ = (σ, Return R).
Proof.
  intros Hσ. unfold this_replicant. rewrite Hσ, list_lookup_middle by reflexivity.
  reflexivity.
Qed.

Lemma update_replicant_last
  (f : Replicant -> Replicant) (σ : state) (l : list Replicant) (R : Replicant) :
  replicants σ = (l ++ [R])%list ->
  update_replicant (length l) f σ = with_replicants (l ++ [f R]) σ.
Proof.
  intros Hl. unfold update_replicant. f_equal. rewrite Hl.
  apply list_eq. intros i.
  destruct (decide (length l = i)) as [<- | Hne].
  - rewrite list_lookup_alter_eq.
    rewrite !lookup_app_r by lia. rewrite Nat.sub_diag. reflexivity.
  - rewrite list_lookup_alter_ne by exact Hne.
    destruct (decide (i < length l)%nat).
    + rewrite !lookup_app_l by lia. reflexivity.
    + rewrite !lookup_app_r by lia.
      destruct (i - length l)%nat as [| k] eqn:E; [lia | reflexivity].
Qed.

(** The steps of the constructor past the registry test, on the object it
    has just built, when the last of them writes to an object of the
    registry. *)
Lemma construct_steps
  (nm ns : string) (o : ReplicantOptions) (socket : sid) (σ : state)
  (d : gmap string (gmap string nat)) (inner inner' : gmap string nat) :
  let this := length (replicants σ) in
  d !! ns = Some inner ->
  assign_instance inner nm this = Some inner' ->
  bind (modify (update_replicant this option_defaults)) (fun _ =>
  bind (on this "newListener") (fun _ =>
  bind (_declare this) (fun _ =>
  bind (registerSocketOperations this socket) (fun _ =>
  bind get_state (fun σ' =>
    match declaredReplicants σ' !! ns with
    | Some inner =>
        match assign_instance inner nm this with
        | Some inner' =>
            bind (modify (with_declaredReplicants
                            (<[ns := inner']> (declaredReplicants σ'))))
              (fun _ => ret this)
        | None => unmodelled
        end
    | None => throw (TypeError "Cannot set properties of undefined")
    end)))))
    (with_declaredReplicants d
       (with_replicants (replicants σ ++ [new_object nm ns o socket]) σ))
  = (with_declaredReplicants (<[ns := inner']> d)
       (constructed nm ns o socket σ),
     Return this).
Proof.
  intros this Hd Hassign. subst this.
  unfold bind at 1. unfold modify at 1.
  erewrite update_replicant_last by reflexivity.
  unfold bind at 1. unfold on.
  unfold bind at 1. erewrite this_replicant_last by reflexivity.
  change ("newListener" =? "change")%string with false. cbn [andb].
  assert (Hcount : count_listeners
                     (option_defaults (new_object nm ns o socket))
                     "newListener" = 0%nat).
  { unfold count_listeners. cbn [listenerCount option_defaults with_opts
                                  new_object].
    rewrite lookup_empty. reflexivity. }
  rewrite Hcount. change (0 <? 0)%nat with false.
  unfold bind at 1. unfold ret at 1.
  unfold bind at 1. unfold ret at 1.
  unfold modify at 1.
  erewrite update_replicant_last by reflexivity.
  unfold bind at 1.
  erewrite (_declare_undeclared (length (replicants σ)));
    [| cbn [replicants with_replicants]; apply list_lookup_middle; reflexivity
     | reflexivity].
  erewrite update_replicant_last by reflexivity.
  unfold registerSocketOperations.
  unfold bind at 1. unfold modify at 1.
  unfold bind at 1. unfold get_state at 1.
  cbn [declaredReplicants with_declaredReplicants with_subscriptions
       with_sent with_replicants].
  rewrite Hd, Hassign.
  unfold bind at 1. unfold modify at 1.
  reflexivity.
Qed.

(** A registered pair: the constructor hands out the registered instance
    and leaves the object it made as made. *)
Lemma constructor_registered
  (nm ns : string) (o : ReplicantOptions) (socket : sid) (σ : state)
  (existing : rid) :
  registered σ ns nm = Some existing ->
  Replicant_constructor nm ns o socket σ
  = (with_replicants (replicants σ ++ [new_object nm ns o socket]) σ,
     Return existing).
Proof.
  unfold registered. intros Hreg.
  unfold Replicant_constructor, bind, get_state, modify.
  cbn [declaredReplicants with_replicants].
  destruct (own_property (declaredReplicants σ) ns) as [inner |];
    [| discriminate].
  rewrite Hreg. reflexivity.
Qed.

(** The constructor on a pair that is not registered, name and namespace
    being other than ['__proto__']. *)
Lemma constructor_fresh
  (nm ns : string) (o : ReplicantOptions) (socket : sid) (σ : state) :
  ordinary nm -> ordinary ns -> trap_free σ ->
  registered σ ns nm = None ->
  Replicant_constructor nm ns o socket σ
  = (constructed nm ns o socket σ, Return (length (replicants σ))).
Proof.
  unfold registered. intros Hnm Hns Hfree Hfresh.
  unfold Replicant_constructor.
  unfold bind at 1. unfold get_state at 1.
  unfold bind at 1. unfold modify at 1.
  rewrite (own_property_ordinary _ ns Hns) in *.
  destruct (declaredReplicants σ !! ns) as [inner |] eqn:Hinner.
  - rewrite Hfresh.
    assert (Hassign : assign_instance inner nm (length (replicants σ))
                      = Some (<[nm := length (replicants σ)]> inner)).
    { unfold assign_instance. rewrite Hfresh, (Hfree ns inner Hinner).
      reflexivity. }
    pose proof (construct_steps nm ns o socket σ (declaredReplicants σ)
                  inner _ Hinner Hassign) as H.
    cbv zeta in H.
    replace (with_declaredReplicants (declaredReplicants σ)
               (with_replicants
                  (replicants σ ++ [new_object nm ns o socket]) σ))
      with (with_replicants (replicants σ ++ [new_object nm ns o socket]) σ)
      in H by (destruct σ; reflexivity).
    etransitivity; [exact H |].
    unfold constructed. rewrite Hinner. reflexivity.
  - assert (Hnamespace : assign_namespace (declaredReplicants σ) ns
                         = Some (<[ns := ∅]> (declaredReplicants σ))).
    { unfold assign_namespace.
      rewrite (own_property_ordinary _ ns Hns), Hinner.
      destruct (prototype_of (declaredReplicants σ)) as [inherited |] eqn:Hp;
        [| reflexivity].
      rewrite (Hfree _ _ Hp).
      destruct (own_property inherited ns); reflexivity. }
    rewrite Hnamespace.
    unfold bind at 1. unfold modify at 1.
    assert (Hassign : assign_instance (∅ : gmap string nat) nm
                        (length (replicants σ))
                      = Some (<[nm := length (replicants σ)]> ∅)).
    { unfold assign_instance, prototype_of.
      rewrite (own_property_ordinary _ nm Hnm), !lookup_empty. reflexivity. }
    pose proof (construct_steps nm ns o socket σ
                  (<[ns := ∅]> (declaredReplicants σ)) ∅ _
                  (lookup_insert_eq _ _ _) Hassign) as H.
    cbv zeta in H. rewrite insert_insert_eq in H.
    etransitivity; [exact H |].
    unfold constructed. rewrite Hinner. reflexivity.
Qed.

Lemma constructed_registered
  (nm ns : string) (o : ReplicantOptions) (socket : sid) (σ : state) :
  ordinary nm -> ordinary ns ->
  registered (constructed nm ns o socket σ) ns nm
  = Some (length (replicants σ)).
Proof.
  intros Hnm Hns. unfold registered, constructed.
  cbn [declaredReplicants with_declaredReplicants].
  rewrite (own_property_ordinary _ ns Hns), lookup_insert_eq.
  rewrite (own_property_ordinary _ nm Hnm), lookup_insert_eq. reflexivity.
Qed.

Lemma constructed_others
  (nm ns : string) (o : ReplicantOptions) (socket : sid) (σ : state)
  (ns' nm' : string) :
  (ns', nm') <> (ns, nm) ->
  registered (constructed nm ns o socket σ) ns' nm' = registered σ ns' nm'.
Proof.
  intros Hne. unfold registered, constructed, own_property.
  cbn [declaredReplicants with_declaredReplicants].
  destruct (String.eqb ns' "__proto__"); [reflexivity |].
  destruct (decide (ns' = ns)) as [-> | Hns].
  - rewrite lookup_insert_eq.
    assert (Hnm : nm <> nm') by congruence.
    destruct (String.eqb nm' "__proto__").
    + destruct (declaredReplicants σ !! ns); reflexivity.
    + rewrite lookup_insert_ne by exact Hnm.
      destruct (declaredReplicants σ !! ns); [reflexivity |].
      apply lookup_empty.
  - rewrite lookup_insert_ne by congruence. reflexivity.
Qed.

Lemma constructed_trap_free
  (nm ns : string) (o : ReplicantOptions) (socket : sid) (σ : state) :
  ordinary nm -> trap_free σ -> trap_free (constructed nm ns o socket σ).
Proof.
  intros Hnm Hfree key inner. unfold constructed.
  cbn [declaredReplicants with_declaredReplicants].
  destruct (decide (key = ns)) as [-> | Hne].
  - rewrite lookup_insert_eq. intros [= <-]. unfold prototype_of.
    rewrite lookup_insert_ne by exact Hnm.
    destruct (declaredReplicants σ !! ns) as [inner |] eqn:Hinner.
    + exact (Hfree ns inner Hinner).
    + apply lookup_empty.
  - rewrite lookup_insert_ne by congruence. apply Hfree.
Qed.

(** One instance per pair, for names and namespaces other than
    ['__proto__'] in a process where no Replicant was constructed under that
    name: a construction request for a pair that is registered returns the
    registered instance itself and does nothing else; and every request
    returns an instance and leaves the pair registered to it, so that every
    later request for the pair returns that same instance. *)
Lemma constructor_ordinary_pair
  (nm ns : string) (o : ReplicantOptions) (socket : sid) (σ : state) :
  (forall existing,
     registered σ ns nm = Some existing ->
     let σ' := with_replicants (replicants σ ++ [new_object nm ns o socket]) σ in
     Replicant_constructor nm ns o socket σ = (σ', Return existing)
     /\ declaredReplicants σ' = declaredReplicants σ
     /\ sent σ' = sent σ
     /\ subscriptions σ' = subscriptions σ
     /\ (forall i R, replicants σ !! i = Some R -> replicants σ' !! i = Some R)
     /\ opts (new_object nm ns o socket) = o
     /\ status (new_object nm ns o socket) = undeclared)
  /\ (ordinary nm -> ordinary ns -> trap_free σ ->
      exists σ1 instance,
        Replicant_constructor nm ns o socket σ = (σ1, Return instance)
        /\ registered σ1 ns nm = Some instance
        /\ trap_free σ1
        /\ forall o' socket',
             Replicant_constructor nm ns o' socket' σ1
             = (with_replicants
                  (replicants σ1 ++ [new_object nm ns o' socket']) σ1,
                Return instance)).
Proof.
  split.
  - intros existing Hreg σ'. repeat split.
    + apply constructor_registered. exact Hreg.
    + intros i R Hi. subst σ'. cbn [replicants with_replicants].
      apply lookup_app_l_Some. exact Hi.
  - intros Hnm Hns Hfree.
    destruct (registered σ ns nm) as [existing |] eqn:Hreg.
    + eexists _, existing.
      split; [apply constructor_registered; exact Hreg |].
      split; [exact Hreg |]. split; [exact Hfree |].
      intros o' socket'. apply constructor_registered. exact Hreg.
    + exists (constructed nm ns o socket σ), (length (replicants σ)).
      split; [apply constructor_fresh; assumption |].
      split; [apply constructed_registered; assumption |].
      split; [apply constructed_trap_free; assumption |].
      intros o' socket'. apply constructor_registered.
      apply constructed_registered; assumption.
Qed.

(** C2 at failing inputs: the name or the namespace ['__proto__'], in a
    process that has constructed nothing yet.

    Namespace ['__proto__']: [declaredReplicants['__proto__'] = {}] replaces
    the prototype of the registry and makes no own property, so the test
    [hasOwnProperty.call(declaredReplicants, '__proto__')] fails at every
    request.  Two requests for the pair ('__proto__', 'score') return two
    instances, both built and declared, and the pair is never registered.

    Name ['__proto__']: [declaredReplicants.bundle['__proto__'] = proxy]
    makes the first instance the prototype of the object of the namespace
    and makes no own property, so the pair ('bundle', '__proto__') is not
    registered either, and the second request does not return the first
    instance: it builds and declares a second object. *)
Theorem constructor_proto_pair :
  let o := {| persistent := None; persistenceInterval := None |} in
  (let first := Replicant_constructor "score" "__proto__" o 0%nat empty_state in
   let second :=
     Replicant_constructor "score" "__proto__" o 0%nat (fst first) in
   snd first = Return 0%nat
   /\ registered (fst first) "__proto__" "score" = None
   /\ snd second = Return 1%nat
   /\ registered (fst second) "__proto__" "score" = None
   /\ replicants (fst second)
      = [constructed_object "score" "__proto__" o 0%nat;
         constructed_object "score" "__proto__" o 0%nat]
   /\ sent (fst second)
      = [joinRoom_message 0%nat (new_object "score" "__proto__" o 0%nat);
         joinRoom_message 1%nat (new_object "score" "__proto__" o 0%nat)])
  /\ (let first := Replicant_constructor "__proto__" "bundle" o 0%nat empty_state in
      let second :=
        Replicant_constructor "__proto__" "bundle" o 0%nat (fst first) in
      snd first = Return 0%nat
      /\ registered (fst first) "bundle" "__proto__" = None
      /\ snd second <> Return 0%nat
      /\ replicants (fst second)
         = [constructed_object "__proto__" "bundle" o 0%nat;
            constructed_object "__proto__" "bundle" o 0%nat]
      /\ sent (fst second)
         = [joinRoom_message 0%nat (new_object "__proto__" "bundle" o 0%nat);
            joinRoom_message 1%nat (new_object "__proto__" "bundle" o 0%nat)]).
Proof.
  cbv zeta. split.
  - repeat split; vm_compute; reflexivity.
  - split; [vm_compute; reflexivity |]. split; [vm_compute; reflexivity |].
    split; [vm_compute; discriminate |].
    split; vm_compute; reflexivity.
Qed.

(** ** One owner per object ([assertSingleOwner], [proxyRecursive]) *)

Lemma set_prop_same (ps : list (string * val)) (key : string) (v : val) :
  get_prop ps key = Some v -> set_prop ps key v = ps.
Proof.
  induction ps as [| [k w] ps IH]; simpl; [discriminate |].
  destruct (String.eqb_spec k key) as [-> | Hne].
  - intros [= ->]. reflexivity.
  - intros H. rewrite IH by exact H. reflexivity.
Qed.

Lemma get_prop_middle (before after : list (string * val)) (key : string) (v : val) :
  key ∉ map fst before ->
  get_prop (before ++ (key, v) :: after) key = Some v.
Proof.
  induction before as [| [k w] before IH]; simpl; intros Hnotin.
  - rewrite String.eqb_refl. reflexivity.
  - destruct (String.eqb_spec k key) as [-> | Hne].
    + exfalso. apply Hnotin. left.
    + apply IH. intros Hin. apply Hnotin. right. exact Hin.
Qed.

Lemma get_prop_before (before rest : list (string * val)) (key : string) :
  key ∈ map fst before ->
  exists v, get_prop (before ++ rest) key = Some v /\ (key, v) ∈ before.
Proof.
  induction before as [| [k w] before IH]; simpl; intros Hin.
  - inversion Hin.
  - destruct (String.eqb_spec k key) as [-> | Hne].
    + exists w. split; [reflexivity | left].
    + inversion Hin as [| ? ? ? Hin']; subst; [contradiction |].
      destruct (IH Hin') as (v & Hv & Hmem). exists v.
      split; [exact Hv | right; exact Hmem].
Qed.

Lemma raw_set_same (l : loc) (key : string) (v : val) (σ : state) (o : object) :
  heap σ !! l = Some (Raw o) ->
  get_prop (props o) key = Some v ->
  raw_set l key v σ = σ.
Proof.
  intros Hl Hkey. unfold raw_set. rewrite Hl.
  rewrite (set_prop_same _ _ _ Hkey).
  replace {| isArray := isArray o; props := props o |} with o
    by (destruct o; reflexivity).
  rewrite list_insert_id by exact Hl. destruct σ; reflexivity.
Qed.

Section SingleOwner.
Context {ext : External}.



Lemma proxyRecursive_primitive
  (fuel : nat) (r : rid) (v : val) (pth : string) (σ : state) :
  primitive v -> proxyRecursive (S fuel) r v pth σ = (σ, Return v).
Proof. destruct v; simpl; [reflexivity .. | contradiction]. Qed.

Lemma proxyRecursive_fresh
  (fuel : nat) (r : rid) (l : loc) (pth : string) (σ : state) :
  l ∉ proxySet σ ->
  metadataMap σ !! l = None ->
  proxyRecursive (S fuel) r (VRef l) pth σ
  = bind (new_proxy r l pth) (fun p =>
    bind get_state (fun σ1 =>
    bind (forEach (wrap_member fuel r l pth) (own_keys σ1 l))
      (fun _ => ret p))) σ.
Proof.
  intros Hproxy Hraw. cbn [proxyRecursive].
  unfold bind at 1. unfold assertSingleOwner at 1.
  unfold bind at 1. unfold get_state at 1.
  destruct (decide (l ∈ proxySet σ)); [contradiction |].
  rewrite Hraw.
  destruct (decide (is_Some (@None nat))) as [[? [=]] | _].
  unfold ret at 1. unfold bind at 1. unfold get_state at 1.
  destruct (decide (l ∈ proxySet σ)); [contradiction |].
  rewrite Hraw.
  destruct (decide (is_Some (@None nat))) as [[? [=]] | _].
  reflexivity.
Qed.

Lemma wrap_member_primitive
  (fuel : nat) (r : rid) (l : loc) (pth key : string) (σ : state)
  (o : object) (v : val) :
  heap σ !! l = Some (Raw o) ->
  get_prop (props o) key = Some v ->
  primitive v ->
  wrap_member (S fuel) r l pth key σ = (σ, Return tt).
Proof.
  intros Hl Hkey Hprim. unfold wrap_member, bind, get_state.
  unfold hasOwn, target_of, raw_hasOwn. rewrite Hl, Hl, Hkey.
  rewrite bool_decide_eq_true_2 by eauto. cbn [negb].
  unfold get_member, raw_get. rewrite Hl, Hkey. cbn [default].
  rewrite proxyRecursive_primitive by exact Hprim.
  unfold set_member, bind, get_state. rewrite Hl. unfold modify.
  change (id v) with v.
  rewrite (raw_set_same l key v σ o) by assumption. reflexivity.
Qed.



End SingleOwner.

Section SingleOwnerMember.
Context {ext : External}.



End SingleOwnerMember.

(** ** The path codec *)

(** C3 at failing inputs.  The member ['a/b'] of the root is recorded under
    the path ['/a~1b'], which reads back as the one segment ['a/b']; but
    writing that segment gives ['/a/b'], another path, which reads as two
    segments. *)
Lemma path_round_trip_fails :
  joinPathParts "/" (JS.replace_slash "a/b") = "/a~1b"
  /\ pathStrToPathArr "/a~1b" = ["a/b"]
  /\ pathArrToPathStr (pathStrToPathArr "/a~1b") = "/a/b"
  /\ pathStrToPathArr (pathArrToPathStr ["a/b"]) = ["a"; "b"].
Proof. repeat split. Qed.

Lemma plain_cons (a b : ascii) (t : string) :
  plain (String a (String b t))
  = negb (Ascii.eqb a "~" && Ascii.eqb b "1") && plain (String b t).
Proof. reflexivity. Qed.

Lemma plain_tail (a : ascii) (t : string) :
  plain (String a t) = true -> plain t = true.
Proof.
  destruct t as [| b t]; [reflexivity |].
  cbn [plain]. intros H. apply andb_true_iff in H. exact (proj2 H).
Qed.

Lemma replace_tilde1_plain (s : string) :
  plain s = true -> JS.replace_tilde1 s = s.
Proof.
  induction s as [| a t IH]; [reflexivity |].
  intros Hplain. pose proof (plain_tail a t Hplain) as Htail.
  destruct t as [| b t']; [reflexivity |].
  cbn [plain] in Hplain. apply andb_true_iff in Hplain.
  destruct Hplain as [Hescape _]. apply negb_true_iff in Hescape.
  cbn [JS.replace_tilde1]. rewrite Hescape.
  f_equal. apply IH. exact Htail.
Qed.

Lemma split_not_nil (s : string) : JS.split s <> [].
Proof.
  destruct s as [| a t]; simpl; [discriminate |].
  destruct (Ascii.eqb a "/"); [discriminate |].
  destruct (JS.split t); discriminate.
Qed.

Lemma join_split (s : string) : JS.join (JS.split s) = s.
Proof.
  unfold JS.join. induction s as [| a t IH]; [reflexivity |].
  cbn [JS.split]. destruct (Ascii.eqb_spec a "/") as [-> | Hne].
  - destruct (JS.split t) as [| h r] eqn:E; [destruct (split_not_nil t E) |].
    cbn [String.concat]. rewrite <- IH. reflexivity.
  - destruct (JS.split t) as [| h r] eqn:E; [destruct (split_not_nil t E) |].
    cbn [String.concat]. cbn [String.concat] in IH.
    destruct r; rewrite <- IH; reflexivity.
Qed.

(** The first segment of a string starts as the string does. *)
Lemma split_head (s : string) (b : ascii) (h : string) (r : list string) :
  JS.split s = String b h :: r -> exists t, s = String b t.
Proof.
  destruct s as [| a t]; simpl; [discriminate |].
  destruct (Ascii.eqb a "/"); [discriminate |].
  destruct (JS.split t); intros [= -> _ _]; eauto.
Qed.

Lemma split_plain (s : string) :
  plain s = true -> Forall (fun x => plain x = true) (JS.split s).
Proof.
  induction s as [| a t IH]; intros Hplain.
  - repeat constructor.
  - pose proof (IH (plain_tail a t Hplain)) as Ht.
    cbn [JS.split]. destruct (Ascii.eqb a "/").
    + constructor; [reflexivity | exact Ht].
    + destruct (JS.split t) as [| h r] eqn:E; [repeat constructor |].
      inversion Ht as [| ? ? Hh Hr]; subst.
      constructor; [| exact Hr].
      destruct h as [| b h']; [reflexivity |].
      destruct (split_head t b h' r E) as (t' & ->).
      rewrite plain_cons in Hplain |- *.
      apply andb_true_iff in Hplain. destruct Hplain as [Hescape _].
      rewrite Hescape, Hh. reflexivity.
Qed.

Lemma map_replace_tilde1_plain (l : list string) :
  Forall (fun x => plain x = true) l -> map JS.replace_tilde1 l = l.
Proof.
  induction 1 as [| x l Hx _ IH]; [reflexivity |].
  simpl. rewrite IH, (replace_tilde1_plain x Hx). reflexivity.
Qed.

(** The round trip of C3 where it does hold: a path that starts with one
    ['/'] and holds no escape ['~1'] is read and written back as itself. *)
Lemma path_round_trip_plain (q : string) :
  plain q = true ->
  (forall t, q <> String "/" t) ->
  pathArrToPathStr (pathStrToPathArr (String "/" q)) = String "/" q.
Proof.
  intros Hplain Hstart.
  unfold pathStrToPathArr. cbn [JS.substr1].
  rewrite (map_replace_tilde1_plain _ (split_plain q Hplain)).
  pose proof (join_split q) as Hjoin.
  assert (Hwritten : pathArrToPathStr (JS.split q) = String "/" q).
  { unfold pathArrToPathStr. rewrite Hjoin.
    destruct q as [| a t]; [reflexivity |].
    cbn [JS.charAt0].
    destruct (String.eqb_spec (String a EmptyString) "/") as [[= ->] | _].
    - destruct (Hstart t eq_refl).
    - reflexivity. }
  destruct (JS.split q) as [| h [| h' r]] eqn:E.
  - destruct (split_not_nil q E).
  - destruct h as [| b h]; [| exact Hwritten].
    unfold JS.join in Hjoin. cbn [String.concat] in Hjoin. subst q.
    reflexivity.
  - destruct h; exact Hwritten.
Qed.

Lemma path_round_trip_plain_witness :
  pathArrToPathStr (pathStrToPathArr "/items/0/name") = "/items/0/name".
Proof.
  apply (path_round_trip_plain "items/0/name"); [reflexivity | discriminate].
Defined.

(** ** The path codec, both ways *)

Lemma split_app_slash (a b : string) :
  JS.split (a ++ String "/" b) = (JS.split a ++ JS.split b)%list.
Proof.
  induction a as [| c a IH].
  - reflexivity.
  - change (String c a ++ String "/" b) with (String c (a ++ String "/" b)).
    cbn [JS.split].
    destruct (Ascii.eqb c "/").
    + rewrite IH. reflexivity.
    + rewrite IH. destruct (JS.split a) as [| h r] eqn:E.
      * destruct (split_not_nil a E).
      * reflexivity.
Qed.

Lemma split_slashless (s : string) : slashless s = true -> JS.split s = [s].
Proof.
  induction s as [| c s IH]; cbn [slashless JS.split]; [reflexivity |].
  intros [Hc Hs]%andb_prop.
  destruct (Ascii.eqb c "/"); [discriminate |].
  rewrite (IH Hs). reflexivity.
Qed.

Lemma replace_slash_slashless (key : string) :
  slashless (JS.replace_slash key) = true.
Proof.
  induction key as [| c key IH]; cbn [JS.replace_slash]; [reflexivity |].
  destruct (Ascii.eqb c "/") eqn:E; cbn [slashless].
  - exact IH.
  - rewrite E. exact IH.
Qed.

(** Escaping the separators of a key and reading the escapes back gives the
    key, when the key holds no escape of its own. *)
Lemma replace_slash_inverse (key : string) :
  plain key = true -> JS.replace_tilde1 (JS.replace_slash key) = key.
Proof.
  induction key as [| c key IH]; [reflexivity |].
  intros Hplain. pose proof (plain_tail _ _ Hplain) as Htail.
  specialize (IH Htail).
  cbn [JS.replace_slash].
  destruct (Ascii.eqb_spec c "/") as [-> | Hc].
  - cbn [JS.replace_tilde1]. cbn. rewrite IH. reflexivity.
  - destruct key as [| b key]; [reflexivity |].
    rewrite plain_cons in Hplain. apply andb_prop in Hplain as [Hab _].
    cbn [JS.replace_slash] in *.
    destruct (Ascii.eqb_spec b "/") as [-> | Hb].
    + cbn [JS.replace_tilde1] in *.
      replace (Ascii.eqb c "~" && Ascii.eqb "~" "1") with false
        by (rewrite andb_false_r; reflexivity).
      rewrite IH. reflexivity.
    + change (JS.replace_tilde1 (String c (String b (JS.replace_slash key))))
        with (if Ascii.eqb c "~" && Ascii.eqb b "1"
              then String "/" (JS.replace_tilde1 (JS.replace_slash key))
              else String c (JS.replace_tilde1
                               (String b (JS.replace_slash key)))).
      apply negb_true_iff in Hab. rewrite Hab, IH. reflexivity.
Qed.

Lemma split_one (q x : string) : JS.split q = [x] -> x = q.
Proof.
  intros E. pose proof (join_split q) as H. rewrite E in H. exact H.
Qed.

Lemma replace_tilde1_empty (x : string) :
  JS.replace_tilde1 x = EmptyString -> x = EmptyString.
Proof.
  destruct x as [| a [| b t]]; cbn [JS.replace_tilde1]; try discriminate;
    [reflexivity |].
  destruct (Ascii.eqb a "~" && Ascii.eqb b "1"); discriminate.
Qed.

Lemma endsWithSlash_cons (a : ascii) (q : string) :
  q <> EmptyString -> JS.endsWithSlash (String a q) = JS.endsWithSlash q.
Proof. destruct q; [congruence | reflexivity]. Qed.

(** The path [proxyRecursive] records for the member [key] of a node reads
    back, through [pathStrToPathArr], as the segments of the node followed
    by [key]. *)
Theorem child_path_segments (q key : string) :
  JS.endsWithSlash q = false ->
  plain key = true ->
  key <> EmptyString ->
  pathStrToPathArr (joinPathParts (String "/" q) (JS.replace_slash key))
  = (pathStrToPathArr (String "/" q) ++ [key])%list.
Proof.
  intros Hend Hplain Hkey.
  pose proof (replace_slash_inverse key Hplain) as Hinv.
  pose proof (split_slashless _ (replace_slash_slashless key)) as Hone.
  destruct q as [| a q].
  - change (joinPathParts "/" (JS.replace_slash key))
      with (String "/" (JS.replace_slash key)).
    unfold pathStrToPathArr. cbn [JS.substr1].
    rewrite Hone. cbn [map]. rewrite Hinv.
    destruct key; [congruence | reflexivity].
  - assert (Hjoin : joinPathParts (String "/" (String a q)) (JS.replace_slash key)
                    = String "/" (String a q ++ String "/" (JS.replace_slash key))).
    { unfold joinPathParts.
      rewrite endsWithSlash_cons by discriminate. rewrite Hend. reflexivity. }
    rewrite Hjoin. unfold pathStrToPathArr. cbn [JS.substr1].
    rewrite split_app_slash, Hone, map_app. cbn [map]. rewrite Hinv.
    destruct (JS.split (String a q)) as [| h [| h' r]] eqn:E.
    + destruct (split_not_nil _ E).
    + apply split_one in E. subst h. cbn [map app].
      destruct (JS.replace_tilde1 (String a q)) eqn:E'.
      * apply replace_tilde1_empty in E'. discriminate.
      * reflexivity.
    + cbn [map app]. destruct (JS.replace_tilde1 h); reflexivity.
Qed.

Lemma child_path_segments_witness :
  pathStrToPathArr (joinPathParts "/teams" (JS.replace_slash "home/away"))
  = ["teams"; "home/away"].
Proof.
  apply (child_path_segments "teams" "home/away");
    [reflexivity | reflexivity | discriminate].
Defined.

Lemma join_cons (x y : string) (r : list string) :
  JS.join (x :: y :: r) = x ++ String "/" (JS.join (y :: r)).
Proof. reflexivity. Qed.

Lemma split_join (l : list string) :
  l <> [] -> Forall segment l -> JS.split (JS.join l) = l.
Proof.
  intros Hl Hseg. induction Hseg as [| x l [Hx _] Hrest IH]; [congruence |].
  destruct l as [| y r].
  - unfold JS.join. cbn [String.concat]. apply split_slashless. exact Hx.
  - rewrite join_cons, split_app_slash, IH by discriminate.
    rewrite (split_slashless x Hx). reflexivity.
Qed.

(** Writing an array path and reading it back gives the array, for segments
    that hold no ['/'] and no ['~1'], the first of them not empty. *)
Theorem path_array_round_trip (l : list string) :
  Forall segment l ->
  head l <> Some EmptyString ->
  pathStrToPathArr (pathArrToPathStr l) = l.
Proof.
  intros Hseg Hhead.
  destruct l as [| x l]; [reflexivity |].
  assert (Hx : x <> EmptyString) by (intros ->; apply Hhead; reflexivity).
  assert (Hstr : pathArrToPathStr (x :: l) = String "/" (JS.join (x :: l))).
  { unfold pathArrToPathStr.
    assert (Hjoin : exists c t, JS.join (x :: l) = String c t
                                /\ Ascii.eqb c "/" = false) .
    { inversion Hseg as [| ? ? [Hsl _] _]; subst.
      destruct x as [| c t]; [congruence |].
      cbn [slashless] in Hsl. apply andb_prop in Hsl as [Hc _].
      apply negb_true_iff in Hc.
      destruct l; [exists c, t | eexists c, _]; split; try exact Hc.
      - reflexivity.
      - rewrite join_cons. reflexivity. }
    destruct Hjoin as (c & t & -> & Hc). cbn [JS.charAt0].
    destruct (String.eqb_spec (String c EmptyString) "/") as [[= ->] | _].
    - discriminate.
    - reflexivity. }
  rewrite Hstr. unfold pathStrToPathArr. cbn [JS.substr1].
  rewrite split_join by (discriminate || assumption).
  rewrite map_replace_tilde1_plain.
  - destruct x; [congruence |]. destruct l; reflexivity.
  - eapply Forall_impl; [exact Hseg |]. intros s [_ Hp]. exact Hp.
Qed.

Lemma path_array_round_trip_witness :
  pathStrToPathArr (pathArrToPathStr ["items"; "0"; "name"])
  = ["items"; "0"; "name"].
Proof.
  apply (path_array_round_trip ["items"; "0"; "name"]).
  - repeat constructor.
  - discriminate.
Defined.

(** ** Wrapping flat objects ([assertSingleOwner], [proxyRecursive]) *)

Section FlatObjects.
Context {ext : External}.

(** [assertSingleOwner] accepts an object exactly when the object has no
    Metadata object or that Metadata object names the Replicant at hand, and
    it never changes anything. *)
Theorem assertSingleOwner_accepts (r : rid) (l : loc) (σ : state) :
  (assertSingleOwner r l σ = (σ, Return tt)
   <-> forall md, owner_metadata σ l = Some md -> replicant md = r)
  /\ fst (assertSingleOwner r l σ) = σ.
Proof.
  split; [| apply assertSingleOwner_state].
  unfold owner_metadata. split.
  - intros H md Hmd.
    destruct (assertSingleOwner_returns r l σ σ tt H) as (_ & Hproxy & Hraw).
    destruct (decide (l ∈ proxySet σ)); eauto.
  - intros Hown.
    unfold assertSingleOwner, bind, get_state, ret.
    destruct (decide (l ∈ proxySet σ)).
    + destruct (metadata_at σ (proxyMetadataMap σ !! l)) as [md |];
        [| reflexivity].
      destruct (decide (replicant md ≠ r)) as [Hne | _]; [| reflexivity].
      destruct (Hne (Hown md eq_refl)).
    + destruct (decide (is_Some (metadataMap σ !! l))); [| reflexivity].
      destruct (metadata_at σ (metadataMap σ !! l)) as [md |];
        [| reflexivity].
      destruct (decide (replicant md ≠ r)) as [Hne | _]; [| reflexivity].
      destruct (Hne (Hown md eq_refl)).
Qed.

Lemma forEach_unchanged {A} (f : A -> M unit) (l : list A) (σ : state) :
  (forall a, a ∈ l -> f a σ = (σ, Return tt)) ->
  forEach f l σ = (σ, Return tt).
Proof.
  induction l as [| a l IH]; intros Hf; simpl; [reflexivity |].
  unfold bind. rewrite Hf by left. apply IH.
  intros b Hb. apply Hf. right. exact Hb.
Qed.

Lemma flat_member (o : object) (key : string) :
  flat o -> key ∈ map fst (props o) ->
  exists v, get_prop (props o) key = Some v /\ primitive v.
Proof.
  unfold flat. intros Hflat Hkey.
  destruct (get_prop_before (props o) [] key Hkey) as (v & Hv & Hmem).
  rewrite app_nil_r in Hv. exists v. split; [exact Hv |].
  rewrite Forall_forall in Hflat. exact (Hflat _ Hmem).
Qed.

(** The loop of [proxyRecursive] over the members of an ordinary flat
    object changes nothing. *)
Lemma forEach_wrap_member_flat
  (fuel : nat) (r : rid) (l : loc) (pth : string) (σ : state) (o : object) :
  heap σ !! l = Some (Raw o) ->
  flat o ->
  forEach (wrap_member (S fuel) r l pth) (own_keys σ l) σ = (σ, Return tt).
Proof.
  intros Hl Hflat. apply forEach_unchanged. intros key Hkey.
  unfold own_keys, target_of in Hkey. rewrite Hl, Hl in Hkey.
  destruct (flat_member o key Hflat Hkey) as (v & Hv & Hprim).
  exact (wrap_member_primitive fuel r l pth key σ o v Hl Hv Hprim).
Qed.

(** Wrapping an ordinary object nothing has wrapped yet, whose members are
    all primitive: one proxy is created and registered in the three
    collections with one Metadata object, which names the Replicant and
    the path; the object itself is left as it was. *)
Theorem proxyRecursive_flat
  (fuel : nat) (r : rid) (l : loc) (pth : string) (σ : state) (o : object) :
  heap σ !! l = Some (Raw o) ->
  flat o ->
  l ∉ proxySet σ ->
  metadataMap σ !! l = None ->
  let p := length (heap σ) in
  let i := length (metadata σ) in
  exists σ',
    proxyRecursive (S (S fuel)) r (VRef l) pth σ = (σ', Return (VRef p))
    /\ heap σ' = (heap σ ++ [ProxyOf l])%list
    /\ metadata σ'
       = (metadata σ ++ [{| replicant := r; path := pth; proxy := p |}])%list
    /\ metadataMap σ' = <[l := i]> (metadataMap σ)
    /\ proxyMetadataMap σ' = <[p := i]> (proxyMetadataMap σ)
    /\ proxySet σ' = {[p]} ∪ proxySet σ
    /\ replicants σ' = replicants σ.
Proof.
  intros Hl Hflat Hnotproxy Hfresh p i.
  exists (fst (new_proxy r l pth σ)).
  split; [| repeat split].
  rewrite proxyRecursive_fresh by assumption.
  unfold bind at 1. unfold new_proxy at 1.
  unfold bind at 1. unfold get_state at 1.
  unfold bind at 1.
  rewrite (forEach_wrap_member_flat fuel r l pth _ o).
  - reflexivity.
  - cbn [heap with_registration with_metadata with_heap].
    apply lookup_app_l_Some. exact Hl.
  - exact Hflat.
Qed.

Lemma wrap_member_proxied_primitive
  (fuel : nat) (r : rid) (p t : loc) (pth key : string) (σ : state)
  (o : object) (v : val) :
  heap σ !! p = Some (ProxyOf t) ->
  heap σ !! t = Some (Raw o) ->
  is_Some (metadata_at σ (metadataMap σ !! t)) ->
  get_prop (props o) key = Some v ->
  primitive v ->
  wrap_member (S fuel) r p pth key σ = (σ, Return tt).
Proof.
  intros Hp Ht [md Hmd] Hkey Hprim. unfold wrap_member, bind, get_state.
  unfold hasOwn, target_of, raw_hasOwn. rewrite Hp, Ht, Hkey.
  rewrite bool_decide_eq_true_2 by eauto. cbn [negb].
  assert (Hget : get_member σ p key = v).
  { unfold get_member, childArrayHandler_get, raw_get. rewrite Hp, Hmd, Ht, Hkey.
    destruct (raw_isArray σ t); reflexivity. }
  rewrite Hget, proxyRecursive_primitive by exact Hprim.
  unfold set_member, bind, get_state. rewrite Hp.
  unfold childHandler_set, bind, get_state.
  unfold raw_get. rewrite Ht, Hkey. cbn [default]. change (id v) with v.
  unfold strict_equal. rewrite bool_decide_eq_true_2 by reflexivity.
  reflexivity.
Qed.

Lemma proxyRecursive_proxied
  (fuel : nat) (r : rid) (l : loc) (pth : string) (σ : state) (i : nat)
  (md : Metadata) :
  l ∈ proxySet σ ->
  proxyMetadataMap σ !! l = Some i ->
  metadata σ !! i = Some md ->
  replicant md = r ->
  proxyRecursive (S fuel) r (VRef l) pth σ
  = bind (forEach (wrap_member fuel r l pth) (own_keys (with_path i pth σ) l))
      (fun _ => ret (VRef l)) (with_path i pth σ).
Proof.
  intros Hin Hpm Hmd Hr. cbn [proxyRecursive].
  unfold bind at 1. unfold assertSingleOwner at 1.
  unfold bind at 1. unfold get_state at 1.
  destruct (decide (l ∈ proxySet σ)); [| contradiction].
  rewrite Hpm. cbn [metadata_at]. rewrite Hmd.
  destruct (decide (replicant md ≠ r)); [contradiction |].
  unfold ret at 1. unfold bind at 1. unfold get_state at 1.
  destruct (decide (l ∈ proxySet σ)); [| contradiction].
  rewrite Hpm. reflexivity.
Qed.

Lemma proxyRecursive_registered
  (fuel : nat) (r : rid) (l : loc) (pth : string) (σ : state) (i : nat)
  (md : Metadata) :
  l ∉ proxySet σ ->
  metadataMap σ !! l = Some i ->
  metadata σ !! i = Some md ->
  replicant md = r ->
  proxyRecursive (S fuel) r (VRef l) pth σ
  = bind (forEach (wrap_member fuel r l pth) (own_keys (with_path i pth σ) l))
      (fun _ => ret (VRef (proxy md))) (with_path i pth σ).
Proof.
  intros Hnin Hmm Hmd Hr. cbn [proxyRecursive].
  unfold bind at 1. unfold assertSingleOwner at 1.
  unfold bind at 1. unfold get_state at 1.
  destruct (decide (l ∈ proxySet σ)); [contradiction |].
  rewrite Hmm.
  destruct (decide (is_Some (Some i))) as [_ | Hn]; [| destruct Hn; eauto].
  cbn [metadata_at]. rewrite Hmd.
  destruct (decide (replicant md ≠ r)); [contradiction |].
  unfold ret at 1. unfold bind at 1. unfold get_state at 1.
  destruct (decide (l ∈ proxySet σ)); [contradiction |].
  rewrite Hmm.
  destruct (decide (is_Some (Some i))) as [_ | Hn]; [| destruct Hn; eauto].
  cbn [metadata_at]. rewrite Hmd. reflexivity.
Qed.

(** Wrapping again, for the same Replicant, a flat object it has wrapped
    before, given as the object itself or as its proxy: no proxy is
    created, the proxy made the first time is returned, and only the path of
    the Metadata object changes. *)
Theorem proxyRecursive_rewrap
  (fuel : nat) (r : rid) (p t : loc) (pth : string) (σ : state) (o : object)
  (i : nat) (md : Metadata) :
  heap σ !! p = Some (ProxyOf t) ->
  heap σ !! t = Some (Raw o) ->
  flat o ->
  p ∈ proxySet σ ->
  t ∉ proxySet σ ->
  proxyMetadataMap σ !! p = Some i ->
  metadataMap σ !! t = Some i ->
  metadata σ !! i = Some md ->
  replicant md = r ->
  proxy md = p ->
  proxyRecursive (S (S fuel)) r (VRef p) pth σ
  = (with_path i pth σ, Return (VRef p))
  /\ proxyRecursive (S (S fuel)) r (VRef t) pth σ
     = (with_path i pth σ, Return (VRef p)).
Proof.
  intros Hp Ht Hflat Hin Hnin Hpm Hmm Hmd Hr Hproxy.
  assert (Hmd' : is_Some (metadata_at (with_path i pth σ)
                            (metadataMap (with_path i pth σ) !! t))).
  { unfold with_path. cbn [metadataMap with_metadata metadata_at metadata].
    rewrite Hmm. cbn [metadata_at metadata with_metadata].
    rewrite list_lookup_alter_eq, Hmd. eauto. }
  split.
  - rewrite (proxyRecursive_proxied (S fuel) r p pth σ i md) by assumption.
    unfold bind.
    rewrite forEach_unchanged; [reflexivity |].
    intros key Hkey.
    unfold own_keys, target_of in Hkey.
    change (heap (with_path i pth σ)) with (heap σ) in Hkey.
    rewrite Hp, Ht in Hkey.
    destruct (flat_member o key Hflat Hkey) as (v & Hv & Hprim).
    exact (wrap_member_proxied_primitive fuel r p t pth key
             (with_path i pth σ) o v Hp Ht Hmd' Hv Hprim).
  - rewrite (proxyRecursive_registered (S fuel) r t pth σ i md) by assumption.
    unfold bind.
    rewrite (forEach_wrap_member_flat fuel r t pth (with_path i pth σ) o Ht
               Hflat).
    rewrite Hproxy. reflexivity.
Qed.

End FlatObjects.

Lemma proxyRecursive_flat_witness :
  exists σ',
    @proxyRecursive Sample.library 2 0%nat (VRef 0%nat) "/" flat_object_state
    = (σ', Return (VRef 1%nat))
    /\ heap σ' = (heap flat_object_state ++ [ProxyOf 0%nat])%list
    /\ metadata σ' = [{| replicant := 0%nat; path := "/"; proxy := 1%nat |}]
    /\ metadataMap σ' = {[ 0%nat := 0%nat ]}
    /\ proxyMetadataMap σ' = {[ 1%nat := 0%nat ]}
    /\ proxySet σ' = {[ 1%nat ]} ∪ ∅
    /\ replicants σ' = replicants flat_object_state.
Proof.
  apply (@proxyRecursive_flat Sample.library 0 0%nat 0%nat "/"
           flat_object_state
           {| isArray := false;
              props := [("home", VNumber 1); ("away", VNumber 2)] |}).
  - reflexivity.
  - repeat constructor.
  - apply (bool_decide_unpack _). vm_compute. exact I.
  - reflexivity.
Defined.

Lemma proxyRecursive_rewrap_witness :
  @proxyRecursive Sample.library 2 0%nat (VRef 3%nat) "/list" items_state
  = (with_path 1 "/list" items_state, Return (VRef 3%nat))
  /\ @proxyRecursive Sample.library 2 0%nat (VRef 1%nat) "/list" items_state
     = (with_path 1 "/list" items_state, Return (VRef 3%nat)).
Proof.
  apply (@proxyRecursive_rewrap Sample.library 0 0%nat 3%nat 1%nat "/list"
           items_state
           {| isArray := true;
              props := [("0", VNumber 1); ("1", VNumber 2); ("2", VNumber 3)] |}
           1%nat {| replicant := 0%nat; path := "/items"; proxy := 3%nat |});
    try reflexivity.
  all: try (apply (bool_decide_unpack _); vm_compute; exact I).
  repeat constructor.
Defined.

(** ** What an operation does to the Replicant ([applyOperation]) *)

#[global] Instance settled_equivalence : Equivalence settled.
Proof.
  unfold settled. split.
  - intros R. reflexivity.
  - intros R R' H. symmetry. exact H.
  - intros R R' R'' H H'. etransitivity; eassumption.
Qed.

#[global] Instance replicants_kept_preorder : PreOrder replicants_kept.
Proof.
  unfold replicants_kept. split.
  - intros σ. reflexivity.
  - intros σ1 σ2 σ3 H H'. etransitivity; eassumption.
Qed.

Lemma replicants_kept_same (σ σ' : state) :
  replicants σ' = replicants σ -> replicants_kept σ σ'.
Proof. unfold replicants_kept. intros ->. reflexivity. Qed.

Lemma replicants_kept_errors (r : rid) (e : list ValidationError) (σ : state) :
  replicants_kept σ (update_replicant r (with_validationErrors e) σ).
Proof.
  unfold replicants_kept. simpl.
  apply Forall2_alter_r; [reflexivity |].
  intros R R' _ _ HR. etransitivity; [exact HR | reflexivity].
Qed.

Lemma replicants_kept_lookup (σ σ' : state) (r : rid) (R : Replicant) :
  replicants_kept σ σ' -> replicants σ !! r = Some R ->
  exists R', replicants σ' !! r = Some R' /\ settled R R'.
Proof.
  intros Hk HR.
  destruct (Forall2_lookup_l _ _ _ _ _ Hk HR) as (R' & HR' & Hs). eauto.
Qed.

Lemma raw_set_replicants (l : loc) (prop : string) (v : val) (σ : state) :
  replicants (raw_set l prop v σ) = replicants σ.
Proof. unfold raw_set. destruct (heap σ !! l) as [[o | t] |]; reflexivity. Qed.

Lemma raw_delete_replicants (l : loc) (prop : string) (σ : state) :
  replicants (raw_delete l prop σ) = replicants σ.
Proof. unfold raw_delete. destruct (heap σ !! l) as [[o | t] |]; reflexivity. Qed.

#[global] Hint Extern 1 (replicants_kept ?σ ?σ) => reflexivity : frames.
#[global] Hint Extern 1 (replicants_kept _ (with_heap _ _)) =>
  apply replicants_kept_same; reflexivity : frames.
#[global] Hint Extern 1 (replicants_kept _ (raw_set _ _ _ _)) =>
  apply replicants_kept_same; apply raw_set_replicants : frames.
#[global] Hint Extern 1 (replicants_kept _ (raw_delete _ _ _)) =>
  apply replicants_kept_same; apply raw_delete_replicants : frames.
#[global] Hint Extern 1
  (replicants_kept _ (update_replicant _ (with_validationErrors _) _)) =>
  apply replicants_kept_errors : frames.
#[global] Hint Extern 1 (replicants_kept _ (fst (this_replicant _ _))) =>
  unfold this_replicant; case_match; reflexivity : frames.

Section Kept.
Context {ext : External}.

Lemma validate_kept (r : rid) (v : val) (t : bool) (σ : state) :
  replicants_kept σ (fst (validate r v t σ)).
Proof. unfold validate. along replicants_kept. Qed.

Lemma clone_target_kept (R : Replicant) (md : Metadata) (σ : state) :
  replicants_kept σ (fst (clone_target R md σ)).
Proof.
  unfold clone_target. destruct (clone (heap σ) (value R)).
  apply replicants_kept_same. reflexivity.
Qed.

Lemma raw_apply_kept (l : loc) (m : string) (a : list val) (σ : state) :
  replicants_kept σ (fst (raw_apply l m a σ)).
Proof.
  unfold raw_apply.
  destruct (raw_isArray σ l && negb (raw_hasOwn σ l m)); [| reflexivity].
  destruct (array_apply m a (heap σ) l) as [h [e | v]];
    apply replicants_kept_same; reflexivity.
Qed.

Hint Resolve validate_kept clone_target_kept raw_apply_kept : frames.

Lemma clone_assign_kept (c : val) (prop : string) (v : val) (σ : state) :
  replicants_kept σ (fst (clone_assign c prop v σ)).
Proof. unfold clone_assign. along replicants_kept. Qed.

Lemma clone_delete_kept (c : val) (prop : string) (σ : state) :
  replicants_kept σ (fst (clone_delete c prop σ)).
Proof. unfold clone_delete. along replicants_kept. Qed.

Lemma clone_apply_kept (c : val) (m : string) (a : list val) (σ : state) :
  replicants_kept σ (fst (clone_apply c m a σ)).
Proof. unfold clone_apply. along replicants_kept. Qed.

Hint Resolve clone_assign_kept clone_delete_kept clone_apply_kept : frames.

Lemma childHandler_set_kept (t : loc) (prop : string) (v : val) (σ : state) :
  replicants_kept σ (fst (childHandler_set t prop v σ)).
Proof. unfold childHandler_set. along replicants_kept. Qed.

Lemma deleteTrap_kept (t : loc) (prop : string) (σ : state) :
  replicants_kept σ (fst (deleteTrap t prop σ)).
Proof. unfold deleteTrap. along replicants_kept. Qed.

Lemma childArrayHandler_call_kept
  (t : loc) (m : string) (a : list val) (σ : state) :
  replicants_kept σ (fst (childArrayHandler_call t m a σ)).
Proof. unfold childArrayHandler_call. along replicants_kept. Qed.

Hint Resolve childHandler_set_kept deleteTrap_kept childArrayHandler_call_kept
  : frames.

Lemma set_member_kept (l : loc) (key : string) (v : val) (σ : state) :
  replicants_kept σ (fst (set_member l key v σ)).
Proof. unfold set_member. along replicants_kept. Qed.

Lemma delete_member_kept (t : val) (prop : string) (σ : state) :
  replicants_kept σ (fst (delete_member t prop σ)).
Proof. unfold delete_member. along replicants_kept. Qed.

Lemma call_method_kept (arr : val) (m : string) (a : list val) (σ : state) :
  replicants_kept σ (fst (call_method arr m a σ)).
Proof. unfold call_method. along replicants_kept. Qed.

Lemma set_path_kept (i : option nat) (pth : string) (σ : state) :
  replicants_kept σ (fst (set_path i pth σ)).
Proof.
  destruct i; [| reflexivity]. apply replicants_kept_same. reflexivity.
Qed.

Hint Resolve set_member_kept delete_member_kept call_method_kept set_path_kept
  : frames.

Lemma proxyRecursive_kept (fuel : nat) :
  forall (r : rid) (v : val) (pth : string) (σ : state),
    replicants_kept σ (fst (proxyRecursive fuel r v pth σ)).
Proof.
  induction fuel as [| fuel IH]; intros r v pth σ.
  - reflexivity.
  - destruct v as [| | b | n | s | l]; try reflexivity.
    cbn [proxyRecursive].
    apply (along_bind replicants_kept).
    { rewrite assertSingleOwner_state. reflexivity. }
    intros σ1 u Hassert.
    along_step replicants_kept.
    apply (along_bind replicants_kept).
    { repeat first [ solve [auto with frames]
                   | apply replicants_kept_same; reflexivity
                   | progress along_step replicants_kept ]. }
    intros σ2 p _.
    along_step replicants_kept.
    along_step replicants_kept; [| reflexivity].
    apply (along_forEach replicants_kept).
    intros key σ3.
    along_step replicants_kept.
    along_step replicants_kept; [reflexivity |].
    along_step replicants_kept; [apply IH | apply set_member_kept].
Qed.

End Kept.

#[global] Hint Resolve validate_kept clone_target_kept raw_apply_kept
  clone_assign_kept clone_delete_kept clone_apply_kept childHandler_set_kept
  deleteTrap_kept childArrayHandler_call_kept set_member_kept
  delete_member_kept call_method_kept set_path_kept proxyRecursive_kept
  : frames.

Section ApplyOperation.
Context {ext : External}.

Lemma bind_outcome {A B} (m : M A) (k : A -> M B) (σ : state) :
  match m σ with
  | (σ1, Return a) => bind m k σ = k a σ1
  | (σ1, Throw e) => bind m k σ = (σ1, Throw e)
  | (σ1, OutOfFuel) => bind m k σ = (σ1, OutOfFuel)
  | (σ1, Unmodelled) => bind m k σ = (σ1, Unmodelled)
  end.
Proof. unfold bind. destruct (m σ) as [σ1 [a | e | |]]; reflexivity. Qed.

(** Past its guard, [applyOperation] sets the suppression flag, runs the
    operation, which changes no Replicant object but for recorded validation
    errors, and clears the flag if the operation returned. *)
Lemma applyOperation_runs
  (fuel : nat) (r : rid) (operation : Operation) (σ : state) (R : Replicant) :
  replicants σ !! r = Some R ->
  truthy (value R) = true ->
  exists σ1,
    replicants_kept (update_replicant r (with_ignoreProxy true) σ) σ1
    /\ ((exists v, applyOperation fuel r operation σ
                   = (update_replicant r (with_ignoreProxy false) σ1, Return v))
        \/ (exists e, applyOperation fuel r operation σ = (σ1, Throw e))
        \/ applyOperation fuel r operation σ = (σ1, OutOfFuel)
        \/ applyOperation fuel r operation σ = (σ1, Unmodelled)).
Proof.
  intros HR Htruthy.
  set (σ0 := update_replicant r (with_ignoreProxy true) σ).
  assert (Hsteps :
    exists m : M val,
      applyOperation fuel r operation σ
      = bind m (fun res =>
          bind (modify (update_replicant r (with_ignoreProxy false)))
            (fun _ => ret res)) σ0
      /\ replicants_kept σ0 (fst (m σ0))).
  { unfold applyOperation.
    unfold bind at 1. unfold this_replicant at 1. rewrite HR, Htruthy.
    cbn [negb]. unfold bind at 1. unfold modify at 1. fold σ0.
    eexists. split; [reflexivity |].
    repeat first
      [ solve [auto with frames]
      | apply replicants_kept_same; reflexivity
      | destruct (objectPath_set _ _ _ _) as [? [? | ?]]
      | progress along_step replicants_kept ]. }
  destruct Hsteps as (m & -> & Hkept).
  unfold bind.
  destruct (m σ0) as [σ1 [res | e | |]]; exists σ1; (split; [exact Hkept |]).
  - left. exists res. reflexivity.
  - right. left. exists e. reflexivity.
  - right. right. left. reflexivity.
  - right. right. right. reflexivity.
Qed.

Lemma flag_after (σ0 σ1 : state) (r : rid) (R : Replicant) (b : bool) :
  replicants σ0 !! r = Some R ->
  replicants_kept (update_replicant r (with_ignoreProxy b) σ0) σ1 ->
  exists R1, replicants σ1 !! r = Some R1 /\ _ignoreProxy R1 = b.
Proof.
  intros HR Hkept.
  destruct (replicants_kept_lookup _ σ1 r (with_ignoreProxy b R) Hkept)
    as (R1 & HR1 & Hs).
  { unfold update_replicant. cbn [replicants with_replicants].
    rewrite list_lookup_alter_eq, HR. reflexivity. }
  exists R1. split; [exact HR1 |].
  exact (eq_sym (f_equal _ignoreProxy Hs)).
Qed.

(** The suppression flag after [applyOperation], for a Replicant that holds
    a value: cleared when the operation returned, still set when it threw
    (nothing clears it on the way out of a throw). *)
Theorem applyOperation_suppression_flag
  (fuel : nat) (r : rid) (operation : Operation) (σ : state) (R : Replicant) :
  replicants σ !! r = Some R ->
  truthy (value R) = true ->
  (forall σ' v,
     applyOperation fuel r operation σ = (σ', Return v) ->
     _ignoreProxy <$> replicants σ' !! r = Some false)
  /\ (forall σ' e,
        applyOperation fuel r operation σ = (σ', Throw e) ->
        _ignoreProxy <$> replicants σ' !! r = Some true).
Proof.
  intros HR Htruthy.
  destruct (applyOperation_runs fuel r operation σ R HR Htruthy)
    as (σ1 & Hkept & Hcases).
  destruct (flag_after σ σ1 r R true HR Hkept) as (R1 & HR1 & Hflag).
  split.
  - intros σ' v H.
    destruct Hcases as [[v' H'] | [[e H'] | [H' | H']]]; rewrite H' in H;
      try discriminate.
    injection H as <- _. unfold update_replicant.
    cbn [replicants with_replicants].
    rewrite list_lookup_alter_eq, HR1. reflexivity.
  - intros σ' e H.
    destruct Hcases as [[v' H'] | [[e' H'] | [H' | H']]]; rewrite H' in H;
      try discriminate.
    injection H as <- _. rewrite HR1. simpl. rewrite Hflag. reflexivity.
Qed.

Lemma known_method_false (m : string) :
  known_method m = false ->
  is_array_mutator m = false /\ String.eqb m "add" = false
  /\ String.eqb m "update" = false /\ String.eqb m "delete" = false.
Proof.
  unfold known_method. intros H.
  apply orb_false_elim in H as [H Hd].
  apply orb_false_elim in H as [H Hu].
  apply orb_false_elim in H as [Hm Ha]. auto.
Qed.

(** An operation whose method is none of the nine array mutators, [add],
    [update] or [delete]: [applyOperation] throws, after it set the
    suppression flag, and changes nothing else. *)
Theorem applyOperation_unknown_method
  (fuel : nat) (r : rid) (operation : Operation) (σ : state) (R : Replicant) :
  replicants σ !! r = Some R ->
  truthy (value R) = true ->
  known_method (op_method operation) = false ->
  applyOperation fuel r operation σ
  = (update_replicant r (with_ignoreProxy true) σ,
     Throw (Err ("Unexpected operation method " ++ quote
                 ++ op_method operation ++ quote))).
Proof.
  intros HR Htruthy Hknown.
  destruct (known_method_false _ Hknown) as (Hm & Ha & Hu & Hd).
  unfold applyOperation.
  unfold bind at 1. unfold this_replicant at 1. rewrite HR, Htruthy.
  cbn [negb]. rewrite Hm, Ha, Hu, Hd. reflexivity.
Qed.

Lemma flag_restored (r : rid) (σ : state) (R : Replicant) :
  replicants σ !! r = Some R ->
  _ignoreProxy R = false ->
  update_replicant r (with_ignoreProxy false)
    (update_replicant r (with_ignoreProxy true) σ)
  = σ.
Proof.
  intros HR Hflag. unfold update_replicant, with_replicants. simpl.
  replace (alter (with_ignoreProxy false) r
             (alter (with_ignoreProxy true) r (replicants σ)))
    with (replicants σ); [destruct σ; reflexivity |].
  apply list_eq. intros i. destruct (decide (r = i)) as [<- | Hne].
  - rewrite !list_lookup_alter_eq, HR. simpl. f_equal.
    destruct R; simpl in *; subst; reflexivity.
  - rewrite !list_lookup_alter_ne by exact Hne. reflexivity.
Qed.

Lemma flag_round_trip (r : rid) (σ : state) (R : Replicant) (h : list cell) :
  replicants σ !! r = Some R ->
  _ignoreProxy R = false ->
  update_replicant r (with_ignoreProxy false)
    (with_heap h (update_replicant r (with_ignoreProxy true) σ))
  = with_heap h σ.
Proof.
  intros HR Hflag.
  change (with_heap h
            (update_replicant r (with_ignoreProxy false)
               (update_replicant r (with_ignoreProxy true) σ))
          = with_heap h σ).
  rewrite (flag_restored r σ R HR Hflag). reflexivity.
Qed.

(** [delete] under a path that does not lead anywhere is no operation: the
    result is [undefined] and, for a Replicant whose flag was clear,
    nothing has changed. *)
Theorem applyOperation_delete_missing
  (fuel : nat) (r : rid) (operation : Operation) (σ : state) (R : Replicant) :
  replicants σ !! r = Some R ->
  truthy (value R) = true ->
  _ignoreProxy R = false ->
  op_method operation = "delete" ->
  pathStrToPathArr (op_path operation) <> [] ->
  objectPath_has (heap σ) (value R) (pathStrToPathArr (op_path operation))
  = false ->
  applyOperation fuel r operation σ = (σ, Return VUndefined).
Proof.
  intros HR Htruthy Hflag Hmethod Hpath Hhas.
  unfold applyOperation.
  unfold bind at 1. unfold this_replicant at 1. rewrite HR, Htruthy.
  cbn [negb]. rewrite Hmethod.
  change (is_array_mutator "delete") with false.
  change (("delete" =? "add")%string || ("delete" =? "update")%string)
    with false.
  change ("delete" =? "delete")%string with true. cbn iota.
  unfold bind at 1. unfold modify at 1.
  unfold bind at 1. unfold bind at 1. unfold get_state at 1.
  change (heap (update_replicant r (with_ignoreProxy true) σ)) with (heap σ).
  rewrite Hhas, bool_decide_eq_false_2 by exact Hpath.
  cbn [orb]. unfold ret at 1. unfold bind at 1. unfold modify at 1.
  unfold ret.
  rewrite (flag_restored r σ R HR Hflag). reflexivity.
Qed.

(** [add] and [update] of a member to a value that is no object are one
    write through [objectPath.set] at the path of the operation extended by
    the member.  When [objectPath.set] returns, the result is what it
    returns and the suppression flag is clear again; when it throws (as it
    does when the value of the Replicant is a number, a string or [true]),
    [applyOperation] throws that error and leaves the suppression flag
    set. *)
Theorem applyOperation_assigns_primitive
  (fuel : nat) (r : rid) (operation : Operation) (σ : state) (R : Replicant)
  (h : list cell) (answer : Error + val) :
  replicants σ !! r = Some R ->
  truthy (value R) = true ->
  _ignoreProxy R = false ->
  op_method operation = "add" \/ op_method operation = "update" ->
  typeof (args_newValue (op_args operation)) <> "object" ->
  objectPath_set (heap σ) (value R)
    (pathStrToPathArr (op_path operation) ++ [args_prop (op_args operation)])
    (args_newValue (op_args operation)) = (h, answer) ->
  applyOperation fuel r operation σ
  = match answer with
    | inr old => (with_heap h σ, Return old)
    | inl e =>
        (with_heap h (update_replicant r (with_ignoreProxy true) σ), Throw e)
    end.
Proof.
  intros HR Htruthy Hflag Hmethod Htype Hset.
  unfold applyOperation.
  unfold bind at 1. unfold this_replicant at 1. rewrite HR, Htruthy.
  cbn [negb].
  assert (Hm : is_array_mutator (op_method operation) = false
               /\ (op_method operation =? "add")%string
                  || (op_method operation =? "update")%string = true).
  { destruct Hmethod as [-> | ->]; split; reflexivity. }
  destruct Hm as [Hm1 Hm2]. rewrite Hm1, Hm2.
  apply String.eqb_neq in Htype. rewrite Htype.
  unfold bind at 1. unfold modify at 1.
  unfold bind at 1. unfold bind at 1. unfold ret at 1.
  change (heap (update_replicant r (with_ignoreProxy true) σ)) with (heap σ).
  rewrite Hset. destruct answer as [e | old]; [reflexivity |].
  unfold bind at 1. unfold modify at 1. unfold ret.
  rewrite (flag_round_trip r σ R h HR Hflag). reflexivity.
Qed.

(** [applyOperation] works in place: whatever the operation and however it
    ends, no Replicant object changes name, namespace, revision, status or
    the reference it holds as its value, and nothing is sent, emitted,
    subscribed or registered. *)
Theorem applyOperation_in_place
  (fuel : nat) (r : rid) (operation : Operation) (σ : state) :
  let σ' := fst (applyOperation fuel r operation σ) in
  sent σ' = sent σ
  /\ notifications σ' = notifications σ
  /\ subscriptions σ' = subscriptions σ
  /\ declaredReplicants σ' = declaredReplicants σ
  /\ forall i R,
       replicants σ !! i = Some R ->
       exists R',
         replicants σ' !! i = Some R'
         /\ value R' = value R /\ revision R' = revision R
         /\ status R' = status R /\ name R' = name R
         /\ namespace R' = namespace R.
Proof.
  intros σ'.
  destruct (applyOperation_wraps fuel r operation σ) as [Hq _ _].
  fold σ' in Hq.
  repeat split; try apply Hq.
  intros i R HR.
  destruct (quiet_replicant σ σ' i R Hq HR) as (R' & HR' & Hs).
  destruct (stable_fields R R' Hs) as (? & ? & ? & ? & ? & _).
  exists R'. repeat split; assumption.
Qed.

End ApplyOperation.

Lemma applyOperation_suppression_flag_witness :
  _ignoreProxy
    <$> replicants (fst (@applyOperation Sample.library 2 0%nat push_items
                           items_state)) !! 0%nat
  = Some false
  /\ _ignoreProxy
       <$> replicants (fst (@applyOperation Sample.library 2 0%nat
                              bogus_operation items_state)) !! 0%nat
     = Some true.
Proof.
  destruct (@applyOperation_suppression_flag Sample.library 2 0%nat push_items
              items_state
              (replicant_with "score" "bundle" (VRef 2%nat) 5 declared)
              eq_refl eq_refl) as [Hreturn _].
  destruct (@applyOperation_suppression_flag Sample.library 2 0%nat
              bogus_operation items_state
              (replicant_with "score" "bundle" (VRef 2%nat) 5 declared)
              eq_refl eq_refl) as [_ Hthrow].
  split.
  - apply (Hreturn _ (VNumber 4)). vm_compute. reflexivity.
  - apply (Hthrow _ (Err ("Unexpected operation method " ++ quote ++ "bogus"
                          ++ quote))).
    vm_compute. reflexivity.
Defined.

Lemma applyOperation_unknown_method_witness :
  @applyOperation Sample.library 2 0%nat bogus_operation items_state
  = (update_replicant 0%nat (with_ignoreProxy true) items_state,
     Throw (Err ("Unexpected operation method " ++ quote ++ "bogus" ++ quote))).
Proof.
  apply (@applyOperation_unknown_method Sample.library 2 0%nat bogus_operation
           items_state
           (replicant_with "score" "bundle" (VRef 2%nat) 5 declared));
    reflexivity.
Defined.

Lemma applyOperation_delete_missing_witness :
  @applyOperation Sample.library 2 0%nat delete_absent items_state
  = (items_state, Return VUndefined).
Proof.
  apply (@applyOperation_delete_missing Sample.library 2 0%nat delete_absent
           items_state
           (replicant_with "score" "bundle" (VRef 2%nat) 5 declared));
    try reflexivity.
  discriminate.
Defined.

Lemma applyOperation_assigns_primitive_witness :
  let h := fst (Sample.set (heap items_state) (VRef 2%nat) ["items"; "0"]
                  (VNumber 9)) in
  @applyOperation Sample.library 2 0%nat update_first items_state
  = (with_heap h items_state, Return (VNumber 1))
  /\ Sample.get h (VRef 2%nat) ["items"; "0"] = VNumber 9
  /\ @applyOperation Sample.library 2 0%nat update_count number_state
     = (update_replicant 0%nat (with_ignoreProxy true) number_state,
        Throw (TypeError "Cannot create property")).
Proof.
  split; [| split; [reflexivity |]].
  - apply (@applyOperation_assigns_primitive Sample.library 2 0%nat
             update_first items_state
             (replicant_with "score" "bundle" (VRef 2%nat) 5 declared)
             _ (inr (VNumber 1))).
    + reflexivity.
    + reflexivity.
    + reflexivity.
    + right. reflexivity.
    + discriminate.
    + reflexivity.
  - apply (@applyOperation_assigns_primitive Sample.library 2 0%nat
             update_count number_state
             (replicant_with "score" "bundle" (VNumber 7) 5 declared)
             _ (inl (TypeError "Cannot create property"))).
    + reflexivity.
    + reflexivity.
    + reflexivity.
    + right. reflexivity.
    + discriminate.
    + reflexivity.
Defined.

(** ** The verdict of [validate] *)

Lemma bind_returns {A B} (m : M A) (k : A -> M B) (σ σ' : state) (b : B) :
  bind m k σ = (σ', Return b) ->
  exists σ1 a, m σ = (σ1, Return a) /\ k a σ1 = (σ', Return b).
Proof.
  unfold bind. destruct (m σ) as [σ1 [a | e | |]]; try discriminate. eauto.
Qed.

(** [validate] throws only with [throwOnInvalid], when the validator rejects
    the value and reports at least one error; the error thrown is then the
    header and the text of the first error, and the whole report is
    recorded. *)
Theorem validate_throws_only_rejected
  (r : rid) (v : val) (t : bool) (σ σ' : state) (R : Replicant) (e : Error) :
  replicants σ !! r = Some R ->
  validate r v t σ = (σ', Throw e) ->
  t = true
  /\ verdict R (heap σ) v = false
  /\ exists check error others,
       _validator R = Some check
       /\ errors (check (heap σ) v) = error :: others
       /\ e = Err (rejection_header R ++ error_text error)
       /\ σ' = update_replicant r (with_validationErrors (error :: others)) σ.
Proof.
  intros HR. unfold validate, verdict, bind, this_replicant, get_state.
  rewrite HR.
  destruct (_validator R) as [check |]; [| discriminate].
  destruct (result (check (heap σ) v)) eqn:Hresult; [discriminate |].
  cbn [negb]. unfold modify.
  destruct t; [| discriminate].
  destruct (errors (check (heap σ) v)) as [| error others] eqn:Herrors;
    [discriminate |].
  cbn [errors_forEach]. intros [= <- <-].
  split; [reflexivity |]. split; [reflexivity |].
  exists check, error, others. auto.
Qed.

(** When [validate] returns, it returns the verdict of the validator; a
    value that passes leaves everything as it was, the errors recorded by
    an earlier failure included, and a value that fails without a throw
    has its errors recorded. *)
Theorem validate_returns_verdict
  (r : rid) (v : val) (t : bool) (σ σ' : state) (R : Replicant) (b : bool) :
  replicants σ !! r = Some R ->
  validate r v t σ = (σ', Return b) ->
  b = verdict R (heap σ) v
  /\ (b = true -> σ' = σ)
  /\ (b = false ->
      exists check,
        _validator R = Some check
        /\ σ' = update_replicant r
                  (with_validationErrors (errors (check (heap σ) v))) σ
        /\ (t = true -> errors (check (heap σ) v) = [])).
Proof.
  intros HR. unfold validate, verdict, bind, this_replicant, get_state.
  rewrite HR.
  destruct (_validator R) as [check |].
  - destruct (result (check (heap σ) v)) eqn:Hresult; cbn [negb].
    + intros [= <- <-]. split; [reflexivity |]. split; [reflexivity |].
      discriminate.
    + unfold modify.
      destruct t.
      * destruct (errors (check (heap σ) v)) as [| error others] eqn:Herrors;
          [| discriminate].
        cbn [errors_forEach]. unfold ret.
        intros [= <- <-]. split; [reflexivity |]. split; [discriminate |].
        intros _. exists check. rewrite Herrors. repeat split.
      * unfold ret.
        intros [= <- <-]. split; [reflexivity |]. split; [discriminate |].
        intros _. exists check. repeat split. discriminate.
  - intros [= <- <-]. split; [reflexivity |]. split; [reflexivity |].
    discriminate.
Qed.

(** The validator of [validated_state] rejects the value asked about. *)
Lemma validate_throws_only_rejected_witness :
  verdict (with_validator (Some rejecting)
             (replicant_with "score" "bundle" (VRef 2%nat) 5 declared))
    (heap validated_state) (VNumber 0) = false.
Proof.
  exact (proj1 (proj2
    (validate_throws_only_rejected 0%nat (VNumber 0) true
       validated_state
       (update_replicant 0%nat
          (with_validationErrors [count_error; label_error]) validated_state)
       (with_validator (Some rejecting)
          (replicant_with "score" "bundle" (VRef 2%nat) 5 declared))
       (Err (rejection_header
               (replicant_with "score" "bundle" (VRef 2%nat) 5 declared)
             ++ error_text count_error))
       eq_refl eq_refl))).
Defined.

(** [validated_state] asked without a throw: the answer is the verdict. *)
Lemma validate_returns_verdict_witness :
  false
  = verdict (with_validator (Some rejecting)
               (replicant_with "score" "bundle" (VRef 2%nat) 5 declared))
      (heap validated_state) (VNumber 0).
Proof.
  exact (proj1
    (validate_returns_verdict 0%nat (VNumber 0) false
       validated_state
       (update_replicant 0%nat
          (with_validationErrors [count_error; label_error]) validated_state)
       (with_validator (Some rejecting)
          (replicant_with "score" "bundle" (VRef 2%nat) 5 declared))
       false eq_refl eq_refl)).
Defined.

(** ** The acknowledgement of a declaration *)

Section Declare.
Context {ext : External}.

Lemma update_replicant_lookup
  (r : rid) (f : Replicant -> Replicant) (σ : state) (R : Replicant) :
  replicants σ !! r = Some R ->
  replicants (update_replicant r f σ) !! r = Some (f R).
Proof.
  intros HR. unfold update_replicant. cbn [replicants with_replicants].
  rewrite list_lookup_alter_eq, HR. reflexivity.
Qed.

(** What [_assignValue] leaves alone when it returns. *)
Lemma _assignValue_returns
  (fuel : nat) (r : rid) (v : val) (rev : option Z) (σ σ' : state)
  (R : Replicant) :
  replicants σ !! r = Some R ->
  _assignValue fuel r v rev σ = (σ', Return tt) ->
  sent σ' = sent σ
  /\ exists R',
       replicants σ' !! r = Some R'
       /\ _actionQueue R' = _actionQueue R
       /\ status R' = status R
       /\ revision R' = default (revision R) rev.
Proof.
  intros HR H.
  destruct (clone (heap σ) (value R)) as [h oldValue] eqn:Eclone.
  rewrite (_assignValue_unfold fuel r v rev σ R h oldValue HR Eclone) in H.
  apply bind_returns in H as (σ1 & w & Hwrap & H).
  pose proof (proxyRecursive_wraps fuel r v "/" (with_heap h σ)) as [Hq _ _].
  rewrite Hwrap in Hq. cbn [fst] in Hq.
  destruct (quiet_replicant _ _ r R Hq HR) as (R1 & HR1 & Hs).
  destruct (stable_fields R R1 Hs) as (_ & _ & _ & Hrev & Hstatus & Hqueue & _).
  pose proof (quiet_sent _ _ Hq) as Hsent. cbn [sent with_heap] in Hsent.
  apply bind_returns in H as (σ2 & [] & Hvalue & H).
  unfold modify in Hvalue. injection Hvalue as <-.
  apply bind_returns in H as (σ3 & [] & Hrevision & H).
  unfold modify in Hrevision. injection Hrevision as <-.
  apply bind_returns in H as (σ4 & R4 & Hthis & H).
  apply this_replicant_inv in Hthis as [-> HR4].
  unfold emit, modify in H. injection H as <-.
  pose proof (update_replicant_lookup r (with_value w) σ1 R1 HR1) as HR2.
  split.
  - destruct rev; exact Hsent.
  - destruct rev as [n |]; cbn [assign_revision default].
    + exists (with_revision n (with_value w R1)). repeat split.
      * apply update_replicant_lookup. exact HR2.
      * exact Hqueue.
      * exact Hstatus.
    + exists (with_value w R1). repeat split; assumption.
Qed.

(** A declaration the server refuses, when nobody listens for
    [declarationRejected]: the reason is thrown and nothing has changed; the
    Replicant stays in the status it had. *)
Theorem declare_ack_rejected_unheard
  (fuel : nat) (r : rid) (data : DeclareAck) (σ : state) (R : Replicant)
  (reason : string) :
  replicants σ !! r = Some R ->
  declare_rejectReason data = Some reason ->
  reason <> EmptyString ->
  count_listeners R "declarationRejected" = 0%nat ->
  declare_ack fuel r data σ = (σ, Throw (Err reason)).
Proof.
  intros HR Hreason Hne Hcount. unfold declare_ack.
  unfold bind at 1. rewrite Hreason. unfold rejected.
  apply String.eqb_neq in Hne. rewrite Hne.
  unfold bind at 1. unfold this_replicant at 1. rewrite HR, Hcount.
  reflexivity.
Qed.

Lemma forEach_run_action_sent (r : rid) (R : Replicant) (queue : list Action) :
  forall σ,
    replicants σ !! r = Some R ->
    forEach (run_action r) queue σ
    = (with_sent (sent σ ++ map (flush_message r R) queue) σ, Return tt).
Proof.
  induction queue as [| item queue IH]; intros σ HR.
  - simpl. rewrite app_nil_r. destruct σ; reflexivity.
  - cbn [forEach]. unfold bind, run_action. destruct (fn item).
    rewrite (_proposeAssignment_sends r _ σ R HR).
    rewrite IH by exact HR. cbn [sent with_sent map].
    rewrite <- app_assoc. reflexivity.
Qed.

(** A declaration whose acknowledgement runs to its end, refused or not:
    the Replicant is declared, at the revision of the server; the actions
    queued before are flushed, one [replicant:proposeAssignment] each, first
    in first out, and the queue is empty. *)
Theorem declare_ack_completes
  (fuel : nat) (r : rid) (data : DeclareAck) (σ σ' : state) (R : Replicant) :
  replicants σ !! r = Some R ->
  declare_ack fuel r data σ = (σ', Return tt) ->
  exists R',
    replicants σ' !! r = Some R'
    /\ status R' = declared
    /\ revision R' = declare_revision data
    /\ _actionQueue R' = []
    /\ sent σ' = (sent σ ++ map (flush_message r R') (_actionQueue R))%list.
Proof.
  intros HR H. unfold declare_ack in H.
  (* the rejection, announced if it is there *)
  apply bind_returns in H as (σ1 & [] & Hreject & H).
  assert (H1 : replicants σ1 = replicants σ /\ sent σ1 = sent σ).
  { destruct (rejected (declare_rejectReason data)).
    - apply bind_returns in Hreject as (σa & Ra & Hthis & Hreject).
      apply this_replicant_inv in Hthis as [-> _].
      destruct (0 <? count_listeners Ra "declarationRejected")%nat;
        [| discriminate].
      unfold emit, modify in Hreject. injection Hreject as <-. auto.
    - injection Hreject as <-. auto. }
  destruct H1 as [Hreplicants1 Hsent1].
  (* this.status = 'declared' *)
  apply bind_returns in H as (σ2 & [] & Hstatus & H).
  unfold modify in Hstatus. injection Hstatus as <-.
  apply bind_returns in H as (σ2 & R2 & Hthis & H).
  apply this_replicant_inv in Hthis as [-> HR2].
  rewrite (update_replicant_lookup r _ σ1 R) in HR2
    by (rewrite Hreplicants1; exact HR).
  injection HR2 as <-.
  apply bind_returns in H as (σ2 & σ2' & Hget & H).
  unfold get_state in Hget. injection Hget as <- <-.
  set (σ2 := update_replicant r (with_status declared) σ1) in *.
  assert (HR2 : replicants σ2 !! r = Some (with_status declared R)).
  { apply update_replicant_lookup. rewrite Hreplicants1. exact HR. }
  (* the authoritative value *)
  apply bind_returns in H as (σ3 & [] & Hassign & H).
  assert (H3 : sent σ3 = sent σ
               /\ exists R3,
                    replicants σ3 !! r = Some R3
                    /\ _actionQueue R3 = _actionQueue R
                    /\ status R3 = declared
                    /\ revision R3 = declare_revision data).
  { destruct (negb (revision (with_status declared R) =? declare_revision data)
              || negb (equal (heap σ2) (value (with_status declared R))
                         (declare_value data))) eqn:Hdiffer.
    - destruct (_assignValue_returns _ _ _ _ _ _ _ HR2 Hassign)
        as (Hsent3 & R3 & HR3 & Hqueue & Hstatus & Hrev).
      split; [rewrite Hsent3; exact Hsent1 |].
      exists R3. repeat split; assumption.
    - injection Hassign as <-.
      apply orb_false_elim in Hdiffer as [Hrev _].
      apply negb_false_iff, Z.eqb_eq in Hrev.
      split; [exact Hsent1 |].
      exists (with_status declared R). repeat split; assumption. }
  destruct H3 as (Hsent3 & R3 & HR3 & Hqueue3 & Hstatus3 & Hrev3).
  (* the schema *)
  apply bind_returns in H as (σ4 & [] & Hschema & H).
  assert (H4 : sent σ4 = sent σ
               /\ exists R4,
                    replicants σ4 !! r = Some R4
                    /\ _actionQueue R4 = _actionQueue R
                    /\ status R4 = declared
                    /\ revision R4 = declare_revision data).
  { destruct (truthy (declare_schema data)).
    - unfold modify in Hschema. injection Hschema as <-.
      split; [exact Hsent3 |].
      eexists. split; [apply update_replicant_lookup; exact HR3 |].
      repeat split; assumption.
    - injection Hschema as <-. split; [exact Hsent3 |].
      exists R3. repeat split; assumption. }
  clear Hsent3 HR3 Hqueue3 Hstatus3 Hrev3.
  destruct H4 as (Hsent4 & R4 & HR4 & Hqueue4 & Hstatus4 & Hrev4).
  (* the two events *)
  apply bind_returns in H as (σ5 & [] & Hdeclared & H).
  unfold emit, modify in Hdeclared. injection Hdeclared as <-.
  apply bind_returns in H as (σ5 & R5 & Hthis & H).
  apply this_replicant_inv in Hthis as [-> HR5].
  cbn [replicants with_notifications] in HR5. rewrite HR4 in HR5.
  injection HR5 as <-.
  apply bind_returns in H as (σ6 & [] & Hchange & H).
  assert (H6 : replicants σ6 = replicants σ4 /\ sent σ6 = sent σ).
  { destruct (strict_equal (value R4) VUndefined && (revision R4 =? 0)).
    - unfold emit, modify in Hchange. injection Hchange as <-. auto.
    - injection Hchange as <-. auto. }
  destruct H6 as [Hreplicants6 Hsent6].
  (* the queue *)
  apply bind_returns in H as (σ7 & R7 & Hthis & H).
  apply this_replicant_inv in Hthis as [-> HR7].
  rewrite Hreplicants6, HR4 in HR7. injection HR7 as <-.
  assert (HR6 : replicants σ6 !! r = Some R4)
    by (rewrite Hreplicants6; exact HR4).
  destruct (_actionQueue R4) as [| item queue] eqn:Hqueue.
  - injection H as <-. exists R4. rewrite <- Hqueue4.
    repeat split; try assumption.
    rewrite Hsent6, app_nil_r. reflexivity.
  - apply bind_returns in H as (σ8 & [] & Hflush & H).
    rewrite (forEach_run_action_sent r R4 _ σ6 HR6) in Hflush.
    injection Hflush as <-.
    unfold modify in H. injection H as <-.
    exists (with_queues (_operationQueue R4) [] R4). repeat split.
    + apply (update_replicant_lookup r
               (fun R => with_queues (_operationQueue R) [] R)).
      exact HR6.
    + exact Hstatus4.
    + exact Hrev4.
    + cbn [sent update_replicant with_replicants with_sent].
      rewrite Hsent6, <- Hqueue4. reflexivity.
Qed.

End Declare.

Lemma declare_ack_rejected_unheard_witness :
  @declare_ack Sample.library 1 0%nat refusing_declare_ack one_replicant_state
  = (one_replicant_state, Throw (Err "no such bundle")).
Proof.
  refine (@declare_ack_rejected_unheard Sample.library 1 0%nat
            refusing_declare_ack one_replicant_state _ "no such bundle"
            eq_refl eq_refl _ eq_refl).
  discriminate.
Defined.

Lemma declare_ack_completes_witness :
  exists R',
    replicants (fst (@declare_ack Sample.library 1 0%nat seven_declare_ack
                       two_queued_state)) !! 0%nat = Some R'
    /\ status R' = declared
    /\ revision R' = 3
    /\ _actionQueue R' = []
    /\ sent (fst (@declare_ack Sample.library 1 0%nat seven_declare_ack
                    two_queued_state))
       = (sent two_queued_state
          ++ map (flush_message 0%nat R')
               [{| fn := fn_proposeAssignment; args := [VNumber 1] |};
                {| fn := fn_proposeAssignment; args := [VNumber 2] |}])%list.
Proof.
  refine (@declare_ack_completes Sample.library 1 0%nat seven_declare_ack
            two_queued_state _ _ eq_refl _).
  vm_compute. reflexivity.
Defined.

(** ** Acknowledgements, assignments and listeners *)

Section Handlers.
Context {ext : External}.

(** The acknowledgement of a proposed assignment: a schema it carries is
    stored, whether the assignment is refused or not; a refusal is emitted
    as [assignmentRejected] when somebody listens and thrown otherwise; and
    the value, the revision and the compiled validator of the Replicant are
    never touched. *)
Theorem proposeAssignment_ack_outcomes
  (r : rid) (data : ProposeAck) (σ : state) (R : Replicant) :
  replicants σ !! r = Some R ->
  let σ1 := with_proposed_schema r data σ in
  (rejected (propose_rejectReason data) = None ->
   proposeAssignment_ack r data σ = (σ1, Return tt))
  /\ (forall reason,
        rejected (propose_rejectReason data) = Some reason ->
        (count_listeners R "assignmentRejected" = 0%nat ->
         proposeAssignment_ack r data σ = (σ1, Throw (Err reason)))
        /\ ((0 < count_listeners R "assignmentRejected")%nat ->
            proposeAssignment_ack r data σ
            = (with_notifications
                 (notifications σ
                  ++ [emitted r "assignmentRejected" [arg_reason reason]]) σ1,
               Return tt)))
  /\ exists R1,
       replicants σ1 !! r = Some R1
       /\ value R1 = value R /\ revision R1 = revision R
       /\ _validator R1 = _validator R
       /\ (truthy (propose_schema data) = true ->
           schema R1 = propose_schema data
           /\ schemaSum R1 = propose_schemaSum data).
Proof.
  intros HR σ1.
  assert (H1 : exists R1,
             replicants σ1 !! r = Some R1
             /\ value R1 = value R /\ revision R1 = revision R
             /\ _validator R1 = _validator R
             /\ listenerCount R1 = listenerCount R
             /\ (truthy (propose_schema data) = true ->
                 schema R1 = propose_schema data
                 /\ schemaSum R1 = propose_schemaSum data)).
  { unfold σ1, with_proposed_schema.
    destruct (truthy (propose_schema data)).
    - eexists. split; [apply update_replicant_lookup; exact HR |].
      repeat split.
    - exists R. repeat split; [exact HR | discriminate | discriminate]. }
  destruct H1 as (R1 & HR1 & Hvalue & Hrev & Hvalidator & Hcount & Hschema).
  assert (Hfirst : forall (k : M unit),
             bind (if truthy (propose_schema data)
                   then modify (update_replicant r
                                  (with_schema (propose_schema data)
                                     (propose_schemaSum data)))
                   else ret tt) (fun _ => k) σ
             = k σ1).
  { intros k. unfold σ1, with_proposed_schema, bind.
    destruct (truthy (propose_schema data)); reflexivity. }
  split; [| split].
  - intros Hnone. unfold proposeAssignment_ack. rewrite Hfirst, Hnone.
    reflexivity.
  - intros reason Hsome. unfold proposeAssignment_ack.
    rewrite Hfirst, Hsome. unfold bind, this_replicant. rewrite HR1.
    unfold count_listeners. rewrite Hcount.
    fold (count_listeners R "assignmentRejected").
    split.
    + intros ->. reflexivity.
    + intros Hpos. apply Nat.ltb_lt in Hpos. rewrite Hpos.
      unfold emit, modify.
      replace (notifications σ1) with (notifications σ); [reflexivity |].
      unfold σ1, with_proposed_schema.
      destruct (truthy (propose_schema data)); reflexivity.
  - exists R1. auto.
Qed.

(** A [replicant:assignment] message is dropped when it names another
    Replicant; one that names this Replicant is applied whatever the status
    of the Replicant, and when it carries no revision the revision stays.
    Here for a new value that is no object. *)
Theorem _handleAssignment_any_status
  (fuel : nat) (r : rid) (data : AssignmentData) (σ : state) (R : Replicant)
  (h : list cell) (oldValue : val) :
  replicants σ !! r = Some R ->
  clone (heap σ) (value R) = (h, oldValue) ->
  (assignment_name data <> name R \/ assignment_namespace data <> namespace R ->
   _handleAssignment (S fuel) r data σ = (σ, Return tt))
  /\ (assignment_name data = name R ->
      assignment_namespace data = namespace R ->
      primitive (assignment_newValue data) ->
      _handleAssignment (S fuel) r data σ
      = (with_notifications
           (notifications σ
            ++ [emitted r "change"
                  [arg_val (assignment_newValue data); arg_val oldValue]])
           (assign_revision r (assignment_revision data)
              (update_replicant r (with_value (assignment_newValue data))
                 (with_heap h σ))),
         Return tt)).
Proof.
  intros HR Hclone. split.
  - intros Hother. unfold _handleAssignment, bind, this_replicant.
    rewrite HR.
    destruct Hother as [Hne | Hne]; apply String.eqb_neq in Hne; rewrite Hne;
      [reflexivity |].
    rewrite orb_true_r. reflexivity.
  - intros Hname Hnamespace Hprim.
    unfold _handleAssignment. unfold bind at 1. unfold this_replicant at 1.
    rewrite HR, Hname, Hnamespace, !String.eqb_refl. cbn [negb orb].
    rewrite (_assignValue_unfold (S fuel) r _ _ σ R h oldValue HR Hclone).
    unfold bind at 1.
    rewrite proxyRecursive_primitive by exact Hprim.
    unfold bind at 1. unfold modify at 1.
    unfold bind at 1. unfold modify at 1.
    unfold bind at 1. unfold this_replicant at 1.
    assert (Hafter :
      exists R',
        replicants
          (assign_revision r (assignment_revision data)
             (update_replicant r (with_value (assignment_newValue data))
                (with_heap h σ))) !! r = Some R'
        /\ value R' = assignment_newValue data).
    { pose proof (update_replicant_lookup r
                    (with_value (assignment_newValue data)) (with_heap h σ) R HR)
        as HR'.
      destruct (assignment_revision data) as [n |]; cbn [assign_revision].
      - eexists. split; [apply update_replicant_lookup; exact HR' |].
        reflexivity.
      - eexists. split; [exact HR' | reflexivity]. }
    destruct Hafter as (R' & -> & Hvalue). rewrite Hvalue.
    unfold emit, modify.
    destruct (assignment_revision data); reflexivity.
Qed.

(** A disconnect followed by a reconnect, as the two socket handlers run:
    whatever the Replicant was doing, it is declaring again and has sent one
    more [joinRoom]; the actions it had queued are gone, its value and its
    revision are what they were. *)
Theorem reconnect_declares_again (r : rid) (σ : state) (R : Replicant) :
  replicants σ !! r = Some R ->
  exists σ' R',
    bind (_handleDisconnect r) (fun _ => _declare r) σ = (σ', Return tt)
    /\ replicants σ' !! r = Some R'
    /\ status R' = declaring
    /\ _actionQueue R' = [] /\ _operationQueue R' = []
    /\ value R' = value R /\ revision R' = revision R
    /\ sent σ' = (sent σ ++ [joinRoom_message r R])%list.
Proof.
  intros HR. unfold bind at 1. unfold _handleDisconnect, modify.
  set (σ1 := update_replicant r _ σ).
  assert (HR1 : replicants σ1 !! r
                = Some (with_queues [] [] (with_status undeclared R))).
  { apply (update_replicant_lookup r
             (fun R => with_queues [] [] (with_status undeclared R))).
    exact HR. }
  rewrite (_declare_undeclared r σ1 _ HR1) by reflexivity.
  eexists. eexists. split; [reflexivity |].
  split; [apply update_replicant_lookup; exact HR1 |].
  repeat split.
Qed.

(** [on('change', listener)]: the listener is called at once, with the
    value as both new and old value, exactly when the Replicant is declared
    and its value is truthy; and it is called a second time when a
    [newListener] handler is installed, as the constructor installs one.
    [on] of another event calls nothing. *)
Theorem on_change_replays (r : rid) (σ : state) (R : Replicant) :
  replicants σ !! r = Some R ->
  (status R = declared -> truthy (value R) = true ->
   (count_listeners R "newListener" = 0%nat ->
    on r "change" σ
    = (update_replicant r (listening "change")
         (with_notifications (notifications σ ++ [replayed r R]) σ),
       Return tt))
   /\ ((0 < count_listeners R "newListener")%nat ->
       on r "change" σ
       = (update_replicant r (listening "change")
            (with_notifications
               (notifications σ ++ [replayed r R; replayed r R]) σ),
          Return tt)))
  /\ (status R <> declared \/ truthy (value R) = false ->
      on r "change" σ = (update_replicant r (listening "change") σ, Return tt))
  /\ (forall event,
        event <> "change" ->
        on r event σ = (update_replicant r (listening event) σ, Return tt)).
Proof.
  intros HR. split; [| split].
  - intros Hstatus Htruthy.
    assert (Hon :
               on r "change" σ
               = bind (modify (fun σ =>
                         with_notifications
                           (notifications σ ++ [replayed r R]) σ))
                   (fun _ =>
                      bind (if (0 <? count_listeners R "newListener")%nat
                            then modify (fun σ =>
                                   with_notifications
                                     (notifications σ ++ [replayed r R]) σ)
                            else ret tt)
                        (fun _ => modify
                                    (update_replicant r (listening "change"))))
                   σ).
    { unfold on.
      unfold bind at 1. unfold this_replicant at 1. rewrite HR.
      rewrite Hstatus, Htruthy, bool_decide_eq_true_2 by reflexivity.
      reflexivity. }
    rewrite Hon. clear Hon.
    split.
    + intros ->. reflexivity.
    + intros Hpos. apply Nat.ltb_lt in Hpos. rewrite Hpos.
      unfold bind, modify. cbn [notifications with_notifications].
      rewrite <- app_assoc. reflexivity.
  - intros Hnot. unfold on.
    unfold bind at 1. unfold this_replicant at 1. rewrite HR.
    assert (Hcond : ("change" =? "change")%string
                    && bool_decide (status R = declared) && truthy (value R)
                    = false).
    { destruct Hnot as [Hne | ->].
      - rewrite bool_decide_eq_false_2 by exact Hne. reflexivity.
      - apply andb_false_r. }
    rewrite Hcond.
    destruct (0 <? count_listeners R "newListener")%nat; reflexivity.
  - intros event Hevent. unfold on.
    unfold bind at 1. unfold this_replicant at 1. rewrite HR.
    apply String.eqb_neq in Hevent. rewrite Hevent. cbn [andb].
    destruct (0 <? count_listeners R "newListener")%nat; reflexivity.
Qed.

End Handlers.

Lemma proposeAssignment_ack_outcomes_witness :
  proposeAssignment_ack 0%nat refusing_propose_ack items_state
  = (with_proposed_schema 0%nat refusing_propose_ack items_state,
     Throw (Err "not a number")).
Proof.
  refine (proj1 (proj1 (proj2
    (proposeAssignment_ack_outcomes 0%nat refusing_propose_ack items_state
       (replicant_with "score" "bundle" (VRef 2%nat) 5 declared) eq_refl))
    "not a number" eq_refl) eq_refl).
Defined.

Lemma _handleAssignment_any_status_witness :
  @_handleAssignment Sample.library 1 0%nat (assignment_of (VNumber 8))
    one_replicant_state
  = (with_notifications
       [emitted 0%nat "change" [arg_val (VNumber 8); arg_val VUndefined]]
       (update_replicant 0%nat (with_value (VNumber 8)) one_replicant_state),
     Return tt).
Proof.
  refine (proj2
    (@_handleAssignment_any_status Sample.library 0 0%nat
       (assignment_of (VNumber 8)) one_replicant_state _ [] VUndefined
       eq_refl eq_refl) eq_refl eq_refl I).
Defined.

Lemma reconnect_declares_again_witness :
  exists σ' R',
    bind (_handleDisconnect 0%nat) (fun _ => _declare 0%nat) items_state
    = (σ', Return tt)
    /\ replicants σ' !! 0%nat = Some R'
    /\ status R' = declaring
    /\ _actionQueue R' = [] /\ _operationQueue R' = []
    /\ value R' = VRef 2%nat /\ revision R' = 5
    /\ sent σ'
       = [joinRoom_message 0%nat
            (replicant_with "score" "bundle" (VRef 2%nat) 5 declared)].
Proof.
  exact (reconnect_declares_again 0%nat items_state
           (replicant_with "score" "bundle" (VRef 2%nat) 5 declared) eq_refl).
Defined.

Lemma on_change_replays_witness :
  on 0%nat "change" items_state
  = (update_replicant 0%nat (listening "change")
       (with_notifications
          [replayed 0%nat
             (replicant_with "score" "bundle" (VRef 2%nat) 5 declared);
           replayed 0%nat
             (replicant_with "score" "bundle" (VRef 2%nat) 5 declared)]
          items_state),
     Return tt).
Proof.
  refine (proj2 (proj1
    (on_change_replays 0%nat items_state
       (replicant_with "score" "bundle" (VRef 2%nat) 5 declared) eq_refl)
    eq_refl eq_refl) _).
  vm_compute. reflexivity.
Defined.

(** ** Construction ([Replicant], [Manager]) *)

(** [new Replicant(name, namespace, opts, socket)] for a pair that is not
    registered, name and namespace being other than ['__proto__'], in a
    process where no Replicant was constructed under that name: the
    instance is a new object, with the options defaulted ([persistent] to
    true and [persistenceInterval] to [DEFAULT_PERSISTENCE_INTERVAL], each
    only when it was left out), one [newListener] handler and the status
    [declaring]; one [joinRoom] is sent and four socket handlers are
    installed; the pair is registered to the instance and every other
    registration is what it was. *)
Theorem constructor_fresh_pair
  (nm ns : string) (o : ReplicantOptions) (socket : sid) (σ : state) :
  ordinary nm -> ordinary ns -> trap_free σ ->
  registered σ ns nm = None ->
  let this := length (replicants σ) in
  exists σ',
    Replicant_constructor nm ns o socket σ = (σ', Return this)
    /\ replicants σ'
       = (replicants σ ++ [constructed_object nm ns o socket])%list
    /\ value (constructed_object nm ns o socket) = VUndefined
    /\ revision (constructed_object nm ns o socket) = 0
    /\ status (constructed_object nm ns o socket) = declaring
    /\ _socket (constructed_object nm ns o socket) = socket
    /\ opts (constructed_object nm ns o socket)
       = {| persistent := Some (default true (persistent o));
            persistenceInterval :=
              Some (default DEFAULT_PERSISTENCE_INTERVAL
                      (persistenceInterval o)) |}
    /\ sent σ'
       = (sent σ ++ [joinRoom_message this (new_object nm ns o socket)])%list
    /\ subscriptions σ'
       = (subscriptions σ ++ socket_handlers this socket)%list
    /\ notifications σ' = notifications σ
    /\ registered σ' ns nm = Some this
    /\ trap_free σ'
    /\ forall ns' nm',
         (ns', nm') <> (ns, nm) ->
         registered σ' ns' nm' = registered σ ns' nm'.
Proof.
  intros Hnm Hns Hfree Hfresh this. exists (constructed nm ns o socket σ).
  split; [apply constructor_fresh; assumption |].
  split; [reflexivity |].
  split; [reflexivity |]. split; [reflexivity |]. split; [reflexivity |].
  split; [reflexivity |].
  split.
  { cbn. destruct (persistent o), (persistenceInterval o); reflexivity. }
  split; [reflexivity |]. split; [reflexivity |]. split; [reflexivity |].
  split; [apply constructed_registered; assumption |].
  split; [apply constructed_trap_free; assumption |].
  intros ns' nm'. apply constructed_others.
Qed.

(** Two managers of the same bundle share their Replicants, the name of the
    Replicant and of the bundle being other than ['__proto__'] in a process
    where no Replicant was constructed under that name: the second manager
    asked for a name the first has created hands out the instance of the
    first, which stays bound to the socket of the first; nothing is sent or
    subscribed on the socket of the second. *)
Theorem managers_share_replicants
  (m1 m2 : Manager) (nm : string) (o1 o2 : ReplicantOptions) (σ : state) :
  ordinary nm -> ordinary (bundleName m1) -> trap_free σ ->
  bundleName m2 = bundleName m1 ->
  registered σ (bundleName m1) nm = None ->
  exists σ1 σ2 instance R,
    newReplicant m1 nm o1 σ = (σ1, Return instance)
    /\ newReplicant m2 nm o2 σ1 = (σ2, Return instance)
    /\ replicants σ1 !! instance = Some R
    /\ replicants σ2 !! instance = Some R
    /\ _socket R = socket m1
    /\ sent σ2 = sent σ1
    /\ subscriptions σ2 = subscriptions σ1.
Proof.
  intros Hnm Hns Hfree Hbundle Hfresh. unfold newReplicant. rewrite Hbundle.
  set (σ1 := constructed nm (bundleName m1) o1 (socket m1) σ).
  assert (Hthis : replicants σ1 !! length (replicants σ)
                  = Some (constructed_object nm (bundleName m1) o1 (socket m1))).
  { unfold σ1, constructed.
    cbn [replicants with_declaredReplicants with_subscriptions with_sent
         with_replicants].
    apply list_lookup_middle. reflexivity. }
  exists σ1,
    (with_replicants
       (replicants σ1 ++ [new_object nm (bundleName m1) o2 (socket m2)]) σ1),
    (length (replicants σ)),
    (constructed_object nm (bundleName m1) o1 (socket m1)).
  split; [apply constructor_fresh; assumption |].
  split.
  { apply constructor_registered. apply constructed_registered; assumption. }
  split; [exact Hthis |].
  split.
  { cbn [replicants with_replicants]. apply lookup_app_l_Some. exact Hthis. }
  repeat split.
Qed.

Lemma constructor_fresh_pair_witness :
  exists σ',
    Replicant_constructor "clock" "bundle"
      {| persistent := Some false; persistenceInterval := None |} 0%nat
      one_replicant_state
    = (σ', Return 1%nat)
    /\ opts <$> replicants σ' !! 1%nat
       = Some {| persistent := Some false;
                 persistenceInterval := Some DEFAULT_PERSISTENCE_INTERVAL |}
    /\ registered σ' "bundle" "clock" = Some 1%nat
    /\ registered σ' "bundle" "score" = Some 0%nat.
Proof.
  destruct (constructor_fresh_pair "clock" "bundle"
              {| persistent := Some false; persistenceInterval := None |}
              0%nat one_replicant_state)
    as (σ' & Hrun & Hreplicants & _ & _ & _ & _ & Hopts & _ & _ & _ & Hthis
        & _ & Hothers).
  - discriminate.
  - discriminate.
  - intros key inner. unfold one_replicant_state.
    change (declaredReplicants
              (fst (Replicant_constructor "score" "bundle"
                      {| persistent := None; persistenceInterval := None |}
                      0%nat empty_state)))
      with (<["bundle" := <["score" := 0%nat]> (∅ : gmap string nat)]>
              (∅ : gmap string (gmap string nat))).
    destruct (decide (key = "bundle")) as [-> | Hne].
    + rewrite lookup_insert_eq. intros [= <-]. reflexivity.
    + rewrite lookup_insert_ne by congruence. rewrite lookup_empty.
      discriminate.
  - reflexivity.
  - exists σ'. split; [exact Hrun |]. split; [| split].
    + rewrite Hreplicants. reflexivity.
    + exact Hthis.
    + rewrite (Hothers "bundle" "score") by discriminate. reflexivity.
Defined.

Lemma managers_share_replicants_witness :
  exists σ1 σ2 instance R,
    newReplicant {| socket := 0%nat; bundleName := "bundle" |} "score"
      {| persistent := None; persistenceInterval := None |} empty_state
    = (σ1, Return instance)
    /\ newReplicant {| socket := 1%nat; bundleName := "bundle" |} "score"
         {| persistent := None; persistenceInterval := None |} σ1
       = (σ2, Return instance)
    /\ replicants σ1 !! instance = Some R
    /\ replicants σ2 !! instance = Some R
    /\ _socket R = 0%nat
    /\ sent σ2 = sent σ1
    /\ subscriptions σ2 = subscriptions σ1.
Proof.
  apply (managers_share_replicants
           {| socket := 0%nat; bundleName := "bundle" |}
           {| socket := 1%nat; bundleName := "bundle" |} "score"
           {| persistent := None; persistenceInterval := None |}
           {| persistent := None; persistenceInterval := None |}
           empty_state).
  - discriminate.
  - discriminate.
  - intros key inner. cbn. rewrite lookup_empty. discriminate.
  - reflexivity.
  - reflexivity.
Defined.

(** ** The traps of the child proxies *)

Section Traps.
Context {ext : External}.
Context (p t : loc) (σ : state) (md : Metadata) (R : Replicant).
Context (Hproxy : heap σ !! p = Some (ProxyOf t)).
Context (Hmetadata : metadata_at σ (metadataMap σ !! t) = Some md).
Context (Howner : replicants σ !! replicant md = Some R).




End Traps.




(** ** Full updates *)

Section FullUpdate.
Context {ext : External}.

(** The events of [_assignValue]: one [change] when it returns, none when it
    does not. *)
Lemma _assignValue_events
  (fuel : nat) (r : rid) (v : val) (rev : option Z) (σ σ' : state)
  (R : Replicant) (out : outcome unit) :
  replicants σ !! r = Some R ->
  _assignValue fuel r v rev σ = (σ', out) ->
  match out with
  | Return _ =>
      exists w old R',
        notifications σ'
        = (notifications σ ++ [emitted r "change" [arg_val w; arg_val old]])%list
        /\ replicants σ' !! r = Some R'
        /\ value R' = w
        /\ revision R' = default (revision R) rev
  | _ => notifications σ' = notifications σ
  end.
Proof.
  intros HR H.
  destruct (clone (heap σ) (value R)) as [h oldValue] eqn:Eclone.
  rewrite (_assignValue_unfold fuel r v rev σ R h oldValue HR Eclone) in H.
  pose proof (proxyRecursive_wraps fuel r v "/" (with_heap h σ)) as [Hq _ _].
  unfold bind at 1 in H.
  destruct (proxyRecursive fuel r v "/" (with_heap h σ)) as [σ1 [w | e | |]];
    cbn [fst] in Hq.
  - destruct (quiet_replicant _ _ r R Hq HR) as (R1 & HR1 & Hs).
    destruct (stable_fields R R1 Hs) as (_ & _ & _ & Hrev & _).
    pose proof (quiet_notifications _ _ Hq) as Hnot.
    cbn [notifications with_heap] in Hnot.
    unfold bind at 1 in H. unfold modify at 1 in H.
    unfold bind at 1 in H. unfold modify at 1 in H.
    pose proof (update_replicant_lookup r (with_value w) σ1 R1 HR1) as HR2.
    assert (H3 : exists R3,
               replicants (assign_revision r rev
                             (update_replicant r (with_value w) σ1)) !! r
               = Some R3
               /\ value R3 = w /\ revision R3 = default (revision R) rev
               /\ notifications (assign_revision r rev
                                   (update_replicant r (with_value w) σ1))
                  = notifications σ).
    { destruct rev as [n |]; cbn [assign_revision default].
      - eexists. split; [apply update_replicant_lookup; exact HR2 |].
        repeat split. exact Hnot.
      - eexists. split; [exact HR2 |]. repeat split; assumption. }
    destruct H3 as (R3 & HR3 & Hvalue & Hrevision & Hnot3).
    unfold bind, this_replicant in H. rewrite HR3 in H.
    unfold emit, modify in H. injection H as <- <-.
    exists w, oldValue, R3. cbn [notifications with_notifications replicants].
    rewrite Hnot3, Hvalue. auto.
  - injection H as <- <-. rewrite (quiet_notifications _ _ Hq). reflexivity.
  - injection H as <- <-. rewrite (quiet_notifications _ _ Hq). reflexivity.
  - injection H as <- <-. rewrite (quiet_notifications _ _ Hq). reflexivity.
Qed.

(** The acknowledgement of a full read: [fullUpdate] is emitted first, with
    the data read, whether the assignment that follows succeeds or not;
    when it succeeds, one [change] follows and the Replicant is at the
    revision read. *)
Theorem fullUpdate_ack_announces_first
  (fuel : nat) (r : rid) (data : ReadAck) (σ σ' : state) (R : Replicant)
  (out : outcome unit) :
  replicants σ !! r = Some R ->
  fullUpdate_ack fuel r data σ = (σ', out) ->
  match out with
  | Return _ =>
      exists w old R',
        notifications σ'
        = (notifications σ
           ++ [emitted r "fullUpdate" [arg_read data];
               emitted r "change" [arg_val w; arg_val old]])%list
        /\ replicants σ' !! r = Some R'
        /\ value R' = w
        /\ revision R' = read_revision data
  | _ =>
      notifications σ'
      = (notifications σ ++ [emitted r "fullUpdate" [arg_read data]])%list
  end.
Proof.
  intros HR H. unfold fullUpdate_ack in H.
  unfold bind at 1 in H. unfold emit at 1 in H. unfold modify at 1 in H.
  apply (_assignValue_events _ _ _ _ _ _ R) in H; [| exact HR].
  destruct out as [u | e | |]; cbn [notifications with_notifications] in H.
  - destruct H as (w & old & R' & Hnot & HR' & Hvalue & Hrev).
    exists w, old, R'. rewrite Hnot, <- app_assoc. auto.
  - exact H.
  - exact H.
  - exact H.
Qed.

End FullUpdate.

Lemma fullUpdate_ack_announces_first_witness :
  notifications
    (fst (@fullUpdate_ack Sample.library 2 1%nat
            {| read_value := VRef 1%nat; read_revision := 9 |}
            two_replicants_state))
  = [emitted 1%nat "fullUpdate"
       [arg_read {| read_value := VRef 1%nat; read_revision := 9 |}]].
Proof.
  refine (@fullUpdate_ack_announces_first Sample.library 2 1%nat
            {| read_value := VRef 1%nat; read_revision := 9 |}
            two_replicants_state _ _
            (Throw (Err (ownership_message
                           (replicant_with "score" "bundle" (VRef 2%nat) 5
                              declared) "{}")))
            eq_refl _).
  vm_compute. reflexivity.
Defined.

(** ** Wrapping nested data ([proxyRecursive]) *)

Section Nested.
Context {ext : External}.

Lemma forEach_app {A} (f : A -> M unit) (a b : list A) (σ : state) :
  forEach f (a ++ b) σ = bind (forEach f a) (fun _ => forEach f b) σ.
Proof.
  revert σ. induction a as [| x a IH]; intros σ; simpl.
  - unfold bind, ret. reflexivity.
  - unfold bind in *. destruct (f x σ) as [σ1 [[] | e | |]];
      [apply IH | reflexivity | reflexivity | reflexivity].
Qed.

(** Wrapping an unwrapped flat object, as an equation. *)
Lemma proxyRecursive_unwrapped_flat
  (fuel : nat) (r : rid) (l : loc) (pth : string) (σ : state) (o : object) :
  heap σ !! l = Some (Raw o) ->
  flat o ->
  unwrapped σ l ->
  proxyRecursive (S (S fuel)) r (VRef l) pth σ
  = (fst (new_proxy r l pth σ), Return (VRef (length (heap σ)))).
Proof.
  intros Hl Hflat [Hnotproxy Hfresh].
  rewrite proxyRecursive_fresh by assumption.
  unfold bind at 1. unfold new_proxy at 1.
  unfold bind at 1. unfold get_state at 1.
  unfold bind at 1.
  rewrite (forEach_wrap_member_flat fuel r l pth _ o).
  - reflexivity.
  - cbn [heap with_registration with_metadata with_heap].
    apply lookup_app_l_Some. exact Hl.
  - exact Hflat.
Qed.

Lemma set_prop_middle
  (before after : list (string * val)) (key : string) (v w : val) :
  key ∉ map fst before ->
  set_prop (before ++ (key, v) :: after) key w
  = (before ++ (key, w) :: after)%list.
Proof.
  induction before as [| [k x] before IH]; simpl; intros Hnotin.
  - rewrite String.eqb_refl. reflexivity.
  - destruct (String.eqb_spec k key) as [-> | Hne].
    + exfalso. apply Hnotin. left.
    + rewrite IH; [reflexivity |].
      intros Hin. apply Hnotin. right. exact Hin.
Qed.

Lemma get_prop_after
  (before after : list (string * val)) (key k : string) (w : val) :
  NoDup (map fst (before ++ (key, w) :: after)) ->
  k ∈ map fst after ->
  exists v, get_prop (before ++ (key, w) :: after) k = Some v
            /\ (k, v) ∈ after.
Proof.
  intros Hnodup Hk.
  rewrite map_app in Hnodup. cbn [map fst] in Hnodup.
  apply NoDup_app in Hnodup as (_ & Hdisjoint & Hrest).
  apply NoDup_cons in Hrest as [Hkey _].
  destruct (get_prop_before after [] k Hk) as (v & Hv & Hmem).
  rewrite app_nil_r in Hv. exists v. split; [| exact Hmem].
  assert (Hnot : k ∉ map fst before).
  { intros Hin. apply (Hdisjoint k Hin). right. exact Hk. }
  clear Hdisjoint.
  induction before as [| [k' x] before IH]; simpl.
  - destruct (String.eqb_spec key k) as [-> | _]; [contradiction | exact Hv].
  - destruct (String.eqb_spec k' k) as [-> | _].
    + exfalso. apply Hnot. left.
    + apply IH. intros Hin. apply Hnot. right. exact Hin.
Qed.

(** The members of an object that are primitive pass through the loop of
    [proxyRecursive] without a change. *)
Lemma forEach_wrap_member_primitives
  (fuel : nat) (r : rid) (l : loc) (pth : string) (σ : state) (o : object)
  (keys : list string) :
  heap σ !! l = Some (Raw o) ->
  (forall k, k ∈ keys ->
             exists v, get_prop (props o) k = Some v /\ primitive v) ->
  forEach (wrap_member (S fuel) r l pth) keys σ = (σ, Return tt).
Proof.
  intros Hl Hkeys. apply forEach_unchanged. intros k Hk.
  destruct (Hkeys k Hk) as (v & Hv & Hprim).
  exact (wrap_member_primitive fuel r l pth k σ o v Hl Hv Hprim).
Qed.

(** Wrapping an unwrapped object one of whose members is an unwrapped flat
    object, the others primitive: the object gets its proxy and its
    Metadata object first, then the member gets its own, under the path of
    the object extended by the escaped key, and the member is replaced, in
    place, by its proxy. *)
Theorem proxyRecursive_member_object
  (fuel : nat) (r : rid) (l c : loc) (pth key : string) (σ : state)
  (o oc : object) (before after : list (string * val)) :
  heap σ !! l = Some (Raw o) ->
  props o = (before ++ (key, VRef c) :: after)%list ->
  NoDup (map fst (props o)) ->
  Forall (fun kv => primitive (snd kv)) before ->
  Forall (fun kv => primitive (snd kv)) after ->
  unwrapped σ l ->
  heap σ !! c = Some (Raw oc) ->
  flat oc ->
  unwrapped σ c ->
  c <> l ->
  let p := length (heap σ) in
  let i := length (metadata σ) in
  exists σ',
    proxyRecursive (S (S (S fuel))) r (VRef l) pth σ = (σ', Return (VRef p))
    /\ heap σ'
       = (<[l := Raw {| isArray := isArray o;
                        props := before ++ (key, VRef (S p)) :: after |}]>
            (heap σ)
          ++ [ProxyOf l; ProxyOf c])%list
    /\ metadata σ'
       = (metadata σ
          ++ [{| replicant := r; path := pth; proxy := p |};
              {| replicant := r; path := child_path pth key; proxy := S p |}])%list
    /\ metadataMap σ' = <[c := S i]> (<[l := i]> (metadataMap σ))
    /\ proxyMetadataMap σ' = <[S p := S i]> (<[p := i]> (proxyMetadataMap σ))
    /\ proxySet σ' = {[S p]} ∪ ({[p]} ∪ proxySet σ)
    /\ replicants σ' = replicants σ.
Proof.
  intros Hl Hprops Hnodup Hbefore Hafter [Hlproxy Hlfresh] Hc Hflat
    [Hcproxy Hcfresh] Hcl p i.
  pose proof (lookup_lt_Some _ _ _ Hl) as Hllt.
  pose proof (lookup_lt_Some _ _ _ Hc) as Hclt.
  assert (Hnotin : key ∉ map fst before).
  { rewrite Hprops, map_app in Hnodup. apply NoDup_app in Hnodup.
    destruct Hnodup as (_ & Hdisjoint & _).
    intros Hin. apply (Hdisjoint key Hin). simpl. left. }
  rewrite proxyRecursive_fresh by assumption.
  unfold bind at 1.
  set (σ1 := fst (new_proxy r l pth σ)).
  change (new_proxy r l pth σ) with (σ1, @Return val (VRef p)). cbv iota.
  unfold bind at 1. unfold get_state at 1.
  assert (Hl1 : heap σ1 !! l = Some (Raw o)).
  { unfold σ1, new_proxy.
    cbn [fst heap with_registration with_metadata with_heap].
    apply lookup_app_l_Some. exact Hl. }
  assert (Hc1 : heap σ1 !! c = Some (Raw oc)).
  { unfold σ1, new_proxy.
    cbn [fst heap with_registration with_metadata with_heap].
    apply lookup_app_l_Some. exact Hc. }
  assert (Hkeys : own_keys σ1 l
                  = (map fst before ++ [key] ++ map fst after)%list).
  { unfold own_keys, target_of. rewrite Hl1, Hl1, Hprops, map_app.
    reflexivity. }
  rewrite Hkeys. unfold bind at 1.
  rewrite forEach_app. unfold bind at 1.
  (* the members before *)
  rewrite (forEach_wrap_member_primitives (S fuel) r l pth σ1 o) ;
    [| exact Hl1 |].
  2:{ intros k Hk. rewrite Hprops.
      destruct (get_prop_before before ((key, VRef c) :: after) k Hk)
        as (v & Hv & Hmem).
      exists v. split; [exact Hv |].
      rewrite Forall_forall in Hbefore. exact (Hbefore _ Hmem). }
  rewrite forEach_app. unfold bind at 1.
  (* the member that is an object *)
  assert (Hone : forEach (wrap_member (S (S fuel)) r l pth) [key] σ1
                 = (raw_set l key (VRef (S p))
                      (fst (new_proxy r c (child_path pth key) σ1)),
                    Return tt)).
  { cbn [forEach]. unfold bind at 1.
    unfold wrap_member. unfold bind at 1. unfold get_state at 1.
    unfold hasOwn, target_of, raw_hasOwn. rewrite Hl1, Hl1, Hprops.
    rewrite get_prop_middle by exact Hnotin.
    rewrite bool_decide_eq_true_2 by eauto. cbn [negb].
    unfold get_member, raw_get. rewrite Hl1, Hprops.
    rewrite get_prop_middle by exact Hnotin. cbn [default].
    change (id (VRef c)) with (VRef c).
    fold (child_path pth key).
    unfold bind at 1.
    rewrite (proxyRecursive_unwrapped_flat fuel r c _ σ1 oc Hc1 Hflat).
    2:{ split.
        - unfold σ1, new_proxy.
          cbn [fst proxySet with_registration with_metadata with_heap].
          intros Hin. apply elem_of_union in Hin as [Hin | Hin];
            [| contradiction].
          apply elem_of_singleton in Hin. fold p in Hin. lia.
        - unfold σ1, new_proxy.
          cbn [fst metadataMap with_registration with_metadata with_heap].
          rewrite lookup_insert_ne by congruence. exact Hcfresh. }
    assert (Hlen : length (heap σ1) = S p).
    { unfold σ1, new_proxy.
      cbn [fst heap with_registration with_metadata with_heap].
      rewrite length_app. cbn [length]. unfold p. lia. }
    rewrite Hlen.
    unfold set_member. unfold bind at 1. unfold get_state at 1.
    assert (Hl2 : heap (fst (new_proxy r c (child_path pth key) σ1)) !! l
                  = Some (Raw o)).
    { unfold new_proxy at 1.
      cbn [fst heap with_registration with_metadata with_heap].
      apply lookup_app_l_Some. exact Hl1. }
    rewrite Hl2. reflexivity. }
  rewrite Hone. clear Hone.
  set (σ3 := raw_set l key (VRef (S p))
               (fst (new_proxy r c (child_path pth key) σ1))).
  assert (Hl2 : heap (fst (new_proxy r c (child_path pth key) σ1)) !! l
                = Some (Raw o)).
  { unfold new_proxy at 1.
    cbn [fst heap with_registration with_metadata with_heap].
    apply lookup_app_l_Some. exact Hl1. }
  assert (Hσ3 : σ3
                = with_heap
                    (<[l := Raw {| isArray := isArray o;
                                   props := before ++ (key, VRef (S p)) :: after |}]>
                       (heap (fst (new_proxy r c (child_path pth key) σ1))))
                    (fst (new_proxy r c (child_path pth key) σ1))).
  { unfold σ3, raw_set. rewrite Hl2, Hprops.
    rewrite set_prop_middle by exact Hnotin. reflexivity. }
  (* the members after *)
  rewrite (forEach_wrap_member_primitives (S fuel) r l pth σ3
             {| isArray := isArray o;
                props := before ++ (key, VRef (S p)) :: after |}).
  - exists σ3. split; [reflexivity |].
    rewrite Hσ3. unfold σ1, new_proxy.
    cbn [fst heap metadata metadataMap proxyMetadataMap proxySet replicants
         with_registration with_metadata with_heap].
    rewrite length_app. cbn [length].
    replace (length (heap σ) + 1)%nat with (S p) by (unfold p; lia).
    replace (length (metadata σ ++ [{| replicant := r; path := pth;
                                       proxy := length (heap σ) |}]))
      with (S i) by (rewrite length_app; cbn [length]; unfold i; lia).
    repeat split.
    + rewrite <- app_assoc. cbn [app].
      rewrite insert_app_l by exact Hllt. reflexivity.
    + rewrite <- app_assoc. reflexivity.
  - rewrite Hσ3. cbn [heap with_heap].
    apply list_lookup_insert_eq. exact (lookup_lt_Some _ _ _ Hl2).
  - intros k Hk. cbn [props].
    assert (Hnodup' : NoDup (map fst (before ++ (key, VRef (S p)) :: after))).
    { rewrite Hprops in Hnodup. rewrite map_app in *. exact Hnodup. }
    destruct (get_prop_after before after key k (VRef (S p)) Hnodup' Hk)
      as (v & Hv & Hmem).
    exists v. split; [exact Hv |].
    rewrite Forall_forall in Hafter. exact (Hafter _ Hmem).
Qed.

End Nested.

Lemma proxyRecursive_member_object_witness :
  exists σ',
    @proxyRecursive Sample.library 3 0%nat (VRef 1%nat) "/" nested_object_state
    = (σ', Return (VRef 2%nat))
    /\ heap σ'
       = [Raw {| isArray := false; props := [("goals", VNumber 1)] |};
          Raw {| isArray := false;
                 props := [("name", VString "x");
                           ("home/away", VRef 3%nat)] |};
          ProxyOf 1%nat; ProxyOf 0%nat]
    /\ metadata σ'
       = [{| replicant := 0%nat; path := "/"; proxy := 2%nat |};
          {| replicant := 0%nat; path := "/home~1away"; proxy := 3%nat |}].
Proof.
  destruct (@proxyRecursive_member_object Sample.library 0 0%nat 1%nat 0%nat
              "/" "home/away" nested_object_state
              {| isArray := false;
                 props := [("name", VString "x"); ("home/away", VRef 0%nat)] |}
              {| isArray := false; props := [("goals", VNumber 1)] |}
              [("name", VString "x")] [])
    as (σ' & Hrun & Hheap & Hmetadata & _).
  - reflexivity.
  - reflexivity.
  - apply (bool_decide_unpack _). vm_compute. exact I.
  - repeat constructor.
  - constructor.
  - split; [apply (bool_decide_unpack _); vm_compute; exact I | reflexivity].
  - reflexivity.
  - repeat constructor.
  - split; [apply (bool_decide_unpack _); vm_compute; exact I | reflexivity].
  - discriminate.
  - exists σ'. split; [exact Hrun |]. split; [exact Hheap | exact Hmetadata].
Defined.

Lemma grown_refl (H : list loc) (σ : state) : grown H σ σ.
Proof. split; auto. Qed.

Lemma grown_trans (H1 H2 : list loc) (σ1 σ2 σ3 : state) :
  grown H1 σ1 σ2 -> grown H2 σ2 σ3 -> grown (H1 ++ H2) σ1 σ3.
Proof.
  intros [Hlen1 Hheap1 Hmd1 Hmm1 Hpm1 Hps1 Hr1] [Hlen2 Hheap2 Hmd2 Hmm2 Hpm2 Hps2 Hr2].
  split.
  - lia.
  - intros k Hk Hnot. rewrite not_elem_of_app in Hnot. destruct Hnot.
    rewrite Hheap2 by (lia || assumption). auto.
  - auto.
  - intros k Hnot. rewrite not_elem_of_app in Hnot. destruct Hnot.
    rewrite Hmm2 by assumption. auto.
  - intros k Hk. rewrite Hpm2 by lia. auto.
  - intros k Hk. rewrite Hps2 by lia. auto.
  - congruence.
Qed.

Lemma grown_subseteq (H H' : list loc) (σ σ' : state) :
  grown H σ σ' -> (forall k, k ∈ H -> k ∈ H') -> grown H' σ σ'.
Proof.
  intros [Hlen Hheap Hmd Hmm Hpm Hps Hr] Hsub. split; auto.
Qed.

Lemma Forall2_impl_elem {A B} (P Q : A -> B -> Prop) (l : list A) (k : list B) :
  Forall2 P l k ->
  (forall x y, x ∈ l -> y ∈ k -> P x y -> Q x y) ->
  Forall2 Q l k.
Proof.
  induction 1 as [| x y l k Hxy _ IH]; intros Himpl; constructor.
  - apply Himpl; [left | left | exact Hxy].
  - apply IH. intros x' y' Hx' Hy'. apply Himpl; right; assumption.
Qed.

Lemma elem_of_concat {A} (Fs : list (list A)) (k : A) :
  k ∈ concat Fs <-> exists F, k ∈ F /\ F ∈ Fs.
Proof.
  induction Fs as [| F Fs IH]; simpl.
  - split; [intros H; inversion H | intros (F & _ & H); inversion H].
  - rewrite elem_of_app, IH. split.
    + intros [Hk | (F' & Hk & HF')].
      * exists F. split; [exact Hk | left].
      * exists F'. split; [exact Hk | right; exact HF'].
    + intros (F' & Hk & HF'). apply elem_of_cons in HF' as [-> | HF'].
      * left. exact Hk.
      * right. eauto.
Qed.

Lemma elem_of_concat_member {A} (F : list A) (Fs : list (list A)) (k : A) :
  F ∈ Fs -> k ∈ F -> k ∈ concat Fs.
Proof. intros HF Hk. apply elem_of_concat. eauto. Qed.

(** The objects of fresh data are objects of the heap. *)
Lemma fresh_tree_bound (σ : state) (n : nat) :
  forall v F, fresh_tree σ n v F ->
              forall k, k ∈ F -> (k < length (heap σ))%nat.
Proof.
  induction n as [| n IH]; intros v F Hfresh k Hk.
  - inversion Hfresh; subst. inversion Hk.
  - inversion Hfresh as [| ? l o Fs Hl _ _ Hchildren _]; subst.
    + inversion Hk.
    + apply elem_of_cons in Hk as [-> | Hk].
      * exact (lookup_lt_Some _ _ _ Hl).
      * apply elem_of_concat in Hk as (F & Hk & HF).
        apply list_elem_of_lookup in HF as (j & HF).
        destruct (Forall2_lookup_r _ _ _ _ _ Hchildren HF) as (kv & _ & Hkv).
        exact (IH _ _ Hkv k Hk).
Qed.

(** Fresh data stays fresh when other objects are wrapped. *)
Lemma fresh_tree_grown (H : list loc) (σ σ' : state) (n : nat) :
  grown H σ σ' ->
  forall v F, fresh_tree σ n v F ->
              (forall k, k ∈ F -> k ∉ H) ->
              fresh_tree σ' n v F.
Proof.
  intros Hgrown. induction n as [| n IH]; intros v F Hfresh Hdisjoint.
  - inversion Hfresh; subst. constructor. assumption.
  - inversion Hfresh as [| ? l o Fs Hl [Hproxy Hmap] Hkeys Hchildren Hnodup];
      subst.
    + constructor. assumption.
    + pose proof (lookup_lt_Some _ _ _ Hl) as Hlt.
      assert (HlH : l ∉ H) by (apply Hdisjoint; left).
      apply (fresh_node σ' n l o Fs).
      * rewrite (grown_heap _ _ _ Hgrown) by assumption. exact Hl.
      * split.
        -- rewrite (grown_proxySet _ _ _ Hgrown) by exact Hlt. exact Hproxy.
        -- rewrite (grown_metadataMap _ _ _ Hgrown) by exact HlH. exact Hmap.
      * exact Hkeys.
      * eapply Forall2_impl_elem; [exact Hchildren |].
        intros kv F' _ HF' Hkv. cbv beta. apply IH; [exact Hkv |].
        intros k Hk. apply Hdisjoint. right.
        exact (elem_of_concat_member F' Fs k HF' Hk).
      * exact Hnodup.
Qed.

(** What wrapping made of a value is still that when the value is traced
    back to an earlier state in which it was the same, and seen in a later
    state that other wrappings have led to. *)
Lemma wrapped_tree_transfer
  (r : rid) (H : list loc) (σ0 σ1 σ2 σ3 : state) (n : nat) :
  (length (heap σ0) <= length (heap σ1))%nat ->
  grown H σ2 σ3 ->
  (forall k, k ∈ H -> (k < length (heap σ0))%nat) ->
  forall v F p pth,
    fresh_tree σ0 n v F ->
    (forall k, k ∈ F -> heap σ1 !! k = heap σ0 !! k) ->
    (forall k, k ∈ F -> k ∉ H) ->
    wrapped_tree r σ1 σ2 v p pth ->
    wrapped_tree r σ0 σ3 v p pth.
Proof.
  intros Hlen Hgrown Hbound.
  induction n as [| n IH]; intros v F p pth Hfresh Hsame Hdisjoint Hwrapped.
  - inversion Hfresh as [? ? Hprim |]; subst.
    inversion Hwrapped; subst; [constructor; assumption | destruct Hprim].
  - inversion Hfresh as [? ? Hprim | ? l o Fs Hl _ _ Hchildren _]; subst.
    + inversion Hwrapped; subst; [constructor; assumption | destruct Hprim].
    + inversion Hwrapped
        as [? ? Hprim
           | ? o1 o' q i ? Hl1 Hl2 Harray Hq Hproxy Hset Hmap Hpmap Hmd Hmembers];
        subst; [destruct Hprim |].
      assert (Ho : o1 = o).
      { rewrite (Hsame l) in Hl1 by left. congruence. }
      subst o1.
      pose proof (lookup_lt_Some _ _ _ Hl2) as Hllt.
      pose proof (lookup_lt_Some _ _ _ Hproxy) as Hqlt.
      assert (HlH : l ∉ H) by (apply Hdisjoint; left).
      assert (HqH : q ∉ H).
      { intros Hin. apply Hbound in Hin. lia. }
      apply (wrapped_node r σ0 σ3 l o o' q i pth).
      * exact Hl.
      * rewrite (grown_heap _ _ _ Hgrown) by assumption. exact Hl2.
      * exact Harray.
      * lia.
      * rewrite (grown_heap _ _ _ Hgrown) by assumption. exact Hproxy.
      * apply (grown_proxySet _ _ _ Hgrown); assumption.
      * rewrite (grown_metadataMap _ _ _ Hgrown) by assumption. exact Hmap.
      * rewrite (grown_proxyMetadataMap _ _ _ Hgrown) by assumption.
        exact Hpmap.
      * apply (grown_metadata _ _ _ Hgrown). exact Hmd.
      * apply Forall2_same_length_lookup_2;
          [exact (Forall2_length _ _ _ Hmembers) |].
        intros j kv kv' Hkv Hkv'.
        destruct (Forall2_lookup_lr _ _ _ _ _ _ Hmembers Hkv Hkv')
          as [Hkey Hmember].
        destruct (Forall2_lookup_l _ _ _ _ _ Hchildren Hkv)
          as (F' & HF' & Hfresh').
        apply list_elem_of_lookup_2 in HF'.
        split; [exact Hkey |].
        apply (IH _ F'); [exact Hfresh' | | | exact Hmember].
        -- intros k Hk. apply Hsame. right.
           exact (elem_of_concat_member F' Fs k HF' Hk).
        -- intros k Hk. apply Hdisjoint. right.
           exact (elem_of_concat_member F' Fs k HF' Hk).
Qed.

Lemma new_proxy_grown (r : rid) (l : loc) (pth : string) (σ : state) :
  grown [l] σ (fst (new_proxy r l pth σ)).
Proof.
  unfold new_proxy. cbn [fst]. split;
    cbn [heap metadata metadataMap proxyMetadataMap proxySet replicants
         with_registration with_metadata with_heap].
  - rewrite length_app. lia.
  - intros k Hk _. apply lookup_app_l. exact Hk.
  - intros i md Hi. apply lookup_app_l_Some. exact Hi.
  - intros k Hk. apply lookup_insert_ne. intros <-. apply Hk. left.
  - intros k Hk. apply lookup_insert_ne. lia.
  - intros k Hk. rewrite elem_of_union, elem_of_singleton. split.
    + intros [-> | Hin]; [lia | exact Hin].
    + auto.
  - reflexivity.
Qed.

Lemma with_heap_insert_grown (l : loc) (c : cell) (σ : state) :
  grown [l] σ (with_heap (<[l := c]> (heap σ)) σ).
Proof.
  split; cbn [heap metadata metadataMap proxyMetadataMap proxySet replicants
              with_heap]; auto.
  - rewrite length_insert. lia.
  - intros k _ Hk. apply list_lookup_insert_ne. intros <-. apply Hk. left.
Qed.

Lemma fresh_members_bound (σ : state) (n : nat)
  (todo : list (string * val)) (Fs : list (list loc)) :
  Forall2 (fun kv F => fresh_tree σ n (snd kv) F) todo Fs ->
  forall k, k ∈ concat Fs -> (k < length (heap σ))%nat.
Proof.
  intros Hfresh k Hk. apply elem_of_concat in Hk as (F & Hk & HF).
  apply list_elem_of_lookup in HF as (j & HF).
  destruct (Forall2_lookup_r _ _ _ _ _ Hfresh HF) as (kv & _ & Hkv).
  exact (fresh_tree_bound σ n _ _ Hkv k Hk).
Qed.

Section WrapTree.
Context {ext : External} (r : rid).

(** The loop of [proxyRecursive] over the first members of an object that
    has its proxy, members that are fresh data being left to wrap: each is
    wrapped in turn and replaced in place; the members [rest] that follow
    are left for later. *)
Lemma wrap_members_then
  (n : nat)
  (IH : forall v F pth σ,
      fresh_tree σ n v F ->
      exists σ' p,
        proxyRecursive (S n) r v pth σ = (σ', Return p)
        /\ wrapped_tree r σ σ' v p pth
        /\ grown F σ σ')
  (l : loc) (pth : string) (array : bool) (σb : state)
  (rest : list (string * val)) :
  (l < length (heap σb))%nat ->
  forall todo Fs,
    Forall2 (fun kv F => fresh_tree σb n (snd kv) F) todo Fs ->
    forall (Hdone : list loc) (done' : list (string * val)) (σc : state),
      heap σc !! l
      = Some (Raw {| isArray := array; props := done' ++ todo ++ rest |}) ->
      NoDup (map fst (done' ++ todo ++ rest)) ->
      grown (l :: Hdone) σb σc ->
      l ∉ concat Fs ->
      NoDup (concat Fs) ->
      (forall k, k ∈ concat Fs -> k ∉ Hdone) ->
      exists σe todo',
        forEach (wrap_member (S n) r l pth) (map fst todo) σc
        = (σe, Return tt)
        /\ heap σe !! l
           = Some (Raw {| isArray := array; props := done' ++ todo' ++ rest |})
        /\ Forall2 (fun kv kv' =>
                      fst kv' = fst kv
                      /\ wrapped_tree r σb σe (snd kv) (snd kv')
                           (child_path pth (fst kv)))
             todo todo'
        /\ grown (l :: concat Fs) σc σe
        /\ metadataMap σe !! l = metadataMap σc !! l.
Proof.
  intros Hlb todo Fs Hfresh.
  induction Hfresh as [| [k v] F todo Fs Hv Hrest IHrest];
    intros Hdone done' σc Hl Hkeys Hgrown Hlnot Hnodup Hdisjoint.
  - exists σc, [].
    split; [reflexivity |]. split; [exact Hl |]. split; [constructor |].
    split; [apply grown_refl | reflexivity].
  - cbn [snd] in Hv. cbn [concat] in *.
    change (((k, v) :: todo) ++ rest)%list with ((k, v) :: todo ++ rest)%list
      in *.
    apply not_elem_of_app in Hlnot as [HlF Hlrest].
    apply NoDup_app in Hnodup as (HnodupF & HFrest & Hnoduprest).
    pose proof (fresh_tree_bound σb n v F Hv) as HboundF.
    pose proof (fresh_members_bound σb n todo Fs Hrest) as Hboundrest.
    pose proof (grown_length _ _ _ Hgrown) as Hlen.
    assert (Hvc : fresh_tree σc n v F).
    { apply (fresh_tree_grown (l :: Hdone) σb σc n Hgrown v F Hv).
      intros k' Hk' Hin. apply elem_of_cons in Hin as [-> | Hin].
      - contradiction.
      - apply (Hdisjoint k'); [apply elem_of_app; left; exact Hk' | exact Hin]. }
    destruct (IH v F (child_path pth k) σc Hvc)
      as (σd & p' & Hrun & Hwrapped & Hgrownd).
    assert (Hnotin : k ∉ map fst done').
    { rewrite map_app in Hkeys. apply NoDup_app in Hkeys as (_ & Hd & _).
      intros Hin. apply (Hd k Hin). left. }
    assert (Hld : heap σd !! l
                  = Some (Raw {| isArray := array;
                                 props := done' ++ (k, v) :: todo ++ rest |})).
    { rewrite (grown_heap _ _ _ Hgrownd); [exact Hl | lia | exact HlF]. }
    set (σe1 :=
           with_heap
             (<[l := Raw {| isArray := array;
                            props := done' ++ (k, p') :: todo ++ rest |}]>
                (heap σd))
             σd).
    assert (Hstep : wrap_member (S n) r l pth k σc = (σe1, Return tt)).
    { unfold wrap_member, bind, get_state.
      unfold hasOwn, target_of, raw_hasOwn. rewrite Hl, Hl. cbn [props].
      rewrite get_prop_middle by exact Hnotin.
      rewrite bool_decide_eq_true_2 by eauto. cbn [negb].
      unfold get_member, raw_get. rewrite Hl. cbn [props].
      rewrite get_prop_middle by exact Hnotin. cbn [default].
      change (id v) with v. fold (child_path pth k). rewrite Hrun.
      unfold set_member, bind, get_state. rewrite Hld.
      unfold modify, raw_set. rewrite Hld. cbn [props isArray].
      rewrite set_prop_middle by exact Hnotin. reflexivity. }
    assert (Hgrowne1 : grown [l] σd σe1) by apply with_heap_insert_grown.
    destruct (IHrest (Hdone ++ F)%list (done' ++ [(k, p')])%list σe1)
      as (σe & todo' & Hrunrest & Hle & Hwrappedrest & Hgrowne & Hmap).
    { unfold σe1. cbn [heap with_heap].
      rewrite list_lookup_insert_eq by exact (lookup_lt_Some _ _ _ Hld).
      rewrite <- app_assoc. reflexivity. }
    { rewrite <- app_assoc. cbn [app].
      rewrite map_app in *. exact Hkeys. }
    { apply (grown_subseteq (((l :: Hdone) ++ F) ++ [l])%list).
      - apply (grown_trans _ _ σb σd σe1); [| exact Hgrowne1].
        apply (grown_trans _ _ σb σc σd); assumption.
      - intros k'. rewrite !elem_of_app, !elem_of_cons, elem_of_app.
        rewrite elem_of_nil. tauto. }
    { exact Hlrest. }
    { exact Hnoduprest. }
    { intros k' Hk' Hin. apply elem_of_app in Hin as [Hin | Hin].
      - apply (Hdisjoint k'); [apply elem_of_app; right; exact Hk' | exact Hin].
      - exact (HFrest k' Hin Hk'). }
    exists σe, ((k, p') :: todo'). split; [| split; [| split; [| split]]].
    + cbn [map fst forEach]. unfold bind. rewrite Hstep. exact Hrunrest.
    + rewrite <- app_assoc in Hle. exact Hle.
    + constructor; [| exact Hwrappedrest].
      split; [reflexivity |]. cbn [fst snd].
      apply (wrapped_tree_transfer r ([l] ++ l :: concat Fs)%list σb σc σd σe n
               Hlen) with (F := F).
      * apply (grown_trans _ _ σd σe1 σe); assumption.
      * intros k'. rewrite elem_of_app, !elem_of_cons, elem_of_nil.
        intros [[-> | []] | [-> | Hin]]; auto.
      * exact Hv.
      * intros k' Hk'. apply (grown_heap _ _ _ Hgrown); [auto |].
        intros Hin. apply elem_of_cons in Hin as [-> | Hin];
          [contradiction |].
        apply (Hdisjoint k'); [apply elem_of_app; left; exact Hk' | exact Hin].
      * intros k' Hk'. rewrite elem_of_app, !elem_of_cons, elem_of_nil.
        intros [[-> | []] | [-> | Hin]]; try contradiction.
        exact (HFrest k' Hk' Hin).
      * exact Hwrapped.
    + apply (grown_subseteq ((F ++ [l]) ++ l :: concat Fs)%list).
      * apply (grown_trans _ _ σc σe1 σe); [| exact Hgrowne].
        apply (grown_trans _ _ σc σd σe1); assumption.
      * intros k'. rewrite !elem_of_app, !elem_of_cons, elem_of_app.
        rewrite elem_of_nil. tauto.
    + rewrite Hmap. unfold σe1. cbn [metadataMap with_heap].
      apply (grown_metadataMap _ _ _ Hgrownd). exact HlF.
Qed.

(** The same loop over all the members. *)
Lemma wrap_members
  (n : nat)
  (IH : forall v F pth σ,
      fresh_tree σ n v F ->
      exists σ' p,
        proxyRecursive (S n) r v pth σ = (σ', Return p)
        /\ wrapped_tree r σ σ' v p pth
        /\ grown F σ σ')
  (l : loc) (pth : string) (array : bool) (σb : state) :
  (l < length (heap σb))%nat ->
  forall todo Fs,
    Forall2 (fun kv F => fresh_tree σb n (snd kv) F) todo Fs ->
    forall (Hdone : list loc) (done' : list (string * val)) (σc : state),
      heap σc !! l
      = Some (Raw {| isArray := array; props := done' ++ todo |}) ->
      NoDup (map fst (done' ++ todo)) ->
      grown (l :: Hdone) σb σc ->
      l ∉ concat Fs ->
      NoDup (concat Fs) ->
      (forall k, k ∈ concat Fs -> k ∉ Hdone) ->
      exists σe todo',
        forEach (wrap_member (S n) r l pth) (map fst todo) σc
        = (σe, Return tt)
        /\ heap σe !! l
           = Some (Raw {| isArray := array; props := done' ++ todo' |})
        /\ Forall2 (fun kv kv' =>
                      fst kv' = fst kv
                      /\ wrapped_tree r σb σe (snd kv) (snd kv')
                           (child_path pth (fst kv)))
             todo todo'
        /\ grown (l :: concat Fs) σc σe
        /\ metadataMap σe !! l = metadataMap σc !! l.
Proof.
  intros Hlb todo Fs Hfresh Hdone done' σc Hl Hkeys Hgrown Hlnot Hnodup
    Hdisjoint.
  destruct (wrap_members_then n IH l pth array σb [] Hlb todo Fs Hfresh
              Hdone done' σc)
    as (σe & todo' & Hrun & Hle & Hwrapped & Hgrowne & Hmap);
    try assumption.
  - rewrite app_nil_r. exact Hl.
  - rewrite app_nil_r. exact Hkeys.
  - exists σe, todo'. rewrite app_nil_r in Hle. auto.
Qed.

End WrapTree.

Section WrapData.
Context {ext : External}.

(** Wrapping plain data nothing has wrapped yet. *)
Lemma proxyRecursive_fresh_tree (r : rid) (n : nat) :
  forall (v : val) (F : list loc) (pth : string) (σ : state),
    fresh_tree σ n v F ->
    exists σ' p,
      proxyRecursive (S n) r v pth σ = (σ', Return p)
      /\ wrapped_tree r σ σ' v p pth
      /\ grown F σ σ'.
Proof.
  induction n as [| n IH]; intros v F pth σ Hfresh.
  - inversion Hfresh as [? ? Hprim |]; subst.
    exists σ, v. split; [apply proxyRecursive_primitive; exact Hprim |].
    split; [constructor; exact Hprim | apply grown_refl].
  - inversion Hfresh
      as [? ? Hprim | ? l o Fs Hl [Hproxy Hmap] Hkeys Hchildren Hnodup]; subst.
    { exists σ, v. split; [apply proxyRecursive_primitive; exact Hprim |].
      split; [constructor; exact Hprim | apply grown_refl]. }
    pose proof (lookup_lt_Some _ _ _ Hl) as Hlt.
    apply NoDup_cons in Hnodup as [Hlnot Hnodup].
    pose proof (fresh_members_bound σ n _ _ Hchildren) as Hbound.
    set (q := length (heap σ)).
    set (i := length (metadata σ)).
    set (σ1 := fst (new_proxy r l pth σ)).
    pose proof (new_proxy_grown r l pth σ) as Hgrown1. fold σ1 in Hgrown1.
    assert (Hl1 : heap σ1 !! l
                  = Some (Raw {| isArray := isArray o;
                                 props := [] ++ props o |})).
    { unfold σ1, new_proxy.
      cbn [fst heap with_registration with_metadata with_heap].
      rewrite lookup_app_l by exact Hlt.
      rewrite Hl. destruct o; reflexivity. }
    assert (Hchildren1 :
      Forall2 (fun kv F' => fresh_tree σ1 n (snd kv) F') (props o) Fs).
    { eapply Forall2_impl_elem; [exact Hchildren |].
      intros kv F' _ HF' Hkv. cbv beta.
      apply (fresh_tree_grown [l] σ σ1 n Hgrown1 _ _ Hkv).
      intros k Hk Hin. apply list_elem_of_singleton in Hin as ->.
      apply Hlnot. exact (elem_of_concat_member F' Fs l HF' Hk). }
    destruct (wrap_members r n (IH) l pth (isArray o) σ1
                (Nat.lt_le_trans _ _ _ Hlt (grown_length _ _ _ Hgrown1))
                (props o) Fs Hchildren1 [] [] σ1 Hl1 Hkeys
                (grown_refl _ σ1) Hlnot Hnodup)
      as (σe & members & Hrun & Hle & Hwrapped & Hgrowne & Hmape).
    { intros k _ Hin. inversion Hin. }
    exists σe, (VRef q).
    split; [| split].
    + rewrite proxyRecursive_fresh by assumption.
      unfold bind at 1.
      change (new_proxy r l pth σ) with (σ1, @Return val (VRef q)).
      cbv iota. unfold bind at 1. unfold get_state at 1.
      assert (Hown : own_keys σ1 l = map fst (props o)).
      { unfold own_keys, target_of. rewrite Hl1, Hl1. reflexivity. }
      rewrite Hown. unfold bind. rewrite Hrun. reflexivity.
    + assert (Hq1 : (q < length (heap σ1))%nat).
      { unfold σ1, new_proxy.
        cbn [fst heap with_registration with_metadata with_heap].
        rewrite length_app. cbn [length]. unfold q. lia. }
      assert (Hqnot : q ∉ l :: concat Fs).
      { intros Hin. apply elem_of_cons in Hin as [Hin | Hin].
        - unfold q in Hin. lia.
        - apply Hbound in Hin. unfold q in Hin. lia. }
      apply (wrapped_node r σ σe l o
               {| isArray := isArray o; props := members |} q i pth).
      * exact Hl.
      * exact Hle.
      * reflexivity.
      * unfold q. lia.
      * rewrite (grown_heap _ _ _ Hgrowne) by assumption.
        unfold σ1, new_proxy.
        cbn [fst heap with_registration with_metadata with_heap].
        apply list_lookup_middle. reflexivity.
      * apply (grown_proxySet _ _ _ Hgrowne); [exact Hq1 |].
        unfold σ1, new_proxy.
        cbn [fst proxySet with_registration with_metadata with_heap].
        apply elem_of_union. left. apply elem_of_singleton. reflexivity.
      * rewrite Hmape. unfold σ1, new_proxy.
        cbn [fst metadataMap with_registration with_metadata with_heap].
        apply lookup_insert_eq.
      * rewrite (grown_proxyMetadataMap _ _ _ Hgrowne) by exact Hq1.
        unfold σ1, new_proxy.
        cbn [fst proxyMetadataMap with_registration with_metadata with_heap].
        apply lookup_insert_eq.
      * apply (grown_metadata _ _ _ Hgrowne). unfold σ1, new_proxy.
        cbn [fst metadata with_registration with_metadata with_heap].
        apply list_lookup_middle. reflexivity.
      * cbn [props].
        apply Forall2_same_length_lookup_2;
          [exact (Forall2_length _ _ _ Hwrapped) |].
        intros j kv kv' Hkv Hkv'.
        destruct (Forall2_lookup_lr _ _ _ _ _ _ Hwrapped Hkv Hkv')
          as [Hkey Hmember].
        destruct (Forall2_lookup_l _ _ _ _ _ Hchildren Hkv)
          as (F' & HF' & Hfresh').
        apply list_elem_of_lookup_2 in HF'.
        split; [exact Hkey |].
        apply (wrapped_tree_transfer r [] σ σ1 σe σe n
                 (grown_length _ _ _ Hgrown1) (grown_refl _ σe))
          with (F := F').
        -- intros k Hk. inversion Hk.
        -- exact Hfresh'.
        -- intros k Hk. apply (grown_heap _ _ _ Hgrown1).
           ++ exact (fresh_tree_bound σ n _ _ Hfresh' k Hk).
           ++ intros Hin. apply list_elem_of_singleton in Hin as ->.
              apply Hlnot. exact (elem_of_concat_member F' Fs l HF' Hk).
        -- intros k _ Hin. inversion Hin.
        -- exact Hmember.
    + apply (grown_subseteq ([l] ++ l :: concat Fs)%list).
      * apply (grown_trans _ _ σ σ1 σe); assumption.
      * intros k. rewrite elem_of_app, !elem_of_cons, elem_of_nil. tauto.
Qed.

(** [proxyRecursive] on plain data nothing has wrapped yet, of any shape
    and depth: it returns; a primitive comes back as it is; every object
    of the data gets one new proxy, registered in [proxySet], and one
    Metadata object, registered under the object in [metadataMap] and under
    the proxy in [proxyMetadataMap], that names the Replicant and the path
    of the object (the path given for the root, the path of the enclosing
    object extended by the escaped key for a member); every member that is
    an object is replaced in place by its proxy; and nothing else changes:
    no other object of the heap, no entry of the collections for an object
    that was there, no Replicant object. *)
Theorem proxyRecursive_wraps_data (r : rid) (n : nat) :
  forall (v : val) (F : list loc) (pth : string) (σ : state),
    fresh_tree σ n v F ->
    exists σ' p,
      proxyRecursive (S n) r v pth σ = (σ', Return p)
      /\ wrapped_tree r σ σ' v p pth
      /\ grown F σ σ'.
Proof. exact (proxyRecursive_fresh_tree r n). Qed.

End WrapData.

Lemma proxyRecursive_wraps_data_witness :
  exists σ' p,
    @proxyRecursive Sample.library 3 0%nat (VRef 1%nat) "/" nested_object_state
    = (σ', Return p)
    /\ wrapped_tree 0%nat nested_object_state σ' (VRef 1%nat) p "/"
    /\ grown [1%nat; 0%nat] nested_object_state σ'.
Proof.
  apply (@proxyRecursive_wraps_data Sample.library 0%nat 2 (VRef 1%nat)
           [1%nat; 0%nat] "/" nested_object_state).
  apply (fresh_node nested_object_state 1 1%nat
           {| isArray := false;
              props := [("name", VString "x"); ("home/away", VRef 0%nat)] |}
           [[]; [0%nat]]).
  - reflexivity.
  - split; [apply (bool_decide_unpack _); vm_compute; exact I | reflexivity].
  - apply (bool_decide_unpack _). vm_compute. exact I.
  - constructor; [apply fresh_leaf; exact I |].
    constructor; [| constructor].
    apply (fresh_node nested_object_state 0 0%nat
             {| isArray := false; props := [("goals", VNumber 1)] |} [[]]).
    + reflexivity.
    + split; [apply (bool_decide_unpack _); vm_compute; exact I | reflexivity].
    + apply (bool_decide_unpack _). vm_compute. exact I.
    + constructor; [apply fresh_leaf; exact I | constructor].
    + apply (bool_decide_unpack _). vm_compute. exact I.
  - apply (bool_decide_unpack _). vm_compute. exact I.
Defined.

(** ** One owner per object, at any depth ([proxyRecursive]) *)










Section SingleOwnerSpec.
Context {ext : External} (r : rid) (md : Metadata) (owner : Replicant).



End SingleOwnerSpec.



(** ** An assignment queued before a disconnect *)

(** An assignment to [.value] made before the declaration is acknowledged
    is queued, not sent; and a disconnect that comes before the
    acknowledgement drops it: the queue is emptied, nothing has been sent
    for it, and the value of the Replicant is what it was. *)
Theorem queued_assignment_lost_on_disconnect
  (r : rid) (newValue : val) (σ : state) (R : Replicant) :
  replicants σ !! r = Some R ->
  status R <> declared ->
  _ignoreProxy R = false ->
  newValue <> value R ->
  verdict R (heap σ) newValue = true ->
  exists σ1 σ2 R1 R2,
    replicantHandler_set_value r newValue σ = (σ1, Return true)
    /\ replicants σ1 !! r = Some R1
    /\ _actionQueue R1
       = (_actionQueue R
          ++ [{| fn := fn_proposeAssignment; args := [newValue] |}])%list
    /\ sent σ1 = sent σ
    /\ _handleDisconnect r σ1 = (σ2, Return tt)
    /\ replicants σ2 !! r = Some R2
    /\ _actionQueue R2 = []
    /\ status R2 = undeclared
    /\ value R2 = value R
    /\ sent σ2 = sent σ.
Proof.
  intros HR Hstatus Hflag Hnew Hverdict.
  assert (Hvalid : validate r newValue true σ = (σ, Return true)).
  { unfold verdict in Hverdict.
    destruct (_validator R) as [check |] eqn:Hcheck.
    - exact (validate_accepted r newValue true σ R check HR Hcheck Hverdict).
    - exact (validate_without_validator r newValue true σ R HR Hcheck). }
  set (σ1 := update_replicant r (queue_assignment newValue) σ).
  set (σ2 := update_replicant r
               (fun R => with_queues [] [] (with_status undeclared R)) σ1).
  assert (HR1 : replicants σ1 !! r = Some (queue_assignment newValue R))
    by (apply update_replicant_lookup; exact HR).
  exists σ1, σ2, (queue_assignment newValue R),
    (with_queues [] [] (with_status undeclared (queue_assignment newValue R))).
  split.
  { rewrite (set_value_unfold r newValue σ R HR Hflag Hnew).
    unfold bind at 1. rewrite Hvalid.
    unfold bind at 1. unfold this_replicant at 1. rewrite HR.
    rewrite bool_decide_eq_false_2 by exact Hstatus. reflexivity. }
  split; [exact HR1 |]. split; [reflexivity |]. split; [reflexivity |].
  split; [reflexivity |].
  split.
  { apply (update_replicant_lookup r
             (fun R => with_queues [] [] (with_status undeclared R))).
    exact HR1. }
  repeat split.
Qed.

Lemma queued_assignment_lost_on_disconnect_witness :
  exists σ1 σ2 R1 R2,
    replicantHandler_set_value 0%nat (VNumber 3) one_replicant_state
    = (σ1, Return true)
    /\ replicants σ1 !! 0%nat = Some R1
    /\ _actionQueue R1
       = [{| fn := fn_proposeAssignment; args := [VNumber 3] |}]
    /\ sent σ1 = sent one_replicant_state
    /\ _handleDisconnect 0%nat σ1 = (σ2, Return tt)
    /\ replicants σ2 !! 0%nat = Some R2
    /\ _actionQueue R2 = []
    /\ status R2 = undeclared
    /\ value R2 = VUndefined
    /\ sent σ2 = sent one_replicant_state.
Proof.
  refine (queued_assignment_lost_on_disconnect 0%nat (VNumber 3)
            one_replicant_state _ eq_refl _ eq_refl _ eq_refl);
    discriminate.
Defined.

(** ** Scenarios *)

Example pathStrToPathArr_abc : pathStrToPathArr "/a/b/c" = ["a"; "b"; "c"].
Proof. reflexivity. Qed.

Example pathStrToPathArr_root : pathStrToPathArr "/" = [].
Proof. reflexivity. Qed.

Example pathArrToPathStr_abc : pathArrToPathStr ["a"; "b"; "c"] = "/a/b/c".
Proof. reflexivity. Qed.

Example pathArrToPathStr_root : pathArrToPathStr [] = "/".
Proof. reflexivity. Qed.

(** The first construction: the object is registered, is declaring, has its
    option defaults, has asked to join the room of its namespace and
    listens to the four inbound messages. *)
Example first_construction :
  registered one_replicant_state "bundle" "score" = Some 0%nat
  /\ (fun R => (status R, opts R)) <$> replicants one_replicant_state !! 0%nat
     = Some (declaring,
             {| persistent := Some true;
                persistenceInterval := Some DEFAULT_PERSISTENCE_INTERVAL |})
  /\ sent one_replicant_state
     = [{| emit_socket := 0%nat; emit_event := "joinRoom";
           emit_payload := room "replicant:bundle";
           emit_ack := Some (cb_joinRoom 0%nat) |}]
  /\ map sub_event (subscriptions one_replicant_state)
     = ["replicant:assignment"; "replicant:operations"; "disconnect";
        "reconnect"].
Proof. repeat split. Qed.

(** A fresh declare with no server value: the Replicant ends declared and
    one [change] is emitted although old and new value are both undefined. *)
Example fresh_declare :
  let σ := fst (@declare_ack Sample.library 1 0%nat empty_declare_ack
                  (fst (joinRoom_ack 0%nat one_replicant_state))) in
  status <$> replicants σ !! 0%nat = Some declared
  /\ notifications σ
     = [emitted 0%nat "declared" [arg_declared empty_declare_ack];
        emitted 0%nat "change" []].
Proof. split; vm_compute; reflexivity. Qed.

(** Out-of-order operations: at revision 5, a batch stamped 7 is not
    applied; a [replicant:read] is sent, and its acknowledgement replaces
    the value and moves to revision 7. *)
Example out_of_order_operations :
  let σ := fst (@_handleOperations Sample.library 2 0%nat
                  (batch 7 [push_items]) items_state) in
  sent σ = [read_message 0%nat "score" "bundle" (cb_fullUpdate 0%nat)]
  /\ heap σ = heap items_state
  /\ (fun R => (value R, revision R))
       <$> replicants
             (fst (@fullUpdate_ack Sample.library 2 0%nat
                     {| read_value := VNumber 9; read_revision := 7 |} σ))
           !! 0%nat
     = Some (VNumber 9, 7).
Proof. repeat split; vm_compute; reflexivity. Qed.

(** A set before declaration is queued, and the acknowledgement of the
    declaration proposes it. *)
Example queued_assignment_replayed :
  let σ1 := fst (replicantHandler_set_value 0%nat (VNumber 3)
                   one_replicant_state) in
  let σ2 := fst (@declare_ack Sample.library 1 0%nat empty_declare_ack σ1) in
  _actionQueue <$> replicants σ1 !! 0%nat
  = Some [{| fn := fn_proposeAssignment; args := [VNumber 3] |}]
  /\ map emit_event (sent σ2) = ["joinRoom"; "replicant:proposeAssignment"]
  /\ _actionQueue <$> replicants σ2 !! 0%nat = Some [].
Proof. repeat split; vm_compute; reflexivity. Qed.

(** A disconnect drops what was queued. *)
Example disconnect_drops_queue :
  let σ := fst (_handleDisconnect 0%nat
                  (fst (replicantHandler_set_value 0%nat (VNumber 3)
                          one_replicant_state))) in
  (fun R => (status R, _actionQueue R)) <$> replicants σ !! 0%nat
  = Some (undeclared, []).
Proof. vm_compute. reflexivity. Qed.
